(** * The annotation front end of sam-image-labeler

    A shallow embedding of the browser script that drives the annotation
    session: the per-image store [imagesState], the class registry, the
    asynchronous mask request [generateMask], the pixel recoloring of
    [createColoredMask] and the event handlers that mutate the store.

    Conventions.
    - JavaScript numbers that the script only ever uses as integers are [Z]
      (pixel bytes, coordinates after [Math.round]) or [nat] (array indices).
      Pointer and layout coordinates, which may be fractional, are the
      rationals [Q] that doubles are, and the arithmetic of the [mousedown]
      handler on them rounds every result to IEEE 754 binary64
      ([roundToDouble]).  [NaN] is [None] in [JsNum].
    - An [Image] element is represented by its decoded RGBA pixel buffer, the
      array [getImageData] hands out; a data URL of an image by the same
      record.
    - Arrays are lists, read with [!!] and written with [<[ i := v ]>]; a
      write past the end of a typed array is ignored, as the list insert is.
    - The objects of [imagesState] are never removed or replaced, so a
      closure that captured one of them is represented by its index.
    - Strings are ASCII; a character is one code unit.
    - Alerts and the translations change nothing that the handlers below
      read back, and are left out.  The [disabled] flags of the buttons are
      not part of the store [App]; they are added to it in [Page], where a
      disabled button receives no click. *)

From Stdlib Require Import ZArith QArith Qround Qabs Qpower Lia Lqa Ascii.
From stdpp Require Import base option list strings.

Local Open Scope Z_scope.

(** ** Data *)

Module Img.
Record t := mk { width : Z; height : Z; data : list Z }.
End Img.

Module Point.
Record t := mk { x : Z; y : Z; label : Z }.
End Point.

Module ClassInfo.
Record t := mk { name : string; color : string }.
End ClassInfo.

(** [NaN] or an integer. *)
Definition JsNum := option Z.

(** ** Parsing a color: [parseInt(hexColor.slice(a, b), 16)] *)

Definition slice (s : string) (a b : nat) : string :=
  String.substring a (b - a) s.

Definition hexDigit (c : Ascii.ascii) : option Z :=
  let n := Z.of_N (Ascii.N_of_ascii c) in
  if (48 <=? n) && (n <=? 57) then Some (n - 48)
  else if (97 <=? n) && (n <=? 102) then Some (n - 87)
  else if (65 <=? n) && (n <=? 70) then Some (n - 55)
  else None.

Definition isWhiteSpace (c : Ascii.ascii) : bool :=
  let n := Z.of_N (Ascii.N_of_ascii c) in
  (n =? 32) || ((9 <=? n) && (n <=? 13)).

Fixpoint skipWhiteSpace (s : string) : string :=
  match s with
  | String c rest => if isWhiteSpace c then skipWhiteSpace rest else s
  | EmptyString => s
  end.

(** The longest prefix of hexadecimal digits; [acc] is [None] until a first
    digit has been read. *)
Fixpoint parseHexDigits (s : string) (acc : JsNum) : JsNum :=
  match s with
  | String c rest =>
      match hexDigit c with
      | Some d => parseHexDigits rest (Some (16 * default 0 acc + d))
      | None => acc
      end
  | EmptyString => acc
  end.

Definition stripHexPrefix (s : string) : string :=
  match s with
  | String "0"%char (String "x"%char rest) => rest
  | String "0"%char (String "X"%char rest) => rest
  | _ => s
  end.

Definition parseInt16 (s : string) : JsNum :=
  let s1 := skipWhiteSpace s in
  let '(sign, s2) :=
    match s1 with
    | String "-"%char rest => (-1, rest)
    | String "+"%char rest => (1, rest)
    | _ => (1, s1)
    end in
  (fun n => sign * n) <$> parseHexDigits (stripHexPrefix s2) None.

(** ** The pixel loop of [createColoredMask] *)

(** A store into a [Uint8ClampedArray]: [NaN] becomes 0, other values are
    clamped to a byte. *)
Definition toUint8Clamped (v : JsNum) : Z :=
  match v with
  | None => 0
  | Some z => Z.max 0 (Z.min 255 z)
  end.

(** [data[j] > 0]; a read past the end is [undefined], which is not [> 0]. *)
Definition positiveAt (data : list Z) (j : nat) : bool :=
  match data !! j with
  | Some a => 0 <? a
  | None => false
  end.

(** [for (let i = 0; i < data.length; i += 4) { ... }] started at [i]; the
    index grows by 4 every turn, so [length data] turns are always enough. *)
Fixpoint recolorLoop (fuel : nat) (i : nat) (r g b : JsNum) (data : list Z)
  : list Z :=
  match fuel with
  | O => data
  | S fuel' =>
      if (i <? length data)%nat then
        let data' :=
          if positiveAt data (i + 3) then
            <[ (i + 3)%nat := toUint8Clamped (Some 128) ]>
              (<[ (i + 2)%nat := toUint8Clamped b ]>
                 (<[ (i + 1)%nat := toUint8Clamped g ]>
                    (<[ i := toUint8Clamped r ]> data)))
          else data in
        recolorLoop fuel' (i + 4) r g b data'
      else data
  end.

Definition recolorPixels (r g b : JsNum) (data : list Z) : list Z :=
  recolorLoop (length data) 0 r g b data.

Definition createColoredMask (maskImage : Img.t) (hexColor : string) : Img.t :=
  let r := parseInt16 (slice hexColor 1 3) in
  let g := parseInt16 (slice hexColor 3 5) in
  let b := parseInt16 (slice hexColor 5 7) in
  Img.mk (Img.width maskImage) (Img.height maskImage)
         (recolorPixels r g b (Img.data maskImage)).

(** ** The store *)

Record SavedMask := mkSavedMask {
  maskImageObject : Img.t;
  maskImageSrc : Img.t;
  className : string;
  classColor : string
}.

Record ImageState := mkImageState {
  imageElement : Img.t;
  imageDataUrl : string;
  points : list Point.t;
  currentMask : option Img.t;
  savedMasks : list SavedMask;
  highlightedMaskIndex : option nat
}.

(** The variables of the script, the parts of the page its handlers read
    back, and the continuations that are waiting for the browser.
    - [imageThumbnailList]: the index each thumbnail's [onclick] captured;
    - [classListContainer]: the class name each [li]'s listener captured;
    - [masksListContainer]: the [dataset.maskIndex] of each [li];
    - [pendingFetches]: for each [generateMask] suspended at its [await], the
      entry it captured in [state];
    - [pendingMasks]: for each [createColoredMask] promise not yet resolved,
      the entry captured by its [then] callback and the image it resolves to
      (the mask and the color are fixed when the promise is created);
    - [console]: the messages written with [console.error]. *)
Record App := mkApp {
  imagesState : list ImageState;
  activeImageId : option nat;
  classes : list ClassInfo.t;
  activeClass : option string;
  isPredicting : bool;
  canvasWidth : Z;
  canvasHeight : Z;
  imageThumbnailList : list nat;
  classListContainer : list string;
  masksListContainer : list nat;
  pendingFetches : list nat;
  pendingMasks : list (nat * Img.t);
  console : list string
}.

Definition initialApp : App :=
  mkApp [] None [] None false 300 150 [] [] [] [] [] [].

Section Setters.
Variable s : App.

Definition setImagesState (v : list ImageState) : App :=
  mkApp v (activeImageId s) (classes s) (activeClass s) (isPredicting s)
        (canvasWidth s) (canvasHeight s) (imageThumbnailList s)
        (classListContainer s) (masksListContainer s) (pendingFetches s)
        (pendingMasks s) (console s).

Definition setActiveImageId (v : option nat) : App :=
  mkApp (imagesState s) v (classes s) (activeClass s) (isPredicting s)
        (canvasWidth s) (canvasHeight s) (imageThumbnailList s)
        (classListContainer s) (masksListContainer s) (pendingFetches s)
        (pendingMasks s) (console s).

Definition setClasses (v : list ClassInfo.t) : App :=
  mkApp (imagesState s) (activeImageId s) v (activeClass s) (isPredicting s)
        (canvasWidth s) (canvasHeight s) (imageThumbnailList s)
        (classListContainer s) (masksListContainer s) (pendingFetches s)
        (pendingMasks s) (console s).

Definition setActiveClassVar (v : option string) : App :=
  mkApp (imagesState s) (activeImageId s) (classes s) v (isPredicting s)
        (canvasWidth s) (canvasHeight s) (imageThumbnailList s)
        (classListContainer s) (masksListContainer s) (pendingFetches s)
        (pendingMasks s) (console s).

Definition setIsPredicting (v : bool) : App :=
  mkApp (imagesState s) (activeImageId s) (classes s) (activeClass s) v
        (canvasWidth s) (canvasHeight s) (imageThumbnailList s)
        (classListContainer s) (masksListContainer s) (pendingFetches s)
        (pendingMasks s) (console s).

Definition setCanvasSize (w h : Z) : App :=
  mkApp (imagesState s) (activeImageId s) (classes s) (activeClass s)
        (isPredicting s) w h (imageThumbnailList s)
        (classListContainer s) (masksListContainer s) (pendingFetches s)
        (pendingMasks s) (console s).

Definition setImageThumbnailList (v : list nat) : App :=
  mkApp (imagesState s) (activeImageId s) (classes s) (activeClass s)
        (isPredicting s) (canvasWidth s) (canvasHeight s) v
        (classListContainer s) (masksListContainer s) (pendingFetches s)
        (pendingMasks s) (console s).

Definition setClassListContainer (v : list string) : App :=
  mkApp (imagesState s) (activeImageId s) (classes s) (activeClass s)
        (isPredicting s) (canvasWidth s) (canvasHeight s)
        (imageThumbnailList s) v (masksListContainer s) (pendingFetches s)
        (pendingMasks s) (console s).

Definition setMasksListContainer (v : list nat) : App :=
  mkApp (imagesState s) (activeImageId s) (classes s) (activeClass s)
        (isPredicting s) (canvasWidth s) (canvasHeight s)
        (imageThumbnailList s) (classListContainer s) v (pendingFetches s)
        (pendingMasks s) (console s).

Definition setPendingFetches (v : list nat) : App :=
  mkApp (imagesState s) (activeImageId s) (classes s) (activeClass s)
        (isPredicting s) (canvasWidth s) (canvasHeight s)
        (imageThumbnailList s) (classListContainer s)
        (masksListContainer s) v (pendingMasks s) (console s).

Definition setPendingMasks (v : list (nat * Img.t)) : App :=
  mkApp (imagesState s) (activeImageId s) (classes s) (activeClass s)
        (isPredicting s) (canvasWidth s) (canvasHeight s)
        (imageThumbnailList s) (classListContainer s)
        (masksListContainer s) (pendingFetches s) v (console s).

Definition consoleError (msg : string) : App :=
  mkApp (imagesState s) (activeImageId s) (classes s) (activeClass s)
        (isPredicting s) (canvasWidth s) (canvasHeight s)
        (imageThumbnailList s) (classListContainer s)
        (masksListContainer s) (pendingFetches s) (pendingMasks s)
        (console s ++ [msg]).
End Setters.

(** Field assignments on one entry. *)
Definition withPoints (v : list Point.t) (st : ImageState) : ImageState :=
  mkImageState (imageElement st) (imageDataUrl st) v (currentMask st)
               (savedMasks st) (highlightedMaskIndex st).

Definition withCurrentMask (v : option Img.t) (st : ImageState) : ImageState :=
  mkImageState (imageElement st) (imageDataUrl st) (points st) v
               (savedMasks st) (highlightedMaskIndex st).

Definition withSavedMasks (v : list SavedMask) (st : ImageState) : ImageState :=
  mkImageState (imageElement st) (imageDataUrl st) (points st)
               (currentMask st) v (highlightedMaskIndex st).

Definition withHighlightedMaskIndex (v : option nat) (st : ImageState)
  : ImageState :=
  mkImageState (imageElement st) (imageDataUrl st) (points st)
               (currentMask st) (savedMasks st) v.

(** [imagesState[i]] is mutated in place: every holder of the object sees
    the new fields. *)
Definition writeEntry (i : nat) (st : ImageState) (s : App) : App :=
  setImagesState s (<[ i := st ]> (imagesState s)).

(** [activeImageId !== null ? imagesState[activeImageId] : null]; an index
    past the end reads [undefined], which the callers treat like [null]. *)
Definition getActiveImageState (s : App) : option ImageState :=
  match activeImageId s with
  | Some i => imagesState s !! i
  | None => None
  end.

Definition findClassByName (name : string) (s : App) : option ClassInfo.t :=
  List.find (fun c => String.eqb (ClassInfo.name c) name) (classes s).

(** [activeClass] where the script tests it for truthiness: [null] and the
    empty string are falsy, any other string is the active class name. *)
Definition truthy (v : option string) : option string :=
  match v with
  | Some n => if String.eqb n "" then None else Some n
  | None => None
  end.

(** ** Rendering: what the page holds after each render function *)

Definition renderThumbnails (s : App) : App :=
  setImageThumbnailList s (seq 0 (length (imagesState s))).

Definition renderClassesUI (s : App) : App :=
  setClassListContainer s (ClassInfo.name <$> classes s).

Definition renderMasksListUI (s : App) : App :=
  setMasksListContainer s
    match getActiveImageState s with
    | Some st => seq 0 (length (savedMasks st))
    | None => []
    end.

(** [redrawCanvas] and [updateButtonsState] only paint and enable buttons;
    they change nothing the handlers read back. *)
Definition updateAllUI (s : App) : App :=
  let s1 :=
    match getActiveImageState s with
    | Some st =>
        setCanvasSize s (Img.width (imageElement st))
                        (Img.height (imageElement st))
    | None => s
    end in
  renderMasksListUI (renderClassesUI (renderThumbnails s1)).

Definition setActiveImage (imageId : nat) (s : App) : App :=
  updateAllUI (setActiveImageId s (Some imageId)).

Definition setActiveClass (name : string) (s : App) : App :=
  renderClassesUI (setActiveClassVar s (Some name)).

(** ** The pointer position of the [mousedown] handler *)

Module MouseEvent.
Record t := mk { clientX : Q; clientY : Q; button : Z }.
End MouseEvent.

Module DOMRect.
Record t := mk { left : Q; top : Q; width : Q; height : Q }.
End DOMRect.

(** *** Doubles

    A finite double is the rational it denotes.  [roundToDouble q] is the
    double nearest to [q], halves to the even mantissa, with gradual
    underflow: the spacing of doubles around [q] is [2^(e - 52)] for
    [2^e <= |q| < 2^(e + 1)], and [2^(-1074)] below [2^(-1022)].  Overflow
    is not modelled: a result of magnitude [2^1024] or more, an infinity and
    [NaN] (a [rect] of width or height 0) are outside what the theorems
    below cover. *)

(** 2 to the power [k], for any integer [k]. *)
Definition pow2 (k : Z) : Q := (2 ^ k)%Q.

(** The integer [e] with [2^e <= |q| < 2^(e + 1)], for [q] other than 0. *)
Definition ilog2 (q : Q) : Z :=
  let e := Z.log2 (Z.abs (Qnum q)) - Z.log2 (Z.pos (Qden q)) in
  if Qle_bool (pow2 e) (Qabs q) then e else e - 1.

(** The nearest integer, halves to the even one. *)
Definition roundHalfEven (q : Q) : Z :=
  let f := Qfloor q in
  match Qcompare (q - inject_Z f) (1 # 2) with
  | Lt => f
  | Gt => f + 1
  | Eq => if Z.even f then f else f + 1
  end.

(** The exponent of the spacing of doubles around [q]. *)
Definition quantum (q : Q) : Z := Z.max (ilog2 q - 52) (-1074).

Definition roundToDouble (q : Q) : Q :=
  if Qeq_bool q 0 then 0%Q
  else
    Qred (inject_Z (roundHalfEven (q / pow2 (quantum q))) * pow2 (quantum q)).

(** The finite doubles: a mantissa below [2^53] in magnitude and an
    exponent of at least [-1074]. *)
Definition isDouble (y : Q) : Prop :=
  exists m j, Z.abs m < 2 ^ 53 /\ -1074 <= j /\ (y == inject_Z m * pow2 j)%Q.

(** The operators [-], [*] and [/] on doubles. *)
Definition js_sub (a b : Q) : Q := roundToDouble (a - b).
Definition js_mul (a b : Q) : Q := roundToDouble (a * b).
Definition js_div (a b : Q) : Q := roundToDouble (a / b).

(** [Math.round]: the nearest integer, halves towards plus infinity. *)
Definition Math_round (q : Q) : Z := Qfloor (q + (1 # 2)).

(** The point pushed by the [mousedown] handler for a canvas of
    [canvasW] x [canvasH] pixels laid out in [rect].  [canvas.width] and
    [canvas.height] are integers below [2^32], which are doubles; the
    pointer position and the layout box are doubles as the browser gives
    them. *)
Definition mousedownPoint (e : MouseEvent.t) (rect : DOMRect.t)
    (canvasW canvasH : Z) : Point.t :=
  let scaleX := js_div (inject_Z canvasW) (DOMRect.width rect) in
  let scaleY := js_div (inject_Z canvasH) (DOMRect.height rect) in
  let x := js_mul (js_sub (MouseEvent.clientX e) (DOMRect.left rect)) scaleX in
  let y := js_mul (js_sub (MouseEvent.clientY e) (DOMRect.top rect)) scaleY in
  let label := if MouseEvent.button e =? 0 then 1 else 0 in
  Point.mk (Math_round x) (Math_round y) label.

(** ** Handlers *)

(** What the browser hands back to a suspended [generateMask]: a rejected
    [fetch], a response that is not [ok] or whose body is not JSON, or the
    decoded [data.mask]. *)
Inductive FetchResult :=
| FetchFailed
| FetchOk (mask : Img.t).

(** How a handler ends. *)
Inductive JsError := TypeError.

Inductive Outcome :=
| Returned (s : App)
| Threw (err : JsError) (s : App).

Definition stateOf (o : Outcome) : App :=
  match o with
  | Returned s => s
  | Threw _ s => s
  end.

(** [generateMask] up to its [await]. *)
Definition generateMask (s : App) : App :=
  match activeImageId s, getActiveImageState s with
  | Some i, Some st =>
      if (length (points st) =? 0)%nat then s
      else setPendingFetches (setIsPredicting s true) (pendingFetches s ++ [i])
  | _, _ => s
  end.

(** [generateMask] from its [await] on, for the [k]-th suspended call. *)
Definition generateMaskResume (k : nat) (r : FetchResult) (s : App) : App :=
  match pendingFetches s !! k with
  | None => s
  | Some i =>
      let s0 := setPendingFetches s (delete k (pendingFetches s)) in
      let failed := consoleError s0 "Mask request failed:" in
      let s1 :=
        match r with
        | FetchFailed => failed
        | FetchOk mask =>
            match truthy (activeClass s0) with
            | Some name =>
                match findClassByName name s0 with
                | Some c =>
                    setPendingMasks s0
                      (pendingMasks s0
                         ++ [(i, createColoredMask mask (ClassInfo.color c))])
                | None => failed
                end
            | None =>
                setPendingMasks s0
                  (pendingMasks s0 ++ [(i, createColoredMask mask "#FF0000")])
            end
        end in
      setIsPredicting s1 false
  end.

(** The [then] callback of the [k]-th unresolved [createColoredMask]. *)
Definition coloredMaskResolved (k : nat) (s : App) : App :=
  match pendingMasks s !! k with
  | None => s
  | Some (i, coloredMask) =>
      let s0 := setPendingMasks s (delete k (pendingMasks s)) in
      match imagesState s0 !! i with
      | Some st =>
          updateAllUI (writeEntry i (withCurrentMask (Some coloredMask) st) s0)
      | None => s0
      end
  end.

Definition canvasMouseDown (e : MouseEvent.t) (rect : DOMRect.t) (s : App)
  : App :=
  match activeImageId s, getActiveImageState s with
  | Some i, Some st =>
      if isPredicting s then s
      else
        let p := mousedownPoint e rect (canvasWidth s) (canvasHeight s) in
        generateMask (writeEntry i (withPoints (points st ++ [p]) st) s)
  | _, _ => s
  end.

Definition saveMaskClick (s : App) : Outcome :=
  match activeImageId s, getActiveImageState s with
  | Some i, Some st =>
      match currentMask st with
      | Some mask =>
          match truthy (activeClass s) with
          | Some name =>
              match findClassByName name s with
              | Some classInfo =>
                  let saved :=
                    mkSavedMask mask mask (ClassInfo.name classInfo)
                                (ClassInfo.color classInfo) in
                  let st1 := withSavedMasks (savedMasks st ++ [saved]) st in
                  let st2 := withPoints [] (withCurrentMask None st1) in
                  Returned (updateAllUI (writeEntry i st2 s))
              | None => Threw TypeError s
              end
          | None => Returned s
          end
      | None => Returned s
      end
  | _, _ => Returned s
  end.

Definition clearPointsClick (s : App) : App :=
  match activeImageId s, getActiveImageState s with
  | Some i, Some st =>
      if (0 <? length (points st))%nat || bool_decide (is_Some (currentMask st))
      then updateAllUI (writeEntry i (withCurrentMask None (withPoints [] st)) s)
      else s
  | _, _ => s
  end.

(** [name] is the trimmed text of the input; the [alert] of the second
    branch changes nothing. *)
Definition addClassClick (name color : string) (s : App) : App :=
  if negb (String.eqb name "")
     && negb (bool_decide (is_Some (findClassByName name s)))
  then
    let s1 := setClasses s (classes s ++ [ClassInfo.mk name color]) in
    setActiveClass name (renderClassesUI s1)
  else s.

(** A click inside the masks list; [li] is the [dataset.maskIndex] of the
    [li] under the pointer, if there is one. *)
Definition masksListClick (li : option nat) (s : App) : App :=
  match li with
  | None => s
  | Some maskIndex =>
      match activeImageId s, getActiveImageState s with
      | Some i, Some st =>
          let h :=
            if bool_decide (highlightedMaskIndex st = Some maskIndex)
            then None else Some maskIndex in
          renderMasksListUI (writeEntry i (withHighlightedMaskIndex h st) s)
      | _, _ => s
      end
  end.

(** [img.onload] of the loader: one more entry. *)
Definition imageLoaded (img : Img.t) (dataUrl : string) (s : App) : App :=
  setImagesState s
    (imagesState s ++ [mkImageState img dataUrl [] None [] None]).

(** The [then] of the loader's [Promise.all]. *)
Definition imagesAllLoaded (s : App) : App :=
  if bool_decide (activeImageId s = None)
     && (0 <? length (imagesState s))%nat
  then setActiveImage 0 s
  else renderThumbnails s.

(** ** The event loop *)

(** Everything that can run a piece of the script.  A click on a rendered
    element is given by the position [k] of that element in its list; a
    position past the end is a click that hits no such element.  The [rect]
    of a mousedown is the layout box of the canvas at that moment; a canvas
    that a pointer can hit has a box of positive width and height.

    [step] runs the handler of an event whether or not the page would
    dispatch it: the stores it reaches include every store the page can be
    in, which is what an invariant needs.  Which clicks a button lets
    through is the matter of [pageStep] below. *)
Inductive Event :=
| ImageLoaded (img : Img.t) (dataUrl : string)
| ImagesAllLoaded
| ThumbnailClick (k : nat)
| CanvasMouseDown (e : MouseEvent.t) (rect : DOMRect.t)
| SaveMaskClick
| ClearPointsClick
| AddClassClick (name color : string)
| ClassClick (k : nat)
| MasksListClick (k : nat)
| FetchSettled (k : nat) (r : FetchResult)
| ColoredMaskResolved (k : nat)
| LanguageApplied.

Definition step (ev : Event) (s : App) : App :=
  match ev with
  | ImageLoaded img dataUrl => imageLoaded img dataUrl s
  | ImagesAllLoaded => imagesAllLoaded s
  | ThumbnailClick k =>
      match imageThumbnailList s !! k with
      | Some index => setActiveImage index s
      | None => s
      end
  | CanvasMouseDown e rect => canvasMouseDown e rect s
  | SaveMaskClick => stateOf (saveMaskClick s)
  | ClearPointsClick => clearPointsClick s
  | AddClassClick name color => addClassClick name color s
  | ClassClick k =>
      match classListContainer s !! k with
      | Some name => setActiveClass name s
      | None => s
      end
  | MasksListClick k => masksListClick (masksListContainer s !! k) s
  | FetchSettled k r => generateMaskResume k r s
  | ColoredMaskResolved k => coloredMaskResolved k s
  | LanguageApplied => updateAllUI s
  end.

Definition run (evs : list Event) (s : App) : App :=
  fold_left (fun s ev => step ev s) evs s.

Definition reachable (s : App) : Prop :=
  exists evs, s = run evs initialApp.

(** ** Predicates on buffers *)

(** The pixel that starts at cell [j] of [out] is (r, g, b, 128). *)
Definition pixelWritten (r g b : JsNum) (out : list Z) (j : nat) : Prop :=
  out !! j = Some (toUint8Clamped r)
  /\ out !! (j + 1)%nat = Some (toUint8Clamped g)
  /\ out !! (j + 2)%nat = Some (toUint8Clamped b)
  /\ out !! (j + 3)%nat = Some 128.

(** The pixel that starts at cell [j] is the same in [out] as in [data]. *)
Definition pixelKept (data out : list Z) (j : nat) : Prop :=
  out !! j = data !! j
  /\ out !! (j + 1)%nat = data !! (j + 1)%nat
  /\ out !! (j + 2)%nat = data !! (j + 2)%nat
  /\ out !! (j + 3)%nat = data !! (j + 3)%nat.

(** The string a color input holds for the color (r, g, b): a hash sign and
    two lower-case hexadecimal digits per channel. *)
Definition hexChar (d : Z) : Ascii.ascii :=
  Ascii.ascii_of_N (Z.to_N (if d <? 10 then 48 + d else 87 + d)).

Definition hexByte (v : Z) : string :=
  String (hexChar (v / 16)) (String (hexChar (v mod 16)) EmptyString).

Definition colorInputValue (r g b : Z) : string :=
  String "#"%char (hexByte r ++ hexByte g ++ hexByte b)%string.

(** ** Invariants of the store *)

(** What holds of the script's variables and of the suspended
    continuations. *)
Record Core (s : App) : Prop := mkCore {
  core_active : forall i,
    activeImageId s = Some i -> (i < length (imagesState s))%nat;
  core_names : forall c, c ∈ classes s -> ClassInfo.name c <> "";
  core_activeClass : forall n,
    activeClass s = Some n -> is_Some (findClassByName n s);
  core_highlight : forall i st h,
    imagesState s !! i = Some st -> highlightedMaskIndex st = Some h ->
    (h < length (savedMasks st))%nat;
  core_fetches :
    if isPredicting s then exists i, pendingFetches s = [i]
    else pendingFetches s = [];
  core_fetchTarget :
    Forall (fun i => (i < length (imagesState s))%nat) (pendingFetches s);
  core_maskTarget :
    Forall (fun p => (p.1 < length (imagesState s))%nat) (pendingMasks s)
}.

(** What holds of the rendered lists. *)
Record Dom (s : App) : Prop := mkDom {
  dom_thumbs : forall k i,
    imageThumbnailList s !! k = Some i -> (i < length (imagesState s))%nat;
  dom_classes : forall k n,
    classListContainer s !! k = Some n -> is_Some (findClassByName n s);
  dom_masks : forall k m,
    masksListContainer s !! k = Some m ->
    exists st, getActiveImageState s = Some st
               /\ (m < length (savedMasks st))%nat
}.

Definition Inv (s : App) : Prop := Core s /\ Dom s.

(** [Core] and [Dom] only look at some of the fields. *)
Definition sameVars (s s' : App) : Prop :=
  imagesState s' = imagesState s /\ activeImageId s' = activeImageId s
  /\ classes s' = classes s /\ activeClass s' = activeClass s
  /\ isPredicting s' = isPredicting s
  /\ pendingFetches s' = pendingFetches s
  /\ pendingMasks s' = pendingMasks s.

Definition samePage (s s' : App) : Prop :=
  imagesState s' = imagesState s /\ activeImageId s' = activeImageId s
  /\ classes s' = classes s
  /\ imageThumbnailList s' = imageThumbnailList s
  /\ classListContainer s' = classListContainer s
  /\ masksListContainer s' = masksListContainer s.

(** ** A sample session *)

Definition photo : Img.t := Img.mk 2 1 [10; 20; 30; 255; 40; 50; 60; 255].
Definition photoRect : DOMRect.t := DOMRect.mk 0 0 2 1.
Definition oracleMask : Img.t := Img.mk 2 1 [0; 0; 0; 255; 0; 0; 0; 0].
Definition redMask : Img.t := Img.mk 2 1 [255; 0; 0; 128; 0; 0; 0; 0].
Definition leftClick (x y : Q) : Event :=
  CanvasMouseDown (MouseEvent.mk x y 0) photoRect.
Definition opened : list Event :=
  [ImageLoaded photo "data:photo"; ImagesAllLoaded].
Definition entryOf (s : App) (i : nat) : option ImageState :=
  imagesState s !! i.

Definition twoSaved : list Event :=
  opened ++ [AddClassClick "cat" "#00ff00";
             leftClick 0 0; FetchSettled 0 (FetchOk oracleMask);
             ColoredMaskResolved 0; SaveMaskClick;
             leftClick 1 0; FetchSettled 0 (FetchOk oracleMask);
             ColoredMaskResolved 0; SaveMaskClick].

(** The highlight after a click on the [li] of index [maskIndex]. *)
Definition toggled (h : option nat) (maskIndex : nat) : option nat :=
  if bool_decide (h = Some maskIndex) then None else Some maskIndex.

(** ** Further definitions *)

(** The value [createColoredMask] stores in cell [c] of a pixel it paints. *)
Definition paintedCell (r g b : JsNum) (c : nat) : Z :=
  match c with
  | O => toUint8Clamped r
  | S O => toUint8Clamped g
  | S (S O) => toUint8Clamped b
  | _ => 128
  end.

Definition isByte (v : Z) : Prop := 0 <= v <= 255.

(** How one event can change one entry. *)
Inductive EntryChange (s : App) (i : nat) (st : ImageState)
  : Event -> ImageState -> Prop :=
| EntryKept ev : EntryChange s i st ev st
| EntryPointAdded e rect :
    activeImageId s = Some i -> isPredicting s = false ->
    EntryChange s i st (CanvasMouseDown e rect)
      (withPoints
         (points st
            ++ [mousedownPoint e rect (canvasWidth s) (canvasHeight s)]) st)
| EntryMaskSaved mask name classInfo :
    activeImageId s = Some i -> currentMask st = Some mask ->
    activeClass s = Some name -> findClassByName name s = Some classInfo ->
    EntryChange s i st SaveMaskClick
      (mkImageState (imageElement st) (imageDataUrl st) [] None
         (savedMasks st
            ++ [mkSavedMask mask mask (ClassInfo.name classInfo)
                            (ClassInfo.color classInfo)])
         (highlightedMaskIndex st))
| EntryCleared :
    activeImageId s = Some i ->
    EntryChange s i st ClearPointsClick
      (withCurrentMask None (withPoints [] st))
| EntryHighlighted k maskIndex :
    activeImageId s = Some i -> masksListContainer s !! k = Some maskIndex ->
    EntryChange s i st (MasksListClick k)
      (withHighlightedMaskIndex
         (toggled (highlightedMaskIndex st) maskIndex) st)
| EntryMaskDelivered k coloredMask :
    pendingMasks s !! k = Some (i, coloredMask) ->
    EntryChange s i st (ColoredMaskResolved k)
      (withCurrentMask (Some coloredMask) st).

Definition uniqueNames (s : App) : Prop :=
  NoDup (ClassInfo.name <$> classes s).

Definition binaryLabels (st : ImageState) : Prop :=
  Forall (fun p => Point.label p = 0 \/ Point.label p = 1) (points st).


(** ** The export request *)

Module Payload.
Record Mask := mkMask {
  maskImage : Img.t;
  className : string;
  classColor : string
}.
Record Image := mkImage { imageDataUrl : string; savedMasks : list Mask }.
Record t := mk {
  imagesState : list Image;
  classes : list ClassInfo.t
}.
End Payload.

(** The body the click handler of the export button posts to [/export];
    [None] when it alerts and returns because no image is loaded. *)
Definition exportPayload (s : App) : option Payload.t :=
  if (length (imagesState s) =? 0)%nat then None
  else
    Some (Payload.mk
            ((fun st =>
                Payload.mkImage (imageDataUrl st)
                  ((fun m => Payload.mkMask (maskImageSrc m) (className m)
                                           (classColor m))
                     <$> savedMasks st))
               <$> imagesState s)
            (classes s)).

(** ** The buttons *)

Record Buttons := mkButtons {
  clearPointsDisabled : bool;
  saveMaskDisabled : bool;
  exportDisabled : bool
}.

(** The [disabled] flags [updateButtonsState] assigns; [None] when it throws
    on reading [state.points] of an [undefined] entry. *)
Definition updateButtonsState (s : App) : option Buttons :=
  let noImages := (length (imagesState s) =? 0)%nat in
  match activeImageId s with
  | None => Some (mkButtons true true noImages)
  | Some i =>
      match imagesState s !! i with
      | None => None
      | Some state =>
          let hasCurrentWork :=
            (0 <? length (points state))%nat
            || bool_decide (is_Some (currentMask state)) in
          let canSave :=
            bool_decide (is_Some (currentMask state))
            && bool_decide (is_Some (truthy (activeClass s))) in
          Some (mkButtons (negb hasCurrentWork) (negb canSave) noImages)
      end
  end.

(** ** The page: the store and the flags of its buttons *)

(** [updateButtonsState] is the only code that assigns a [disabled] flag.
    It is the last call of [updateAllUI] and of [setActiveClass] and is
    called nowhere else, so the flags are those of the last handler that
    reached one of the two; a disabled button dispatches no [click]. *)
Record Page := mkPage { store : App; buttons : Buttons }.

(** Whether the handler run for [ev] in the store [s] reaches
    [updateAllUI] or [setActiveClass]. *)
Definition reachesUpdateButtonsState (ev : Event) (s : App) : bool :=
  match ev with
  | ImageLoaded _ _ => false
  | ImagesAllLoaded =>
      bool_decide (activeImageId s = None)
      && (0 <? length (imagesState s))%nat
  | ThumbnailClick k => bool_decide (is_Some (imageThumbnailList s !! k))
  | CanvasMouseDown _ _ => false
  | SaveMaskClick =>
      match activeImageId s, getActiveImageState s with
      | Some _, Some st =>
          bool_decide (is_Some (currentMask st))
          && match truthy (activeClass s) with
             | Some name => bool_decide (is_Some (findClassByName name s))
             | None => false
             end
      | _, _ => false
      end
  | ClearPointsClick =>
      match activeImageId s, getActiveImageState s with
      | Some _, Some st =>
          (0 <? length (points st))%nat
          || bool_decide (is_Some (currentMask st))
      | _, _ => false
      end
  | AddClassClick name _ =>
      negb (String.eqb name "")
      && negb (bool_decide (is_Some (findClassByName name s)))
  | ClassClick k => bool_decide (is_Some (classListContainer s !! k))
  | MasksListClick _ => false
  | FetchSettled _ _ => false
  | ColoredMaskResolved k =>
      match pendingMasks s !! k with
      | Some (i, _) => bool_decide (is_Some (imagesState s !! i))
      | None => false
      end
  | LanguageApplied => true
  end.

(** Whether the element [ev] is a click on lets the click through. *)
Definition dispatched (ev : Event) (b : Buttons) : bool :=
  match ev with
  | SaveMaskClick => negb (saveMaskDisabled b)
  | ClearPointsClick => negb (clearPointsDisabled b)
  | _ => true
  end.

(** The flags stay as they are when [updateButtonsState] throws: it reads
    [state.points] before its first assignment. *)
Definition pageStep (ev : Event) (p : Page) : Page :=
  if dispatched ev (buttons p) then
    let s' := step ev (store p) in
    mkPage s'
      (if reachesUpdateButtonsState ev (store p)
       then default (buttons p) (updateButtonsState s')
       else buttons p)
  else p.

Definition pageRun (evs : list Event) (p : Page) : Page :=
  fold_left (fun p ev => pageStep ev p) evs p.

(** The page as the markup gives it: the empty store and the flags
    [initialButtons] of the three buttons. *)
Definition initialPage (initialButtons : Buttons) : Page :=
  mkPage initialApp initialButtons.

Definition pageReachable (initialButtons : Buttons) (p : Page) : Prop :=
  exists evs, p = pageRun evs (initialPage initialButtons).

(** All three buttons disabled. *)
Definition allDisabled : Buttons := mkButtons true true true.

(** What an enabled button tells about the store: the save button is
    enabled only while the active entry has a pending mask and a class is
    active, the clear button only while the active entry has points or a
    pending mask. *)
Definition buttonsSound (p : Page) : Prop :=
  (saveMaskDisabled (buttons p) = false ->
   exists st mask name,
     getActiveImageState (store p) = Some st
     /\ currentMask st = Some mask
     /\ truthy (activeClass (store p)) = Some name)
  /\ (clearPointsDisabled (buttons p) = false ->
      exists st,
        getActiveImageState (store p) = Some st
        /\ (0 <? length (points st))%nat
           || bool_decide (is_Some (currentMask st)) = true).

(** The clicks that add or select a class. *)
Definition isClassEvent (ev : Event) : bool :=
  match ev with
  | AddClassClick _ _ | ClassClick _ => true
  | _ => false
  end.

(** ** The canvas *)

Definition canvasFitsActiveImage (s : App) : Prop :=
  forall st, getActiveImageState s = Some st ->
    canvasWidth s = Img.width (imageElement st)
    /\ canvasHeight s = Img.height (imageElement st).

(** ** Drawing *)

Inductive DrawOp :=
| ClearRect (w h : Z)
| DrawImage (img : Img.t) (globalAlpha : Q)
| FillCircle (x y radius : Z) (fillStyle : string).

Record Drawing := mkDrawing {
  canvasShown : bool;
  drawOps : list DrawOp;
  globalAlphaAfter : Q
}.

(** [redrawCanvas] for a context whose [globalAlpha] is [globalAlpha] on
    entry: whether the canvas is shown, what is drawn on it, in order, and
    the [globalAlpha] left behind.  A marker is the filled circle of radius 5
    that [arc] and [fill] paint. *)
Definition redrawCanvas (s : App) (globalAlpha : Q) : Drawing :=
  match getActiveImageState s with
  | None => mkDrawing false [] globalAlpha
  | Some state =>
      mkDrawing true
        ([ClearRect (canvasWidth s) (canvasHeight s);
          DrawImage (imageElement state) globalAlpha]
           ++ imap (fun index maskData =>
                      DrawImage (maskImageObject maskData)
                        (if bool_decide (highlightedMaskIndex state = Some index)
                         then 9 # 10 else 1 # 2))
                   (savedMasks state)
           ++ match currentMask state with
              | Some mask => [DrawImage mask 1]
              | None => []
              end
           ++ ((fun p =>
                  FillCircle (Point.x p) (Point.y p) 5
                    (if Point.label p =? 1 then "green" else "red"))
                 <$> points state))
        1
  end.

(** ** More sample sessions *)

Definition twoPhotos : list Event :=
  [ImageLoaded photo "data:a"; ImageLoaded photo "data:b"; ImagesAllLoaded].

Definition freshEntry (url : string) : ImageState :=
  mkImageState photo url [] None [] None.

Definition greenMask : Img.t := Img.mk 2 1 [0; 255; 0; 128; 0; 0; 0; 0].

Definition maskReady : list Event :=
  opened ++ [leftClick 0 0; FetchSettled 0 (FetchOk oracleMask);
             ColoredMaskResolved 0; AddClassClick "cat" "#00ff00"].

(** ** The React front end *)

Module Vite.

Record UploadedFile := mkFile { fileName : string; preview : string }.

Record Annotation := mkAnnotation {
  id : Z;
  maskData : string;
  className : string
}.

(** The state hooks of [App], the [newClassName] hook of [Controls], and
    the number of [handlePredict] calls suspended at their [await]. *)
Record State := mkState {
  uploadedFiles : list UploadedFile;
  selectedImage : option UploadedFile;
  classes : list string;
  activeClass : string;
  annotations : list Annotation;
  proposedMasks : list string;
  points : list Point.t;
  error : string;
  newClassName : string;
  pendingPredicts : nat
}.

Definition initial : State :=
  mkState [] None ["car"; "person"; "road"] "car" [] [] [] "" "" 0.

Definition handleFileChange (files : list UploadedFile) (s : State) : State :=
  mkState files None (classes s) (activeClass s) [] [] [] ""
          (newClassName s) (pendingPredicts s).

Definition handleImageSelect (image : UploadedFile) (s : State) : State :=
  mkState (uploadedFiles s) (Some image) (classes s) (activeClass s) [] [] []
          (error s) (newClassName s) (pendingPredicts s).

Definition addAnnotation (mask : string) (now : Z) (s : State) : State :=
  mkState (uploadedFiles s) (selectedImage s) (classes s) (activeClass s)
          (annotations s ++ [mkAnnotation now mask (activeClass s)]) [] []
          (error s) (newClassName s) (pendingPredicts s).

Definition setPoints (v : list Point.t) (s : State) : State :=
  mkState (uploadedFiles s) (selectedImage s) (classes s) (activeClass s)
          (annotations s) (proposedMasks s) v (error s) (newClassName s)
          (pendingPredicts s).

(** [handlePredict] up to its [await]. *)
Definition handlePredict (s : State) : State :=
  match selectedImage s with
  | None => s
  | Some _ =>
      if (length (points s) =? 0)%nat then s
      else mkState (uploadedFiles s) (selectedImage s) (classes s)
                   (activeClass s) (annotations s) (proposedMasks s)
                   (points s) "" (newClassName s) (S (pendingPredicts s))
  end.

Definition predictErrorMessage : string :=
  "Ошибка предсказания. Проверьте консоль бэкенда.".

(** [handlePredict] from its [await] on: the masks of the response, or
    [None] when the request failed. *)
Definition handlePredictResume (r : option (list string)) (s : State) : State :=
  match pendingPredicts s with
  | O => s
  | S n =>
      match r with
      | Some masks =>
          mkState (uploadedFiles s) (selectedImage s) (classes s)
                  (activeClass s) (annotations s) masks (points s) (error s)
                  (newClassName s) n
      | None =>
          mkState (uploadedFiles s) (selectedImage s) (classes s)
                  (activeClass s) (annotations s) (proposedMasks s) (points s)
                  predictErrorMessage (newClassName s) n
      end
  end.

Definition setNewClassName (v : string) (s : State) : State :=
  mkState (uploadedFiles s) (selectedImage s) (classes s) (activeClass s)
          (annotations s) (proposedMasks s) (points s) (error s) v
          (pendingPredicts s).

Definition handleAddClass (s : State) : State :=
  if negb (String.eqb (newClassName s) "")
     && negb (bool_decide (newClassName s ∈ classes s))
  then mkState (uploadedFiles s) (selectedImage s)
               (classes s ++ [newClassName s]) (activeClass s)
               (annotations s) (proposedMasks s) (points s) (error s) ""
               (pendingPredicts s)
  else s.

Definition setActiveClass (v : string) (s : State) : State :=
  mkState (uploadedFiles s) (selectedImage s) (classes s) v
          (annotations s) (proposedMasks s) (points s) (error s)
          (newClassName s) (pendingPredicts s).

(** [handleStageClick] and [handleContextMenu] for the pointer position the
    stage reports. *)
Definition handleStageClick (x y : Q) (s : State) : State :=
  setPoints (points s ++ [Point.mk (Math_round x) (Math_round y) 1]) s.

Definition handleContextMenu (x y : Q) (s : State) : State :=
  setPoints (points s ++ [Point.mk (Math_round x) (Math_round y) 0]) s.

(** A click on a proposed mask runs [onMaskSelect], which is
    [addAnnotation], and then bubbles to the stage, whose [handleStageClick]
    is a closure of the same render: its [setPoints], computed from the
    points of before the click, is the last update of the batch and
    overrides the [setPoints([])] of [addAnnotation]. *)
Definition proposedMaskClick (mask : string) (now : Z) (x y : Q) (s : State)
  : State :=
  setPoints (points s ++ [Point.mk (Math_round x) (Math_round y) 1])
            (addAnnotation mask now s).

(** The gallery, the stage with its proposed masks, and the controls; the
    stage is rendered only while an image is selected. *)
Inductive Event :=
| FileChange (files : list UploadedFile)
| GalleryClick (k : nat)
| StageClick (x y : Q)
| StageContextMenu (x y : Q)
| ProposedMaskClick (k : nat) (now : Z) (x y : Q)
| PredictClick
| PredictSettled (r : option (list string))
| ClearClick
| NewClassNameChange (text : string)
| AddClassClick
| ClassSelect (k : nat).

Definition step (ev : Event) (s : State) : State :=
  match ev with
  | FileChange files => handleFileChange files s
  | GalleryClick k =>
      match uploadedFiles s !! k with
      | Some image => handleImageSelect image s
      | None => s
      end
  | StageClick x y =>
      match selectedImage s with
      | Some _ => handleStageClick x y s
      | None => s
      end
  | StageContextMenu x y =>
      match selectedImage s with
      | Some _ => handleContextMenu x y s
      | None => s
      end
  | ProposedMaskClick k now x y =>
      match selectedImage s, proposedMasks s !! k with
      | Some _, Some mask => proposedMaskClick mask now x y s
      | _, _ => s
      end
  | PredictClick => handlePredict s
  | PredictSettled r => handlePredictResume r s
  | ClearClick => setPoints [] s
  | NewClassNameChange text => setNewClassName text s
  | AddClassClick => handleAddClass s
  | ClassSelect k =>
      match classes s !! k with
      | Some c => setActiveClass c s
      | None => s
      end
  end.

Definition run (evs : list Event) (s : State) : State :=
  fold_left (fun s ev => step ev s) evs s.

(** What every state of the hooks satisfies. *)
Record Consistent (s : State) : Prop := mkConsistent {
  inv_classes : NoDup (classes s);
  inv_activeClass : activeClass s ∈ classes s;
  inv_annotations : Forall (fun a => className a ∈ classes s) (annotations s);
  inv_selected : annotations s <> [] -> is_Some (selectedImage s);
  inv_labels :
    Forall (fun p => Point.label p = 0 \/ Point.label p = 1) (points s)
}.

End Vite.

(** ** The page and the store *)

(** The rendered lists show what the store holds; the thumbnails may lack
    the images pushed since they were last rendered. *)
Record pageInSync (s : App) : Prop := mkPageInSync {
  sync_classes : classListContainer s = ClassInfo.name <$> classes s;
  sync_masks :
    masksListContainer s
    = match getActiveImageState s with
      | Some st => seq 0 (length (savedMasks st))
      | None => []
      end;
  sync_thumbs :
    exists n, (n <= length (imagesState s))%nat
              /\ imageThumbnailList s = seq 0 n
}.

(** * Properties *)

(** ** The pixel loop *)

Section RecolorLoop.
Variables r g b : JsNum.

Lemma recolorLoop_length fuel i data :
  length (recolorLoop fuel i r g b data) = length data.
Proof.
  revert i data. induction fuel as [|fuel IH]; intros i data; simpl; [done|].
  destruct (i <? length data)%nat; [|done].
  rewrite IH. destruct (positiveAt data (i + 3)); [|done].
  by rewrite !length_insert.
Qed.

(** A turn started at [i] writes no cell below [i]. *)
Lemma recolorLoop_below fuel i data j :
  (j < i)%nat -> recolorLoop fuel i r g b data !! j = data !! j.
Proof.
  revert i data. induction fuel as [|fuel IH]; intros i data Hj; simpl; [done|].
  destruct (i <? length data)%nat; [|done].
  rewrite IH by lia. destruct (positiveAt data (i + 3)); [|done].
  rewrite !list_lookup_insert_ne by lia. done.
Qed.

(** The pixel [m] turns after [i] is written or kept according to its own
    source alpha. *)
Lemma recolorLoop_pixel fuel : forall i data m,
  (m < fuel)%nat ->
  (i + 4 * m + 3 < length data)%nat ->
  let out := recolorLoop fuel i r g b data in
  if positiveAt data (i + 4 * m + 3)
  then pixelWritten r g b out (i + 4 * m)
  else pixelKept data out (i + 4 * m).
Proof.
  induction fuel as [|fuel IH]; intros i data m Hm Hlen out; [lia|].
  subst out. cbn [recolorLoop].
  destruct (Nat.ltb_spec i (length data)) as [_|?]; [|lia].
  destruct m as [|m].
  - replace (i + 4 * 0)%nat with i by lia.
    destruct (positiveAt data (i + 3)) eqn:Hpos.
    + unfold pixelWritten. rewrite !recolorLoop_below by lia.
      change (toUint8Clamped (Some 128)) with 128.
      repeat split.
      * rewrite !list_lookup_insert_ne by lia.
        apply list_lookup_insert_eq. lia.
      * rewrite !list_lookup_insert_ne by lia.
        apply list_lookup_insert_eq. rewrite length_insert. lia.
      * rewrite !list_lookup_insert_ne by lia.
        apply list_lookup_insert_eq. rewrite !length_insert. lia.
      * apply list_lookup_insert_eq. rewrite !length_insert. lia.
    + unfold pixelKept. rewrite !recolorLoop_below by lia. done.
  - replace (i + 4 * S m)%nat with (i + 4 + 4 * m)%nat by lia.
    set (data' := if positiveAt data (i + 3) then _ else data).
    assert (Hsame : forall j, (i + 4 <= j)%nat -> data' !! j = data !! j).
    { intros j Hj. subst data'. destruct (positiveAt data (i + 3)); [|done].
      rewrite !list_lookup_insert_ne by lia. done. }
    assert (Hlen' : length data' = length data).
    { subst data'. destruct (positiveAt data (i + 3)); [|done].
      by rewrite !length_insert. }
    specialize (IH (i + 4)%nat data' m).
    assert (Hpos : positiveAt data' (i + 4 + 4 * m + 3)
                   = positiveAt data (i + 4 + 4 * m + 3)).
    { unfold positiveAt. rewrite Hsame by lia. done. }
    rewrite Hpos in IH.
    destruct (positiveAt data (i + 4 + 4 * m + 3)).
    + apply IH; lia.
    + unfold pixelKept in *. rewrite <- !Hsame by lia. apply IH; lia.
Qed.
End RecolorLoop.

Lemma toUint8Clamped_byte z : 0 <= z <= 255 -> toUint8Clamped (Some z) = z.
Proof. unfold toUint8Clamped. lia. Qed.

(** Every byte is read back from its two hexadecimal digits. *)
Lemma parseInt16_hexByte v : 0 <= v <= 255 -> parseInt16 (hexByte v) = Some v.
Proof.
  intros Hv.
  assert (Hall : forallb (fun w => bool_decide (parseInt16 (hexByte w) = Some w))
                         (seqZ 0 256) = true) by (vm_compute; reflexivity).
  rewrite forallb_forall in Hall.
  apply (bool_decide_eq_true_1 _), Hall, list_elem_of_In, elem_of_seqZ. lia.
Qed.

(** So every color (r, g, b) of bytes has a string that [createColoredMask]
    reads as (r, g, b): the one a color input holds for it. *)
Lemma colorInputValue_parses r g b :
  0 <= r <= 255 -> 0 <= g <= 255 -> 0 <= b <= 255 ->
  parseInt16 (slice (colorInputValue r g b) 1 3) = Some r
  /\ parseInt16 (slice (colorInputValue r g b) 3 5) = Some g
  /\ parseInt16 (slice (colorInputValue r g b) 5 7) = Some b.
Proof.
  intros Hr Hg Hb.
  change (slice (colorInputValue r g b) 1 3) with (hexByte r).
  change (slice (colorInputValue r g b) 3 5) with (hexByte g).
  change (slice (colorInputValue r g b) 5 7) with (hexByte b).
  auto using parseInt16_hexByte.
Qed.

(** C5. For every mask buffer and every color whose channels are bytes,
    [createColoredMask] keeps the size of the buffer, turns every pixel whose
    source alpha is positive into (r, g, b, 128) whatever that alpha was, and
    leaves every pixel whose source alpha is 0 with alpha 0, that is fully
    transparent. *)
Theorem createColoredMask_pixels (maskImage : Img.t) (hexColor : string)
    (r g b : Z) (k : nat) (a : Z) :
  parseInt16 (slice hexColor 1 3) = Some r ->
  parseInt16 (slice hexColor 3 5) = Some g ->
  parseInt16 (slice hexColor 5 7) = Some b ->
  0 <= r <= 255 -> 0 <= g <= 255 -> 0 <= b <= 255 ->
  Img.data maskImage !! (4 * k + 3)%nat = Some a ->
  let out := Img.data (createColoredMask maskImage hexColor) in
  length out = length (Img.data maskImage)
  /\ (0 < a ->
      out !! (4 * k)%nat = Some r /\ out !! (4 * k + 1)%nat = Some g
      /\ out !! (4 * k + 2)%nat = Some b /\ out !! (4 * k + 3)%nat = Some 128)
  /\ (a = 0 -> out !! (4 * k + 3)%nat = Some 0).
Proof.
  intros Hr Hg Hb Br Bg Bb Ha out. subst out.
  unfold createColoredMask. cbn [Img.data]. rewrite Hr, Hg, Hb.
  unfold recolorPixels. split; [apply recolorLoop_length|].
  pose proof (lookup_lt_Some _ _ _ Ha) as Hlt.
  pose proof (recolorLoop_pixel (Some r) (Some g) (Some b)
                (length (Img.data maskImage)) 0 (Img.data maskImage) k
                ltac:(lia) ltac:(lia)) as Hpx.
  cbv zeta in Hpx. rewrite !Nat.add_0_l in Hpx.
  unfold positiveAt in Hpx. rewrite Ha in Hpx. split.
  - intros Hpos. destruct (Z.ltb_spec 0 a) as [_|?]; [|lia].
    destruct Hpx as (H0 & H1 & H2 & H3).
    rewrite !toUint8Clamped_byte in * by lia. done.
  - intros ->. change (0 <? 0) with false in Hpx.
    destruct Hpx as (_ & _ & _ & H3). rewrite H3. done.
Qed.

Lemma createColoredMask_pixels_witness :
  let out := Img.data (createColoredMask
                         (Img.mk 2 1 [0; 0; 0; 255; 9; 9; 9; 0]) "#00ff7f") in
  length out = 8%nat
  /\ (0 < 255 ->
      out !! 0%nat = Some 0 /\ out !! 1%nat = Some 255
      /\ out !! 2%nat = Some 127 /\ out !! 3%nat = Some 128)
  /\ (255 = 0 -> out !! 3%nat = Some 0).
Proof.
  exact (createColoredMask_pixels
           (Img.mk 2 1 [0; 0; 0; 255; 9; 9; 9; 0]) "#00ff7f" 0 255 127 0 255
           eq_refl eq_refl eq_refl
           ltac:(lia) ltac:(lia) ltac:(lia) eq_refl).
Defined.

(** ** The pointer position *)

(** *** Powers of 2 *)

Lemma pow2_pos k : (0 < pow2 k)%Q.
Proof. apply Qpower_0_lt. reflexivity. Qed.

Lemma pow2_add a b : (pow2 (a + b) == pow2 a * pow2 b)%Q.
Proof. apply Qpower_plus. discriminate. Qed.

Lemma pow2_le a b : a <= b -> (pow2 a <= pow2 b)%Q.
Proof. intros H. apply Qpower_le_compat_l; [done|]. discriminate. Qed.

Lemma pow2_lt_inv a b : (pow2 a < pow2 b)%Q -> a < b.
Proof. intros H. apply (Qpower_lt_compat_l_inv 2); [done|reflexivity]. Qed.

Lemma pow2_nonneg k : 0 <= k -> (pow2 k == inject_Z (2 ^ k))%Q.
Proof. intros H. unfold pow2. by rewrite Zpower_Qpower. Qed.

Lemma pow2_half k : (pow2 (k - 1) == pow2 k * (1 # 2))%Q.
Proof. unfold Z.sub. rewrite pow2_add. reflexivity. Qed.

(** *** [ilog2] *)
Lemma ilog2_spec q :
  ~ (q == 0)%Q -> (pow2 (ilog2 q) <= Qabs q < pow2 (ilog2 q + 1))%Q.
Proof.
  intros Hq. unfold ilog2.
  set (n := Z.abs (Qnum q)). set (d := Z.pos (Qden q)).
  set (a := Z.log2 n). set (b := Z.log2 d).
  assert (Hn : 0 < n).
  { subst n. destruct q as [qn qd]. unfold Qeq in Hq. simpl in *. lia. }
  assert (Hd : 0 < d) by (subst d; lia).
  destruct (Z.log2_spec n Hn) as [Ha1 Ha2].
  destruct (Z.log2_spec d Hd) as [Hb1 Hb2].
  fold a in Ha1, Ha2. fold b in Hb1, Hb2.
  assert (Ha0 : 0 <= a) by apply Z.log2_nonneg.
  assert (Hb0 : 0 <= b) by apply Z.log2_nonneg.
  assert (Eq : (Qabs q == inject_Z n / inject_Z d)%Q).
  { destruct q as [qn qd]. subst n d. simpl. apply Qmake_Qdiv. }
  assert (Hdq : (0 < inject_Z d)%Q).
  { replace 0%Q with (inject_Z 0) by done. rewrite <- Zlt_Qlt. done. }
  assert (Hnq1 : (pow2 a <= inject_Z n)%Q).
  { rewrite pow2_nonneg by done. by rewrite <- Zle_Qle. }
  assert (Hnq2 : (inject_Z n < pow2 (a + 1))%Q).
  { rewrite pow2_nonneg by lia. by rewrite <- Zlt_Qlt. }
  assert (Hdq1 : (pow2 b <= inject_Z d)%Q).
  { rewrite pow2_nonneg by done. by rewrite <- Zle_Qle. }
  assert (Hdq2 : (inject_Z d < pow2 (b + 1))%Q).
  { rewrite pow2_nonneg by lia. by rewrite <- Zlt_Qlt. }
  (* the quotient lies strictly between 2^(a-b-1) and 2^(a-b+1) *)
  assert (Lo : (pow2 (a - b - 1) < Qabs q)%Q).
  { rewrite Eq. apply Qlt_shift_div_l; [done|].
    assert (E : (pow2 a == pow2 (a - b - 1) * pow2 (b + 1))%Q).
    { rewrite <- pow2_add. by replace (a - b - 1 + (b + 1)) with a by lia. }
    pose proof (pow2_pos (a - b - 1)). 
    apply Qlt_le_trans with (pow2 a); [|done].
    rewrite E. apply Qmult_lt_l; done. }
  assert (Hi : (pow2 (a - b + 1) * inject_Z d >= pow2 (a + 1))%Q).
  { assert (E : (pow2 (a + 1) == pow2 (a - b + 1) * pow2 b)%Q).
    { rewrite <- pow2_add. by replace (a - b + 1 + b) with (a + 1) by lia. }
    rewrite E. apply Qmult_le_l; [apply pow2_pos|done]. }
  assert (Hi' : (Qabs q < pow2 (a - b + 1))%Q).
  { rewrite Eq. apply Qlt_shift_div_r; [done|].
    eapply Qlt_le_trans; [exact Hnq2|exact Hi]. }
  destruct (Qle_bool (pow2 (a - b)) (Qabs q)) eqn:Hc.
  - apply Qle_bool_iff in Hc. split; done.
  - assert (Hlt : (Qabs q < pow2 (a - b))%Q).
    { apply Qnot_le_lt. intros Hle. apply Qle_bool_iff in Hle. congruence. }
    split; [by apply Qlt_le_weak|].
    by replace (a - b - 1 + 1) with (a - b) by lia.
Qed.

Lemma ilog2_unique q e :
  (pow2 e <= Qabs q < pow2 (e + 1))%Q -> ilog2 q = e.
Proof.
  intros [H1 H2].
  assert (Hq : ~ (q == 0)%Q).
  { intros E. rewrite E in H1. pose proof (pow2_pos e).
    change (Qabs 0) with 0%Q in H1. 
    apply (Qlt_irrefl 0). eapply Qlt_le_trans; done. }
  destruct (ilog2_spec q Hq) as [H3 H4].
  assert (e < ilog2 q + 1).
  { apply pow2_lt_inv. eapply Qle_lt_trans; done. }
  assert (ilog2 q < e + 1).
  { apply pow2_lt_inv. eapply Qle_lt_trans; done. }
  lia.
Qed.


(** *** [roundHalfEven] *)
Lemma roundHalfEven_cases t :
  roundHalfEven t = Qfloor t /\ (t - inject_Z (Qfloor t) <= 1 # 2)%Q
  \/ roundHalfEven t = Qfloor t + 1 /\ (1 # 2 <= t - inject_Z (Qfloor t))%Q.
Proof.
  unfold roundHalfEven.
  destruct (Qcompare_spec (t - inject_Z (Qfloor t)) (1 # 2)) as [E|E|E].
  - destruct (Z.even (Qfloor t)); [left|right]; split; try done; rewrite E;
      apply Qle_refl.
  - left. split; [done|by apply Qlt_le_weak].
  - right. split; [done|by apply Qlt_le_weak].
Qed.

Lemma roundHalfEven_near t :
  (t - (1 # 2) <= inject_Z (roundHalfEven t) <= t + (1 # 2))%Q.
Proof.
  pose proof (Qfloor_le t) as H1. pose proof (Qlt_floor t) as H2.
  rewrite inject_Z_plus in H2. change (inject_Z 1) with 1%Q in H2.
  destruct (roundHalfEven_cases t) as [[-> H]|[-> H]].
  - split; lra.
  - rewrite inject_Z_plus. change (inject_Z 1) with 1%Q. split; lra.
Qed.

Lemma roundHalfEven_le t n : (t <= inject_Z n)%Q -> roundHalfEven t <= n.
Proof.
  intros H. pose proof (Qfloor_le t) as H1.
  assert (Hf : Qfloor t <= n).
  { rewrite <- (Qfloor_Z n). by apply Qfloor_resp_le. }
  destruct (roundHalfEven_cases t) as [[-> _]|[-> H2]]; [done|].
  destruct (Z.eq_dec (Qfloor t) n) as [E|E]; [|lia].
  rewrite E in H2. exfalso. lra.
Qed.

Lemma roundHalfEven_ge t n : (inject_Z n <= t)%Q -> n <= roundHalfEven t.
Proof.
  intros H.
  assert (Hf : n <= Qfloor t).
  { rewrite <- (Qfloor_Z n). by apply Qfloor_resp_le. }
  destruct (roundHalfEven_cases t) as [[-> _]|[-> _]]; lia.
Qed.

Lemma roundHalfEven_Z t n : (t == inject_Z n)%Q -> roundHalfEven t = n.
Proof.
  intros E. apply Z.le_antisymm.
  - apply roundHalfEven_le. rewrite E. apply Qle_refl.
  - apply roundHalfEven_ge. rewrite E. apply Qle_refl.
Qed.

#[global] Instance roundHalfEven_proper : Proper (Qeq ==> eq) roundHalfEven.
Proof.
  intros p q E. unfold roundHalfEven.
  rewrite (Qfloor_comp _ _ E).
  assert (C : (p - inject_Z (Qfloor q) ?= 1 # 2)%Q
            = (q - inject_Z (Qfloor q) ?= 1 # 2)%Q) by (by rewrite E).
  by rewrite C.
Qed.

(** *** [roundToDouble] *)
Lemma roundToDouble_zero q : (q == 0)%Q -> roundToDouble q = 0%Q.
Proof. intros E. unfold roundToDouble. by rewrite (Qeq_eq_bool _ _ E). Qed.

Lemma roundToDouble_nonzero q :
  ~ (q == 0)%Q ->
  (roundToDouble q
   == inject_Z (roundHalfEven (q / pow2 (quantum q))) * pow2 (quantum q))%Q.
Proof.
  intros Hq. unfold roundToDouble.
  destruct (Qeq_bool q 0) eqn:E.
  - by apply Qeq_bool_eq in E.
  - apply Qred_correct.
Qed.

#[global] Instance roundToDouble_proper : Proper (Qeq ==> Qeq) roundToDouble.
Proof.
  intros p q E.
  destruct (Qeq_dec q 0) as [Hq|Hq].
  - rewrite (roundToDouble_zero q Hq).
    rewrite (roundToDouble_zero p); [reflexivity|by rewrite E].
  - assert (Hp : ~ (p == 0)%Q) by (by rewrite E).
    rewrite (roundToDouble_nonzero p Hp), (roundToDouble_nonzero q Hq).
    assert (El : ilog2 p = ilog2 q).
    { apply ilog2_unique. rewrite E. by apply ilog2_spec. }
    unfold quantum. rewrite El. by rewrite E.
Qed.

Lemma roundToDouble_nonneg q : (0 <= q)%Q -> (0 <= roundToDouble q)%Q.
Proof.
  intros H. destruct (Qeq_dec q 0) as [Hq|Hq].
  - rewrite (roundToDouble_zero q Hq). apply Qle_refl.
  - rewrite (roundToDouble_nonzero q Hq).
    pose proof (pow2_pos (quantum q)) as Hp.
    apply Qmult_le_0_compat; [|by apply Qlt_le_weak].
    change 0%Q with (inject_Z 0). rewrite <- Zle_Qle.
    apply roundHalfEven_ge. change (inject_Z 0) with 0%Q.
    apply Qle_shift_div_l; [done|]. by rewrite Qmult_0_l.
Qed.

(** The error of one rounding: half a unit in the last place. *)
Lemma roundToDouble_error q :
  ~ (q == 0)%Q ->
  (q - pow2 (quantum q - 1) <= roundToDouble q <= q + pow2 (quantum q - 1))%Q.
Proof.
  intros Hq. rewrite (roundToDouble_nonzero q Hq), pow2_half.
  pose proof (pow2_pos (quantum q)) as Hp.
  pose proof (roundHalfEven_near (q / pow2 (quantum q))) as [H1 H2].
  set (n := inject_Z (roundHalfEven (q / pow2 (quantum q)))) in *.
  set (P := pow2 (quantum q)) in *.
  assert (E : (q == q / P * P)%Q) by (field; lra).
  assert (E1 : (q - P * (1 # 2) == (q / P - (1 # 2)) * P)%Q) by (field; lra).
  assert (E2 : (q + P * (1 # 2) == (q / P + (1 # 2)) * P)%Q) by (field; lra).
  rewrite E1, E2.
  split; (apply Qmult_le_compat_r; [done|lra]).
Qed.

Lemma roundToDouble_bounds q :
  (0 <= q)%Q ->
  (q * (1 - pow2 (-53)) - pow2 (-1075) <= roundToDouble q
   <= q * (1 + pow2 (-53)) + pow2 (-1075))%Q.
Proof.
  intros H0.
  pose proof (pow2_pos (-53)) as Hu. pose proof (pow2_pos (-1075)) as He.
  destruct (Qeq_dec q 0) as [Hq|Hq].
  - rewrite (roundToDouble_zero q Hq), Hq. split; lra.
  - pose proof (roundToDouble_error q Hq) as [H1 H2].
    destruct (ilog2_spec q Hq) as [H3 _]. rewrite Qabs_pos in H3 by done.
    assert (Hk : (pow2 (quantum q - 1) <= q * pow2 (-53) + pow2 (-1075))%Q).
    { unfold quantum. destruct (Z.max_spec (ilog2 q - 52) (-1074)) as [[_ ->]|[_ ->]].
      - change (-1074 - 1) with (-1075).
        assert (0 <= q * pow2 (-53))%Q by (apply Qmult_le_0_compat; lra). lra.
      - replace (ilog2 q - 52 - 1) with (ilog2 q + -53) by lia.
        rewrite pow2_add.
        assert (pow2 (ilog2 q) * pow2 (-53) <= q * pow2 (-53))%Q
          by (apply Qmult_le_compat_r; lra).
        lra. }
    split; lra.
Qed.

Lemma roundToDouble_exact q m j :
  (q == inject_Z m * pow2 j)%Q -> Z.abs m < 2 ^ 53 -> -1074 <= j ->
  (roundToDouble q == q)%Q.
Proof.
  intros E Hm Hj.
  destruct (Qeq_dec q 0) as [Hq|Hq].
  - rewrite (roundToDouble_zero q Hq). by rewrite Hq.
  - rewrite (roundToDouble_nonzero q Hq).
    destruct (ilog2_spec q Hq) as [H3 _].
    pose proof (pow2_pos j) as Hpj.
    assert (Hk : quantum q <= j).
    { unfold quantum. apply Z.max_lub; [|done].
      assert (ilog2 q < 53 + j); [|lia].
      apply pow2_lt_inv. eapply Qle_lt_trans; [exact H3|].
      rewrite E, Qabs_Qmult, (Qabs_pos (pow2 j)) by lra.
      rewrite pow2_add. apply Qmult_lt_compat_r; [done|].
      rewrite pow2_nonneg by done.
      change (Qabs (inject_Z m)) with (inject_Z (Z.abs m)).
      by rewrite <- Zlt_Qlt. }
    set (k := quantum q) in *.
    pose proof (pow2_pos k) as Hpk.
    assert (Ej : (pow2 j == inject_Z (2 ^ (j - k)) * pow2 k)%Q).
    { rewrite <- pow2_nonneg by lia. rewrite <- pow2_add.
      by replace (j - k + k) with j by lia. }
    assert (Et : (q / pow2 k == inject_Z (m * 2 ^ (j - k)))%Q).
    { rewrite E, Ej, inject_Z_mult. field. lra. }
    rewrite (roundHalfEven_Z _ _ Et), E, Ej, inject_Z_mult. ring.
Qed.

(** *** [roundToDouble] gives a nearest double *)

Lemma Qabs_sub_cases (a b : Q) :
  (Qabs (a - b) == a - b /\ 0 <= a - b)%Q
  \/ (Qabs (a - b) == b - a /\ a - b <= 0)%Q.
Proof.
  destruct (Qlt_le_dec (a - b) 0) as [H|H].
  - right. split; [|lra]. rewrite Qabs_neg by lra. ring.
  - left. split; [|done]. by rewrite Qabs_pos.
Qed.

Lemma inject_Z_le_lt (a b : Z) : a < b -> (inject_Z a + 1 <= inject_Z b)%Q.
Proof.
  intros H. change 1%Q with (inject_Z 1). rewrite <- inject_Z_plus.
  rewrite <- Zle_Qle. lia.
Qed.

(** No integer is nearer to [t] than [roundHalfEven t]. *)
Lemma roundHalfEven_nearest t N :
  (Qabs (inject_Z (roundHalfEven t) - t) <= Qabs (inject_Z N - t))%Q.
Proof.
  pose proof (Qfloor_le t) as H1. pose proof (Qlt_floor t) as H2.
  rewrite inject_Z_plus in H2. change (inject_Z 1) with 1%Q in H2.
  set (f := Qfloor t) in *.
  assert (HN : (inject_Z N <= inject_Z f \/ inject_Z f + 1 <= inject_Z N)%Q).
  { destruct (Z_le_gt_dec N f) as [H|H].
    - left. by rewrite <- Zle_Qle.
    - right. apply inject_Z_le_lt. lia. }
  destruct (roundHalfEven_cases t) as [[-> H]|[-> H]]; fold f in H |- *;
    rewrite ?inject_Z_plus; change (inject_Z 1) with 1%Q;
    destruct (Qabs_sub_cases (inject_Z N) t) as [[-> ?]|[-> ?]];
    match goal with
    | |- (Qabs (?a - ?b) <= _)%Q =>
        destruct (Qabs_sub_cases a b) as [[-> ?]|[-> ?]]
    end; destruct HN; lra.
Qed.

Lemma quantum_cases q :
  (quantum q = ilog2 q - 52 /\ -1074 <= quantum q)
  \/ (quantum q = -1074 /\ ilog2 q - 52 <= -1074).
Proof. unfold quantum. lia. Qed.

Lemma pow2_split a b : (pow2 a == pow2 (a - b) * pow2 b)%Q.
Proof. rewrite <- pow2_add. by replace (a - b + b) with a by lia. Qed.

(** The scaled value [q / 2^quantum] is below [2^53] in magnitude. *)
Lemma scaled_below q :
  ~ (q == 0)%Q -> (Qabs (q / pow2 (quantum q)) < inject_Z (2 ^ 53))%Q.
Proof.
  intros Hq. destruct (ilog2_spec q Hq) as [_ Hlt].
  pose proof (pow2_pos (quantum q)) as Hp.
  assert (E : (Qabs (q / pow2 (quantum q)) == Qabs q / pow2 (quantum q))%Q).
  { unfold Qdiv. rewrite Qabs_Qmult. rewrite (Qabs_pos (/ _)); [done|].
    apply Qlt_le_weak, Qinv_lt_0_compat. done. }
  rewrite E. apply Qlt_shift_div_r; [done|].
  eapply Qlt_le_trans; [exact Hlt|].
  rewrite <- pow2_nonneg by lia. rewrite <- pow2_add.
  apply pow2_le. destruct (quantum_cases q); lia.
Qed.

Lemma roundToDouble_isDouble q : isDouble (roundToDouble q).
Proof.
  destruct (Qeq_dec q 0) as [Hq|Hq].
  - rewrite (roundToDouble_zero q Hq). exists 0, 0. split; [lia|]. split; [lia|].
    by vm_compute.
  - pose proof (scaled_below q Hq) as Hlt.
    apply Qabs_Qlt_condition in Hlt as [Hlo Hhi].
    set (t := (q / pow2 (quantum q))%Q) in *.
    assert (Hn1 : roundHalfEven t <= 2 ^ 53).
    { apply roundHalfEven_le. by apply Qlt_le_weak. }
    assert (Hn2 : - 2 ^ 53 <= roundHalfEven t).
    { apply roundHalfEven_ge. rewrite inject_Z_opp. by apply Qlt_le_weak. }
    assert (Hk : -1074 <= quantum q) by (destruct (quantum_cases q); lia).
    destruct (Z.eq_dec (Z.abs (roundHalfEven t)) (2 ^ 53)) as [E|E].
    + exists (roundHalfEven t / 2), (quantum q + 1).
      split; [|split; [lia|]].
      * destruct (Z.abs_spec (roundHalfEven t)) as [[_ E']|[_ E']];
          rewrite E' in E.
        -- rewrite E. by vm_compute.
        -- replace (roundHalfEven t) with (- 2 ^ 53) by lia. by vm_compute.
      * rewrite (roundToDouble_nonzero q Hq). fold t.
        rewrite pow2_add.
        assert (E2 : (inject_Z (roundHalfEven t)
                      == inject_Z (roundHalfEven t / 2) * pow2 1)%Q).
        { destruct (Z.abs_spec (roundHalfEven t)) as [[_ E']|[_ E']];
            rewrite E' in E.
          - rewrite E. by vm_compute.
          - replace (roundHalfEven t) with (- 2 ^ 53) by lia. by vm_compute. }
        rewrite E2. ring.
    + exists (roundHalfEven t), (quantum q). split; [lia|]. split; [done|].
      by apply roundToDouble_nonzero.
Qed.

(** On the grid of spacing [2^quantum], nothing is nearer to [q] than
    [roundToDouble q]. *)
Lemma roundToDouble_grid_nearest q N :
  ~ (q == 0)%Q ->
  (Qabs (roundToDouble q - q)
   <= Qabs (inject_Z N * pow2 (quantum q) - q))%Q.
Proof.
  intros Hq. rewrite (roundToDouble_nonzero q Hq).
  pose proof (pow2_pos (quantum q)) as Hp.
  set (P := pow2 (quantum q)) in *. set (t := (q / P)%Q).
  assert (E : forall z, (inject_Z z * P - q == (inject_Z z - t) * P)%Q).
  { intros z. subst t. field. lra. }
  rewrite !E, !Qabs_Qmult, (Qabs_pos P) by lra.
  apply Qmult_le_compat_r; [|lra]. apply roundHalfEven_nearest.
Qed.

(** No double is nearer to [q] than [roundToDouble q]. *)
Lemma roundToDouble_nearest q y :
  isDouble y -> (Qabs (roundToDouble q - q) <= Qabs (y - q))%Q.
Proof.
  intros (m & j & Hm & Hj & Ey).
  destruct (Qeq_dec q 0) as [Hq|Hq].
  { rewrite (roundToDouble_zero q Hq), Hq.
    assert (E : (0 - 0 == 0)%Q) by ring. rewrite E. apply Qabs_nonneg. }
  destruct (Z_le_gt_dec (quantum q) j) as [Hjk|Hjk].
  { assert (E : (y == inject_Z (m * 2 ^ (j - quantum q)) * pow2 (quantum q))%Q).
    { rewrite Ey, inject_Z_mult, <- pow2_nonneg by lia.
      rewrite (pow2_split j (quantum q)). ring. }
    rewrite E. by apply roundToDouble_grid_nearest. }
  destruct (quantum_cases q) as [[Ek _]|[Ek _]]; [|lia].
  destruct (ilog2_spec q Hq) as [Hlo _].
  pose proof (pow2_pos j) as Hpj.
  (* [y] is below [2^ilog2 q] in magnitude *)
  assert (Hy : (Qabs y < pow2 (ilog2 q))%Q).
  { rewrite Ey, Qabs_Qmult, (Qabs_pos (pow2 j)) by lra.
    apply Qlt_le_trans with (pow2 53 * pow2 j)%Q.
    - apply Qmult_lt_compat_r; [done|]. rewrite pow2_nonneg by done.
      change (Qabs (inject_Z m)) with (inject_Z (Z.abs m)).
      by rewrite <- Zlt_Qlt.
    - rewrite <- pow2_add. apply pow2_le. lia. }
  assert (Eg : (pow2 (ilog2 q) == inject_Z (2 ^ 52) * pow2 (quantum q))%Q).
  { rewrite <- pow2_nonneg by lia. rewrite <- pow2_add.
    by replace (52 + quantum q) with (ilog2 q) by lia. }
  apply Qabs_Qlt_condition in Hy as [Hy1 Hy2].
  destruct (Qlt_le_dec q 0) as [Hneg|Hpos].
  - rewrite Qabs_neg in Hlo by lra.
    eapply Qle_trans; [apply (roundToDouble_grid_nearest q (- 2 ^ 52) Hq)|].
    rewrite inject_Z_opp.
    assert (E : (- inject_Z (2 ^ 52) * pow2 (quantum q) - q
                 == - pow2 (ilog2 q) - q)%Q) by (rewrite Eg; ring).
    rewrite E. rewrite Qabs_pos by lra.
    destruct (Qabs_sub_cases y q) as [[-> ?]|[-> ?]]; lra.
  - rewrite Qabs_pos in Hlo by lra.
    eapply Qle_trans; [apply (roundToDouble_grid_nearest q (2 ^ 52) Hq)|].
    rewrite <- Eg. rewrite Qabs_neg by lra.
    destruct (Qabs_sub_cases y q) as [[-> ?]|[-> ?]]; lra.
Qed.

(** *** The scaled pointer offset *)

Lemma scaled_accuracy (d w : Q) (W : Z) :
  (0 <= d)%Q -> (d <= w)%Q ->
  (pow2 (-250) <= w)%Q -> (w <= pow2 250)%Q ->
  0 <= W <= 2 ^ 32 ->
  let v := roundToDouble (roundToDouble d * roundToDouble (inject_Z W / w)) in
  (0 <= v)%Q
  /\ (d * (inject_Z W / w) - pow2 (-18) <= v)%Q
  /\ (v <= d * (inject_Z W / w) + pow2 (-18))%Q.
Proof.
  intros Hd Hdw Hw1 Hw2 [HW0 HW1] v.
  assert (Hw : (0 < w)%Q) by (unfold pow2 in Hw1; lra).
  assert (HWq : (0 <= inject_Z W)%Q).
  { change 0%Q with (inject_Z 0). by rewrite <- Zle_Qle. }
  assert (HWq1 : (inject_Z W <= pow2 32)%Q).
  { rewrite pow2_nonneg by done. by rewrite <- Zle_Qle. }
  set (S := (inject_Z W / w)%Q) in *.
  assert (HS : (0 <= S)%Q).
  { apply Qle_shift_div_l; [done|]. by rewrite Qmult_0_l. }
  assert (HSw : (S * w == inject_Z W)%Q) by (subst S; field; lra).
  assert (HS1 : (S <= pow2 282)%Q).
  { apply Qle_shift_div_r; [done|].
    apply Qle_trans with (pow2 282 * pow2 (-250))%Q.
    - unfold pow2 in *. lra.
    - apply Qmult_le_l; [unfold pow2; lra|done]. }
  set (X := (d * S)%Q).
  assert (HX : (0 <= X)%Q) by (by apply Qmult_le_0_compat).
  assert (HX1 : (X <= pow2 32)%Q).
  { apply Qle_trans with (w * S)%Q; [by apply Qmult_le_compat_r|].
    rewrite Qmult_comm, HSw. done. }
  assert (Hd1 : (d <= pow2 250)%Q) by lra.
  pose proof (roundToDouble_bounds d Hd) as [Hd2 Hd3].
  pose proof (roundToDouble_nonneg d Hd) as Hd0.
  pose proof (roundToDouble_bounds S HS) as [Hs2 Hs3].
  pose proof (roundToDouble_nonneg S HS) as Hs0.
  set (d' := roundToDouble d) in *. set (s := roundToDouble S) in *.
  assert (Hp : (0 <= d' * s)%Q) by (by apply Qmult_le_0_compat).
  pose proof (roundToDouble_bounds _ Hp) as [Hv2 Hv3].
  pose proof (roundToDouble_nonneg _ Hp) as Hv0.
  fold v in Hv2, Hv3, Hv0.
  set (u := pow2 (-53)) in *. set (n := pow2 (-1075)) in *.
  split; [done|]. split.
  - (* from below *)
    destruct (Qlt_le_dec (d * (1 - u) - n) 0) as [Ha|Ha].
    { assert (d <= 2 * n)%Q by (subst u n; unfold pow2 in *; lra).
      assert (X <= 2 * n * pow2 282)%Q.
      { apply Qmult_le_compat_nonneg; split; done. }
      subst u n; unfold pow2 in *; lra. }
    destruct (Qlt_le_dec (S * (1 - u) - n) 0) as [Hb|Hb].
    { assert (S <= 2 * n)%Q by (subst u n; unfold pow2 in *; lra).
      assert (X <= pow2 250 * (2 * n))%Q.
      { apply Qmult_le_compat_nonneg; split; done. }
      subst u n; unfold pow2 in *; lra. }
    assert (Hab : ((d * (1 - u) - n) * (S * (1 - u) - n) <= d' * s)%Q).
    { apply Qmult_le_compat_nonneg; split; done. }
    assert (E : ((d * (1 - u) - n) * (S * (1 - u) - n)
                 == X * (1 - u) ^ 2 - d * (n * (1 - u)) - S * (n * (1 - u))
                    + n ^ 2)%Q) by (subst X; ring).
    rewrite E in Hab. clear E.
    assert (Hq : ((X * (1 - u) ^ 2 - d * (n * (1 - u)) - S * (n * (1 - u))
                   + n ^ 2) * (1 - u) <= d' * s * (1 - u))%Q).
    { apply Qmult_le_compat_r; [done|]. subst u; unfold pow2; lra. }
    assert (E : ((X * (1 - u) ^ 2 - d * (n * (1 - u)) - S * (n * (1 - u))
                   + n ^ 2) * (1 - u)
                 == X * (1 - u) ^ 3 - d * (n * (1 - u) ^ 2)
                    - S * (n * (1 - u) ^ 2) + n ^ 2 * (1 - u))%Q) by ring.
    rewrite E in Hq. clear E.
    generalize dependent X. generalize dependent (d' * s)%Q.
    intros. subst u n. unfold pow2 in *. lra.
  - (* from above *)
    assert (Hab : (d' * s <= (d * (1 + u) + n) * (S * (1 + u) + n))%Q).
    { apply Qmult_le_compat_nonneg; split; done. }
    assert (E : ((d * (1 + u) + n) * (S * (1 + u) + n)
                 == X * (1 + u) ^ 2 + d * (n * (1 + u)) + S * (n * (1 + u))
                    + n ^ 2)%Q) by (subst X; ring).
    rewrite E in Hab. clear E.
    assert (Hq : (d' * s * (1 + u)
                  <= (X * (1 + u) ^ 2 + d * (n * (1 + u)) + S * (n * (1 + u))
                      + n ^ 2) * (1 + u))%Q).
    { apply Qmult_le_compat_r; [done|]. subst u; unfold pow2; lra. }
    assert (E : ((X * (1 + u) ^ 2 + d * (n * (1 + u)) + S * (n * (1 + u))
                   + n ^ 2) * (1 + u)
                 == X * (1 + u) ^ 3 + d * (n * (1 + u) ^ 2)
                    + S * (n * (1 + u) ^ 2) + n ^ 2 * (1 + u))%Q) by ring.
    rewrite E in Hq. clear E.
    generalize dependent X. generalize dependent (d' * s)%Q.
    intros. subst u n. unfold pow2 in *. lra.
Qed.

(** *** [Math.round] *)

Lemma Math_round_nearest q :
  (inject_Z (Math_round q) - (1 # 2) <= q)%Q
  /\ (q < inject_Z (Math_round q) + (1 # 2))%Q.
Proof.
  unfold Math_round. split.
  - pose proof (Qfloor_le (q + (1 # 2))) as H. lra.
  - pose proof (Qlt_floor (q + (1 # 2))) as H.
    rewrite inject_Z_plus in H. change (inject_Z 1) with 1%Q in H. lra.
Qed.

Lemma Math_round_mono p q : (p <= q)%Q -> Math_round p <= Math_round q.
Proof.
  intros H. unfold Math_round. apply Qfloor_resp_le.
  apply Qplus_le_l. exact H.
Qed.

Lemma Math_round_inject z : Math_round (inject_Z z) = z.
Proof.
  unfold Math_round.
  pose proof (Qfloor_le (inject_Z z + (1 # 2))) as H1.
  pose proof (Qlt_floor (inject_Z z + (1 # 2))) as H2.
  set (f := Qfloor (inject_Z z + (1 # 2))) in *.
  unfold Qle, Qlt, Qplus, inject_Z in *. simpl in *. lia.
Qed.

Lemma Math_round_below q z :
  (q < inject_Z z + (1 # 2))%Q -> Math_round q <= z.
Proof.
  intros H. destruct (Math_round_nearest q) as [H1 _].
  assert (Hlt : (inject_Z (Math_round q) < inject_Z (z + 1))%Q).
  { rewrite inject_Z_plus. change (inject_Z 1) with 1%Q. lra. }
  rewrite <- Zlt_Qlt in Hlt. lia.
Qed.

(** One coordinate of a pointer inside the displayed canvas: what the
    handler stores is the rounding of a value within [2^(-18)] of the exact
    product, and lies between 0 and the canvas size. *)
Lemma coordinate_accuracy (c o w : Q) (W : Z) :
  (0 <= c - o)%Q -> (c - o <= w)%Q ->
  (pow2 (-250) <= w)%Q -> (w <= pow2 250)%Q ->
  0 <= W <= 2 ^ 32 ->
  let x := Math_round (js_mul (js_sub c o) (js_div (inject_Z W) w)) in
  let exact := ((c - o) * (inject_Z W / w))%Q in
  (Math_round (exact - pow2 (-18)) <= x <= Math_round (exact + pow2 (-18)))
  /\ 0 <= x <= W.
Proof.
  intros Hd Hdw Hw1 Hw2 HW x exact. subst x. unfold js_mul, js_sub, js_div.
  destruct (scaled_accuracy (c - o) w W Hd Hdw Hw1 Hw2 HW) as (H0 & H1 & H2).
  fold exact in H1, H2.
  set (v := roundToDouble (_ * _)) in *.
  split; [split; by apply Math_round_mono|].
  split.
  - rewrite <- (Math_round_inject 0). by apply Math_round_mono.
  - apply Math_round_below.
    assert (Hw : (0 < w)%Q) by (unfold pow2 in Hw1; lra).
    assert (HWq : (0 <= inject_Z W)%Q).
    { change 0%Q with (inject_Z 0). rewrite <- Zle_Qle. lia. }
    assert (Hs : (0 <= inject_Z W / w)%Q).
    { apply Qle_shift_div_l; [done|]. by rewrite Qmult_0_l. }
    assert (He : (exact <= inject_Z W)%Q).
    { assert (E : (inject_Z W == w * (inject_Z W / w))%Q) by (field; lra).
      subst exact. rewrite E at 2. by apply Qmult_le_compat_r. }
    unfold pow2 in *. lra.
Qed.

(** C4, the claim as written fails: a 100 x 100 image shown at 400 x 400 and
    a click on the last displayed column and row, (399, 399), gives the
    point (100, 100), which is outside [0, 99] x [0, 99]. *)
Lemma mousedownPoint_not_clamped :
  let p := mousedownPoint (MouseEvent.mk 399 399 0) (DOMRect.mk 0 0 400 400)
                          100 100 in
  ~ (0 <= Point.x p <= 100 - 1 /\ 0 <= Point.y p <= 100 - 1).
Proof. vm_compute. intros [[_ H] _]. apply H. reflexivity. Qed.

(** C4, amended.  The [mousedown] handler stores [Math.round] of the
    product, computed in doubles, of the pointer offset and the quotient of
    canvas size over displayed size, with no clamping.  For a pointer inside
    the displayed canvas, a displayed size between [2^(-250)] and [2^250]
    and a canvas size up to [2^32], the stored coordinate lies between the
    roundings of the exact product minus and plus [2^(-18)], so that it is
    the rounding of the exact product unless that product is within
    [2^(-18)] of a half, and it lies in [0, imageWidth] (in
    [0, imageHeight] for y), both ends included.  The label is 1 for
    button 0 and 0 otherwise.  An 800 x 600 image shown at 400 x 300 maps a
    click at (100, 100) to (200, 200); a canvas 61 pixels wide shown 14
    wide maps the offset 7 to 30, although the exact product 30.5 rounds
    to 31. *)
Theorem mousedownPoint_spec (e : MouseEvent.t) (rect : DOMRect.t)
    (imageWidth imageHeight : Z) :
  let p := mousedownPoint e rect imageWidth imageHeight in
  let dx := (MouseEvent.clientX e - DOMRect.left rect)%Q in
  let dy := (MouseEvent.clientY e - DOMRect.top rect)%Q in
  let exactX := (dx * (inject_Z imageWidth / DOMRect.width rect))%Q in
  let exactY := (dy * (inject_Z imageHeight / DOMRect.height rect))%Q in
  ((0 <= dx)%Q -> (dx <= DOMRect.width rect)%Q ->
   (pow2 (-250) <= DOMRect.width rect)%Q ->
   (DOMRect.width rect <= pow2 250)%Q ->
   0 <= imageWidth <= 2 ^ 32 ->
   (Math_round (exactX - pow2 (-18)) <= Point.x p
    <= Math_round (exactX + pow2 (-18)))
   /\ 0 <= Point.x p <= imageWidth)
  /\ ((0 <= dy)%Q -> (dy <= DOMRect.height rect)%Q ->
      (pow2 (-250) <= DOMRect.height rect)%Q ->
      (DOMRect.height rect <= pow2 250)%Q ->
      0 <= imageHeight <= 2 ^ 32 ->
      (Math_round (exactY - pow2 (-18)) <= Point.y p
       <= Math_round (exactY + pow2 (-18)))
      /\ 0 <= Point.y p <= imageHeight)
  /\ Point.label p = (if MouseEvent.button e =? 0 then 1 else 0)
  /\ mousedownPoint (MouseEvent.mk 100 100 0) (DOMRect.mk 0 0 400 300) 800 600
     = Point.mk 200 200 1
  /\ (Point.x (mousedownPoint (MouseEvent.mk 7 0 0) (DOMRect.mk 0 0 14 14)
                              61 61) = 30
      /\ Math_round (7 * (61 / 14)) = 31).
Proof.
  intros p dx dy exactX exactY. subst p.
  unfold mousedownPoint. cbn [Point.x Point.y Point.label].
  split; [apply coordinate_accuracy|].
  split; [apply coordinate_accuracy|].
  split; [done|]. split; [by vm_compute|]. split; by vm_compute.
Qed.

Lemma mousedownPoint_spec_witness :
  let p := mousedownPoint (MouseEvent.mk 399 150 2)
                          (DOMRect.mk 0 0 400 300) 100 600 in
  (Math_round (399 * (100 / 400) - pow2 (-18)) <= Point.x p
   <= Math_round (399 * (100 / 400) + pow2 (-18)))
  /\ 0 <= Point.x p <= 100.
Proof.
  intros p.
  apply (mousedownPoint_spec (MouseEvent.mk 399 150 2)
                             (DOMRect.mk 0 0 400 300) 100 600).
  - vm_compute. discriminate.
  - vm_compute. discriminate.
  - vm_compute. discriminate.
  - vm_compute. discriminate.
  - lia.
Defined.

Lemma find_app_Some {A} (f : A -> bool) l l' x :
  List.find f l = Some x -> List.find f (l ++ l') = Some x.
Proof.
  induction l as [|a l IH]; simpl; [done|]. destruct (f a); auto.
Qed.

Lemma find_app_None {A} (f : A -> bool) l l' :
  List.find f l = None -> List.find f (l ++ l') = List.find f l'.
Proof.
  induction l as [|a l IH]; simpl; [done|]. destruct (f a); [done|auto].
Qed.

Lemma findClassByName_name n s c :
  findClassByName n s = Some c -> ClassInfo.name c = n /\ c ∈ classes s.
Proof.
  unfold findClassByName. intros H. apply List.find_some in H as [Hin He].
  apply String.eqb_eq in He. split; [done|]. by apply list_elem_of_In.
Qed.

Lemma findClassByName_of_name s c :
  c ∈ classes s -> is_Some (findClassByName (ClassInfo.name c) s).
Proof.
  intros Hin. unfold findClassByName.
  destruct (List.find _ (classes s)) eqn:E; [by eexists|].
  apply list_elem_of_In in Hin.
  pose proof (List.find_none _ _ E c Hin) as H. simpl in H.
  rewrite String.eqb_refl in H. discriminate.
Qed.

Lemma truthy_Some v n : truthy v = Some n <-> v = Some n /\ n <> "".
Proof.
  unfold truthy. destruct v as [m|]; [|split; [done|by intros [? _]]].
  destruct (String.eqb_spec m "") as [->|Hne].
  - split; [done|]. intros [[= <-] Hn]. done.
  - split; [intros [= <-]; done|]. intros [[= <-] _]. done.
Qed.

Lemma truthy_None v : truthy v = None <-> v = None \/ v = Some "".
Proof.
  unfold truthy. destruct v as [m|]; [|split; [by left|done]].
  destruct (String.eqb_spec m "") as [->|Hne].
  - split; [by right|done].
  - split; [done|]. intros [[=]|[= ->]]. done.
Qed.

Lemma Dom_updateAllUI s : Dom (updateAllUI s).
Proof.
  unfold updateAllUI.
  set (s1 := match getActiveImageState s with Some _ => _ | None => s end).
  assert (E1 : imagesState s1 = imagesState s
               /\ activeImageId s1 = activeImageId s
               /\ classes s1 = classes s).
  { subst s1. by destruct (getActiveImageState s). }
  destruct E1 as (Ei & Ea & Ec).
  split; cbn.
  - intros k i H. apply lookup_seq in H. lia.
  - intros k n H. apply list_lookup_fmap_Some in H as (c & -> & H).
    apply (findClassByName_of_name s1). apply list_elem_of_lookup. eauto.
  - intros k m H. unfold getActiveImageState in *. cbn in *.
    destruct (activeImageId s1) as [a|]; [|by rewrite lookup_nil in H].
    destruct (imagesState s1 !! a) as [st|]; [|by rewrite lookup_nil in H].
    exists st. split; [done|]. apply lookup_seq in H. lia.
Qed.

Lemma Core_ext s s' : sameVars s s' -> Core s -> Core s'.
Proof.
  destruct s, s'. unfold sameVars. cbn. intros (-> & -> & -> & -> & -> & -> & ->).
  intros [H1 H2 H3 H4 H5 H6 H7]. split; assumption.
Qed.

Lemma Dom_ext s s' : samePage s s' -> Dom s -> Dom s'.
Proof.
  destruct s, s'. unfold samePage. cbn. intros (-> & -> & -> & -> & -> & ->).
  intros [H1 H2 H3]. split; assumption.
Qed.

Lemma sameVars_updateAllUI s : sameVars s (updateAllUI s).
Proof.
  unfold updateAllUI. destruct (getActiveImageState s); repeat split.
Qed.

Lemma Inv_updateAllUI s : Core s -> Inv (updateAllUI s).
Proof.
  intros H. split; [|apply Dom_updateAllUI].
  eapply Core_ext; [apply sameVars_updateAllUI|done].
Qed.

Lemma getActiveImageState_lt s st :
  getActiveImageState s = Some st ->
  exists i, activeImageId s = Some i /\ imagesState s !! i = Some st.
Proof.
  unfold getActiveImageState. destruct (activeImageId s) as [i|]; [|done].
  eauto.
Qed.

(** Writing an entry whose highlight is in range keeps [Core]. *)
Lemma Core_writeEntry s i st st' :
  Core s -> imagesState s !! i = Some st ->
  (forall h, highlightedMaskIndex st' = Some h ->
             (h < length (savedMasks st'))%nat) ->
  Core (writeEntry i st' s).
Proof.
  intros [H1 H2 H3 H4 H5 H6 H7] Hi Hh.
  pose proof (lookup_lt_Some _ _ _ Hi) as Hlt.
  split; cbn; rewrite ?length_insert; try assumption.
  intros j st0 h Hj. destruct (decide (i = j)) as [->|Hne].
  - rewrite list_lookup_insert_eq in Hj by done. injection Hj as <-. apply Hh.
  - rewrite list_lookup_insert_ne in Hj by done. eauto.
Qed.

(** Writing an entry that has at least as many saved masks keeps [Dom]. *)
Lemma Dom_writeEntry s i st st' :
  Dom s -> imagesState s !! i = Some st ->
  (length (savedMasks st) <= length (savedMasks st'))%nat ->
  Dom (writeEntry i st' s).
Proof.
  intros [H1 H2 H3] Hi Hlen.
  pose proof (lookup_lt_Some _ _ _ Hi) as Hlt.
  split; cbn; rewrite ?length_insert; try assumption.
  intros k m Hk. destruct (H3 k m Hk) as (st0 & Ha & Hm).
  unfold getActiveImageState in *. cbn.
  destruct (activeImageId s) as [a|]; [|done].
  destruct (decide (i = a)) as [->|Hne].
  - rewrite list_lookup_insert_eq by done. exists st'. split; [done|].
    assert (st0 = st) as -> by congruence. lia.
  - rewrite list_lookup_insert_ne by done. eauto.
Qed.

Lemma Inv_imageLoaded img url s : Inv s -> Inv (imageLoaded img url s).
Proof.
  intros [[H1 H2 H3 H4 H5 H6 H7] [D1 D2 D3]].
  split; split; cbn; rewrite ?length_app; cbn; try assumption.
  - intros i Hi. apply H1 in Hi. lia.
  - intros i st h Hi Hh. apply lookup_app_Some in Hi as [Hi|[_ Hi]]; [eauto|].
    apply list_lookup_singleton_Some in Hi as [_ <-]. done.
  - eapply Forall_impl; [exact H6|]. cbn. lia.
  - eapply Forall_impl; [exact H7|]. cbn. lia.
  - intros k i Hk. apply D1 in Hk. lia.
  - intros k m Hk. destruct (D3 k m Hk) as (st & Ha & Hm). exists st.
    split; [|done]. unfold getActiveImageState in *. cbn.
    destruct (activeImageId s) as [a|]; [|done]. by apply lookup_app_l_Some.
Qed.

Lemma Inv_setActiveImage i s :
  Core s -> (i < length (imagesState s))%nat -> Inv (setActiveImage i s).
Proof.
  intros [H1 H2 H3 H4 H5 H6 H7] Hi. apply Inv_updateAllUI.
  split; cbn; try assumption. by intros ? [= <-].
Qed.

Lemma Inv_imagesAllLoaded s : Inv s -> Inv (imagesAllLoaded s).
Proof.
  intros [HC HD]. unfold imagesAllLoaded.
  destruct (_ && _) eqn:E.
  - apply andb_true_iff in E as [_ E]. apply Nat.ltb_lt in E.
    by apply Inv_setActiveImage.
  - split; [by eapply Core_ext; [|exact HC]; repeat split|].
    destruct HD as [D1 D2 D3]. split; cbn; try assumption.
    intros k i H. apply lookup_seq in H. lia.
Qed.

(** Every handler starts by fetching the active entry. *)
Ltac on_active_entry s i st Hi :=
  let Ea := fresh "Ea" in
  let Es := fresh "Es" in
  destruct (activeImageId s) as [i|] eqn:Ea; [|done];
  destruct (getActiveImageState s) as [st|] eqn:Es; [|done];
  assert (Hi : imagesState s !! i = Some st)
    by (unfold getActiveImageState in Es; by rewrite Ea in Es).

Lemma Inv_generateMask s :
  Inv s -> isPredicting s = false -> Inv (generateMask s).
Proof.
  intros [HC HD] Hp. unfold generateMask.
  destruct (activeImageId s) as [i|] eqn:Ea; [|done].
  destruct (getActiveImageState s) as [st|] eqn:Es; [|done].
  destruct (length (points st) =? 0)%nat; [done|].
  split; [|by eapply Dom_ext; [|exact HD]; repeat split].
  destruct HC as [H1 H2 H3 H4 H5 H6 H7]. rewrite Hp in H5.
  split; cbn; try assumption.
  - rewrite H5. by exists i.
  - rewrite H5. cbn. constructor; [by apply H1|constructor].
Qed.

Lemma Inv_canvasMouseDown e rect s : Inv s -> Inv (canvasMouseDown e rect s).
Proof.
  intros HI. unfold canvasMouseDown. on_active_entry s i st Hi.
  destruct (isPredicting s) eqn:Hp; [done|].
  destruct HI as [HC HD]. apply Inv_generateMask; [|done]. split.
  - eapply Core_writeEntry; [done..|]. cbn. intros h. by apply (core_highlight s HC i).
  - eapply Dom_writeEntry; [done..|]. cbn. lia.
Qed.

Lemma Inv_saveMaskClick s : Inv s -> Inv (stateOf (saveMaskClick s)).
Proof.
  intros HI. unfold saveMaskClick. on_active_entry s i st Hi.
  destruct (currentMask st) as [mask|]; [|done].
  destruct (truthy (activeClass s)) as [name|]; [|done].
  destruct (findClassByName name s) as [classInfo|]; [|done].
  destruct HI as [HC HD]. cbn [stateOf]. apply Inv_updateAllUI.
  eapply Core_writeEntry; [done..|]. cbn. intros h Hh.
  pose proof (core_highlight s HC i st h Hi Hh). rewrite length_app. lia.
Qed.

Lemma Inv_clearPointsClick s : Inv s -> Inv (clearPointsClick s).
Proof.
  intros HI. unfold clearPointsClick. on_active_entry s i st Hi.
  destruct (_ || _); [|done].
  destruct HI as [HC HD]. apply Inv_updateAllUI.
  eapply Core_writeEntry; [done..|]. cbn. intros h.
  by apply (core_highlight s HC i).
Qed.

Lemma Inv_setActiveClass n s :
  Inv s -> is_Some (findClassByName n s) -> Inv (setActiveClass n s).
Proof.
  intros [[H1 H2 H3 H4 H5 H6 H7] [D1 D2 D3]] Hn.
  split; split; cbn; try assumption.
  - by intros ? [= <-].
  - intros k m H. apply list_lookup_fmap_Some in H as (c & -> & H).
    apply (findClassByName_of_name s). apply list_elem_of_lookup. eauto.
Qed.

Lemma Inv_addClassClick name color s : Inv s -> Inv (addClassClick name color s).
Proof.
  intros HI. unfold addClassClick.
  destruct (_ && _) eqn:E; [|done].
  apply andb_true_iff in E as [E1 E2].
  apply negb_true_iff in E1, E2.
  apply String.eqb_neq in E1. apply bool_decide_eq_false in E2.
  assert (Hnone : findClassByName name s = None).
  { destruct (findClassByName name s); [|done]. exfalso. apply E2. by eexists. }
  set (s1 := setClasses s (classes s ++ [ClassInfo.mk name color])).
  assert (Hgrow : forall n, is_Some (findClassByName n s) ->
                            is_Some (findClassByName n s1)).
  { intros n [c Hc]. exists c. unfold findClassByName in *. cbn.
    by apply find_app_Some. }
  assert (Hnew : is_Some (findClassByName name s1)).
  { exists (ClassInfo.mk name color). unfold findClassByName in *. cbn.
    rewrite find_app_None by done. cbn. by rewrite String.eqb_refl. }
  destruct HI as [[H1 H2 H3 H4 H5 H6 H7] [D1 D2 D3]].
  split; split; cbn; try assumption.
  - intros c Hc. apply elem_of_app in Hc as [Hc|Hc]; [by apply H2|].
    apply list_elem_of_singleton in Hc as ->. done.
  - by intros ? [= <-].
  - intros k m H. apply list_lookup_fmap_Some in H as (c & -> & H).
    apply (findClassByName_of_name s1). apply list_elem_of_lookup. eauto.
Qed.

Lemma Inv_masksListClick k s :
  Inv s -> Inv (masksListClick (masksListContainer s !! k) s).
Proof.
  intros HI. unfold masksListClick.
  destruct (masksListContainer s !! k) as [maskIndex|] eqn:Ek; [|done].
  on_active_entry s i st Hi.
  destruct HI as [HC HD].
  destruct (dom_masks s HD k maskIndex Ek) as (st0 & Hst0 & Hm).
  assert (st0 = st) as -> by congruence.
  set (st' := withHighlightedMaskIndex _ st).
  assert (HC' : Core (writeEntry i st' s)).
  { eapply Core_writeEntry; [done..|]. subst st'. cbn. intros h.
    case_bool_decide; [done|]. by intros [= <-]. }
  assert (HD' : Dom (writeEntry i st' s)).
  { eapply Dom_writeEntry; [done..|]. subst st'. cbn. lia. }
  split; [by eapply Core_ext; [|exact HC']; repeat split|].
  destruct HD' as [D1 D2 D3]. split; cbn; try assumption.
  intros j m H.
  change (getActiveImageState (renderMasksListUI (writeEntry i st' s)))
    with (getActiveImageState (writeEntry i st' s)).
  destruct (getActiveImageState (writeEntry i st' s)) as [st1|];
    [|by rewrite lookup_nil in H].
  exists st1. split; [done|]. apply lookup_seq in H. lia.
Qed.

Lemma Inv_generateMaskResume k r s : Inv s -> Inv (generateMaskResume k r s).
Proof.
  intros HI. unfold generateMaskResume.
  destruct (pendingFetches s !! k) as [i|] eqn:Ek; [|done].
  destruct HI as [[H1 H2 H3 H4 H5 H6 H7] HD].
  assert (Hi : (i < length (imagesState s))%nat).
  { eapply (proj1 (Forall_lookup _ _) H6); eauto. }
  assert (Hempty : delete k (pendingFetches s) = []).
  { destruct (isPredicting s).
    - destruct H5 as [i' H5]. rewrite H5 in Ek |- *.
      destruct k; [done|]. by rewrite lookup_cons, lookup_nil in Ek.
    - rewrite H5 in Ek. by rewrite lookup_nil in Ek. }
  split.
  - destruct r as [|mask];
      [|destruct (truthy _); [destruct (findClassByName _ _)|]];
      (split; cbn; rewrite ?Hempty; try assumption;
       first [ done
             | by apply Forall_nil
             | apply Forall_app; split; [assumption|by repeat constructor] ]).
  - eapply Dom_ext; [|exact HD].
    destruct r as [|mask];
      [|destruct (truthy _); [destruct (findClassByName _ _)|]];
      repeat split.
Qed.

Lemma Inv_coloredMaskResolved k s : Inv s -> Inv (coloredMaskResolved k s).
Proof.
  intros HI. unfold coloredMaskResolved.
  destruct (pendingMasks s !! k) as [[i coloredMask]|] eqn:Ek; [|done].
  set (s0 := setPendingMasks s (delete k (pendingMasks s))).
  assert (HI0 : Inv s0).
  { destruct HI as [[H1 H2 H3 H4 H5 H6 H7] HD]. split.
    - split; cbn; try assumption. by apply Forall_delete.
    - eapply Dom_ext; [|exact HD]. repeat split. }
  destruct (imagesState s0 !! i) as [st|] eqn:Ei; [|done].
  destruct HI0 as [HC0 HD0]. apply Inv_updateAllUI.
  eapply Core_writeEntry; [done..|]. cbn. intros h.
  by apply (core_highlight s0 HC0 i).
Qed.

Theorem Inv_step ev s : Inv s -> Inv (step ev s).
Proof.
  intros HI. destruct ev; cbn [step].
  - by apply Inv_imageLoaded.
  - by apply Inv_imagesAllLoaded.
  - destruct (imageThumbnailList s !! k) as [index|] eqn:Ek; [|done].
    destruct HI as [HC HD]. apply Inv_setActiveImage; [done|].
    by apply (dom_thumbs s HD k).
  - by apply Inv_canvasMouseDown.
  - by apply Inv_saveMaskClick.
  - by apply Inv_clearPointsClick.
  - by apply Inv_addClassClick.
  - destruct (classListContainer s !! k) as [n|] eqn:Ek; [|done].
    apply Inv_setActiveClass; [done|]. destruct HI as [HC HD].
    by apply (dom_classes s HD k).
  - by apply Inv_masksListClick.
  - by apply Inv_generateMaskResume.
  - by apply Inv_coloredMaskResolved.
  - destruct HI as [HC HD]. by apply Inv_updateAllUI.
Qed.

Lemma Inv_initialApp : Inv initialApp.
Proof.
  split; split; cbn; try done.
  intros c Hc. by apply elem_of_nil in Hc.
Qed.

Lemma Inv_run evs : forall s, Inv s -> Inv (run evs s).
Proof.
  induction evs as [|ev evs IH]; intros s HI; [done|].
  cbn. apply IH. by apply Inv_step.
Qed.

Lemma Inv_reachable s : reachable s -> Inv s.
Proof. intros [evs ->]. apply Inv_run, Inv_initialApp. Qed.

(** ** Handlers, one at a time *)

Lemma imagesState_updateAllUI s : imagesState (updateAllUI s) = imagesState s.
Proof. apply sameVars_updateAllUI. Qed.

Lemma getActiveImageState_Some s i st :
  activeImageId s = Some i -> imagesState s !! i = Some st ->
  getActiveImageState s = Some st.
Proof. intros Ha Hi. unfold getActiveImageState. by rewrite Ha. Qed.

(** In a reachable store a request is outstanding exactly while
    [isPredicting] is set, and there is at most one. *)
Lemma outstanding_isPredicting s :
  reachable s ->
  (pendingFetches s <> [] <-> isPredicting s = true)
  /\ (length (pendingFetches s) <= 1)%nat.
Proof.
  intros Hr. destruct (Inv_reachable s Hr) as [HC _].
  pose proof (core_fetches s HC) as H.
  destruct (isPredicting s).
  - destruct H as [i ->]. cbn. split; [|lia]. done.
  - rewrite H. cbn. split; [|lia]. split; [done|discriminate].
Qed.

Lemma canvasMouseDown_isPredicting e rect s :
  isPredicting s = true -> canvasMouseDown e rect s = s.
Proof.
  intros Hp. unfold canvasMouseDown. rewrite Hp.
  destruct (activeImageId s); [|done]. by destruct (getActiveImageState s).
Qed.

(** The [then] callback writes the mask into the captured entry and touches
    no other field of it. *)
Lemma coloredMaskResolved_entry s k i m st :
  pendingMasks s !! k = Some (i, m) -> imagesState s !! i = Some st ->
  imagesState (coloredMaskResolved k s) !! i
  = Some (withCurrentMask (Some m) st).
Proof.
  intros Hk Hi. unfold coloredMaskResolved. rewrite Hk. cbn. rewrite Hi.
  rewrite imagesState_updateAllUI. cbn.
  apply list_lookup_insert_eq. by eapply lookup_lt_Some.
Qed.

Lemma saveMaskClick_success s i st mask name classInfo :
  activeImageId s = Some i -> imagesState s !! i = Some st ->
  currentMask st = Some mask ->
  truthy (activeClass s) = Some name ->
  findClassByName name s = Some classInfo ->
  exists s',
    saveMaskClick s = Returned s'
    /\ imagesState s'
       = <[ i := mkImageState (imageElement st) (imageDataUrl st) [] None
                   (savedMasks st
                      ++ [mkSavedMask mask mask (ClassInfo.name classInfo)
                                      (ClassInfo.color classInfo)])
                   (highlightedMaskIndex st) ]> (imagesState s).
Proof.
  intros Ha Hi Hm Hn Hc. unfold saveMaskClick.
  rewrite Ha, (getActiveImageState_Some s i st Ha Hi), Hm, Hn, Hc.
  eexists. split; [reflexivity|]. by rewrite imagesState_updateAllUI.
Qed.

(** ** Requests and responses *)

Lemma run_snoc evs ev s : run (evs ++ [ev]) s = step ev (run evs s).
Proof. unfold run. by rewrite fold_left_app. Qed.

Lemma reachable_step ev s : reachable s -> reachable (step ev s).
Proof. intros [evs ->]. exists (evs ++ [ev]). by rewrite run_snoc. Qed.

Lemma pageReachable_store initialButtons p :
  pageReachable initialButtons p -> reachable (store p).
Proof.
  intros [evs ->].
  induction evs as [|ev evs IH] using rev_ind; [by exists []|].
  unfold pageRun. rewrite fold_left_app. cbn [fold_left].
  fold (pageRun evs (initialPage initialButtons)).
  unfold pageStep. destruct (dispatched _ _); [|exact IH].
  by apply reachable_step.
Qed.

Lemma clearPointsClick_entry s i st :
  activeImageId s = Some i -> entryOf s i = Some st ->
  entryOf (clearPointsClick s) i
  = Some (withCurrentMask None (withPoints [] st))
  /\ pendingFetches (clearPointsClick s) = pendingFetches s.
Proof.
  intros Ha Hi. unfold clearPointsClick, entryOf in *.
  rewrite Ha, (getActiveImageState_Some s i st Ha Hi).
  destruct (_ || _) eqn:E.
  - rewrite imagesState_updateAllUI.
    rewrite (proj1 (proj2 (proj2 (proj2 (proj2 (proj2
               (sameVars_updateAllUI _))))))).
    split; [|done]. cbn. apply list_lookup_insert_eq. by eapply lookup_lt_Some.
  - split; [|done]. apply orb_false_iff in E as [E1 E2].
    apply Nat.ltb_ge in E1. apply bool_decide_eq_false in E2.
    rewrite Hi. f_equal. destruct st as [? ? pts cm ? ?]; cbn in *.
    destruct pts; [|cbn in E1; lia].
    destruct cm; [exfalso; apply E2; by eexists|done].
Qed.

(** A settled request is never dropped: whatever the entries are by then,
    its mask is colored and queued for delivery to the entry the request
    was made for. *)
Lemma generateMaskResume_queues s k i mask :
  reachable s -> pendingFetches s !! k = Some i ->
  exists color,
    match truthy (activeClass s) with
    | Some name => ClassInfo.color <$> findClassByName name s = Some color
    | None => color = "#FF0000"
    end
    /\ pendingMasks (generateMaskResume k (FetchOk mask) s)
       = pendingMasks s ++ [(i, createColoredMask mask color)]
    /\ imagesState (generateMaskResume k (FetchOk mask) s) = imagesState s.
Proof.
  intros Hr Hk. destruct (Inv_reachable s Hr) as [HC _].
  unfold generateMaskResume. rewrite Hk.
  cbn [activeClass setPendingFetches].
  destruct (truthy (activeClass s)) as [name|] eqn:Ht.
  - apply truthy_Some in Ht as [Hac _].
    destruct (core_activeClass s HC name Hac) as [c Hc].
    assert (Hc' : findClassByName name
                    (setPendingFetches s (delete k (pendingFetches s)))
                  = Some c) by exact Hc.
    rewrite Hc'. exists (ClassInfo.color c). rewrite Hc. done.
  - by exists "#FF0000"%string.
Qed.

(** C1, the claim as written fails.  With one image open:
    - a mask is shown for a first point and a second point is placed, so
      that a request is outstanding and the clear button is enabled;
      clearing before the response arrives changes the point list, and the
      response is applied all the same;
    - a second point placed after the fetch of the first has settled, while
      the colored mask is still being built, does not stop that mask,
      computed for the first point alone, from becoming the pending mask;
    - a second mousedown while the fetch is outstanding is ignored, and the
      response then sets the pending mask. *)
Lemma stale_response_is_applied :
  let requested := run (opened ++ [leftClick 0 0]) initialApp in
  let coloredMask := createColoredMask oracleMask "#FF0000" in
  (let shown :=
     pageRun (opened ++ [leftClick 0 0; FetchSettled 0 (FetchOk oracleMask);
                         ColoredMaskResolved 0; leftClick 1 0])
             (initialPage allDisabled) in
   let edited :=
     pageRun [ClearPointsClick; FetchSettled 0 (FetchOk oracleMask)] shown in
   let final := pageStep (ColoredMaskResolved 0) edited in
   clearPointsDisabled (buttons shown) = false
   /\ pendingFetches (store shown) = [0%nat]
   /\ points <$> entryOf (store shown) 0
      = Some [Point.mk 0 0 1; Point.mk 1 0 1]
   /\ points <$> entryOf (store edited) 0 = Some []
   /\ currentMask <$> entryOf (store edited) 0 = Some None
   /\ currentMask <$> entryOf (store final) 0 = Some (Some coloredMask))
  /\ (let edited :=
        run [FetchSettled 0 (FetchOk oracleMask); leftClick 1 0] requested in
      let final := step (ColoredMaskResolved 0) edited in
      points <$> entryOf edited 0 = Some [Point.mk 0 0 1; Point.mk 1 0 1]
      /\ currentMask <$> entryOf edited 0 = Some None
      /\ currentMask <$> entryOf final 0 = Some (Some coloredMask))
  /\ (let edited := step (leftClick 1 0) requested in
      let final :=
        run [FetchSettled 0 (FetchOk oracleMask); ColoredMaskResolved 0]
            edited in
      pendingFetches requested = [0%nat]
      /\ edited = requested
      /\ currentMask <$> entryOf edited 0 = Some None
      /\ currentMask <$> entryOf final 0 = Some (Some coloredMask)).
Proof. vm_compute. repeat split. Qed.

(** C1, amended.  In every reachable store:
    - while a mask request is outstanding a mousedown is ignored: no point
      is added and nothing else changes;
    - when the fetch of an outstanding request settles with a mask, the
      mask is colored (with the color of the active class, red without one)
      and queued for the entry the request was made for, whatever the
      points of that entry are by then, and no entry changes;
    - when a queued colored mask is delivered, that entry gets it as its
      pending mask and keeps all its other fields;
    so a response is never discarded and there is no comparison of point
    lists: settling and then delivering the response of an outstanding
    request always sets the pending mask of its entry. *)
Theorem response_applied_unconditionally (s : App) :
  reachable s ->
  (pendingFetches s <> [] ->
   forall e rect, step (CanvasMouseDown e rect) s = s)
  /\ (forall k i mask,
        pendingFetches s !! k = Some i ->
        let s' := step (FetchSettled k (FetchOk mask)) s in
        exists color,
          match truthy (activeClass s) with
          | Some name => ClassInfo.color <$> findClassByName name s = Some color
          | None => color = "#FF0000"
          end
          /\ pendingMasks s'
             = pendingMasks s ++ [(i, createColoredMask mask color)]
          /\ imagesState s' = imagesState s)
  /\ (forall k i m,
        pendingMasks s !! k = Some (i, m) ->
        exists st,
          entryOf s i = Some st
          /\ entryOf (step (ColoredMaskResolved k) s) i
             = Some (withCurrentMask (Some m) st))
  /\ (forall k i mask,
        pendingFetches s !! k = Some i ->
        let delivered :=
          run [FetchSettled k (FetchOk mask);
               ColoredMaskResolved (length (pendingMasks s))] s in
        exists color st,
          entryOf s i = Some st
          /\ entryOf delivered i
             = Some (withCurrentMask (Some (createColoredMask mask color)) st)).
Proof.
  intros Hr.
  assert (Hdeliver : forall t k i m,
            reachable t -> pendingMasks t !! k = Some (i, m) ->
            exists st,
              entryOf t i = Some st
              /\ entryOf (step (ColoredMaskResolved k) t) i
                 = Some (withCurrentMask (Some m) st)).
  { intros t k i m Ht Hk. destruct (Inv_reachable t Ht) as [HC _].
    pose proof (proj1 (Forall_lookup _ _) (core_maskTarget t HC) k _ Hk) as Hlt.
    cbn in Hlt. apply lookup_lt_is_Some in Hlt as [st Hst].
    exists st. split; [done|]. by apply coloredMaskResolved_entry. }
  split; [|split; [|split]].
  - intros Hout e rect. cbn. apply canvasMouseDown_isPredicting.
    by apply (outstanding_isPredicting s Hr).
  - intros k i mask Hk. cbn [step]. by apply generateMaskResume_queues.
  - intros k i m. by apply Hdeliver.
  - intros k i mask Hk. cbn [run fold_left].
    destruct (generateMaskResume_queues s k i mask Hr Hk)
      as (color & _ & Hq & Hi).
    set (s' := step (FetchSettled k (FetchOk mask)) s).
    assert (Hr' : reachable s') by (by apply reachable_step).
    assert (Hk' : pendingMasks s' !! length (pendingMasks s)
                  = Some (i, createColoredMask mask color)).
    { subst s'. cbn [step]. rewrite Hq. by apply list_lookup_middle. }
    destruct (Hdeliver s' _ _ _ Hr' Hk') as (st & Hst & Hfin).
    exists color, st. split; [|done].
    unfold entryOf in *. subst s'. cbn [step] in Hst. by rewrite Hi in Hst.
Qed.

Lemma response_applied_unconditionally_witness :
  let s := run (opened ++ [leftClick 0 0; FetchSettled 0 (FetchOk oracleMask);
                           leftClick 1 0]) initialApp in
  step (CanvasMouseDown (MouseEvent.mk 1 0 0) photoRect) s = s
  /\ (exists color,
        color = "#FF0000"
        /\ pendingMasks (step (FetchSettled 0 (FetchOk oracleMask)) s)
           = pendingMasks s ++ [(0%nat, createColoredMask oracleMask color)]
        /\ imagesState (step (FetchSettled 0 (FetchOk oracleMask)) s)
           = imagesState s)
  /\ exists st,
       entryOf s 0 = Some st
       /\ entryOf (step (ColoredMaskResolved 0) s) 0
          = Some (withCurrentMask (Some redMask) st).
Proof.
  intros s.
  assert (Hr : reachable s) by (eexists; reflexivity).
  destruct (response_applied_unconditionally s Hr) as (Hmouse & Hqueue & Hmask & _).
  split; [|split].
  - apply Hmouse. vm_compute. discriminate.
  - apply (Hqueue 0%nat 0%nat oracleMask). reflexivity.
  - apply (Hmask 0%nat 0%nat redMask). reflexivity.
Defined.

(** C8, the claim as written fails: with one point placed and its request
    outstanding, a further mousedown on the same image adds no point. *)
Lemma mousedown_blocked_while_outstanding :
  let s := run (opened ++ [leftClick 0 0]) initialApp in
  let e := MouseEvent.mk 1 0 0 in
  let p := mousedownPoint e photoRect (canvasWidth s) (canvasHeight s) in
  pendingFetches s = [0%nat]
  /\ points <$> entryOf s 0 = Some [Point.mk 0 0 1]
  /\ points <$> entryOf (step (CanvasMouseDown e photoRect) s) 0
     <> Some ([Point.mk 0 0 1] ++ [p]).
Proof. vm_compute. repeat split. discriminate. Qed.

(** C8, amended.  On every page reached from the initial one, whatever the
    flags of the buttons in the markup, while a mask request is
    outstanding:
    - a mousedown is ignored: nothing changes;
    - a click on a thumbnail makes its image the active one, and a click on
      a class makes it the active class;
    - a click on the clear button, when the button is enabled, leaves the
      active entry with no points and no pending mask, and the request
      outstanding; when the button is disabled the click changes nothing.
    Both cases occur: the button is disabled during the request for the
    first point of a fresh entry, because a mousedown does not refresh the
    flags, and enabled during the request for a second point placed after
    the mask of the first was shown. *)
Theorem interactions_while_outstanding (initialButtons : Buttons) (p : Page) :
  pageReachable initialButtons p -> pendingFetches (store p) <> [] ->
  (forall e rect, pageStep (CanvasMouseDown e rect) p = p)
  /\ (forall k index,
        imageThumbnailList (store p) !! k = Some index ->
        activeImageId (store (pageStep (ThumbnailClick k) p)) = Some index)
  /\ (forall k name,
        classListContainer (store p) !! k = Some name ->
        activeClass (store (pageStep (ClassClick k) p)) = Some name)
  /\ (forall i st,
        activeImageId (store p) = Some i -> entryOf (store p) i = Some st ->
        let p' := pageStep ClearPointsClick p in
        if clearPointsDisabled (buttons p) then p' = p
        else
          entryOf (store p') i = Some (withCurrentMask None (withPoints [] st))
          /\ pendingFetches (store p') = pendingFetches (store p))
  /\ (let first :=
        pageRun (opened ++ [leftClick 0 0]) (initialPage initialButtons) in
      pendingFetches (store first) = [0%nat]
      /\ clearPointsDisabled (buttons first) = true
      /\ pageStep ClearPointsClick first = first)
  /\ (let second :=
        pageRun (opened ++ [leftClick 0 0; FetchSettled 0 (FetchOk oracleMask);
                            ColoredMaskResolved 0; leftClick 1 0])
                (initialPage initialButtons) in
      pendingFetches (store second) = [0%nat]
      /\ clearPointsDisabled (buttons second) = false
      /\ points <$> entryOf (store second) 0
         = Some [Point.mk 0 0 1; Point.mk 1 0 1]
      /\ points <$> entryOf (store (pageStep ClearPointsClick second)) 0
         = Some []).
Proof.
  intros Hp Hout. pose proof (pageReachable_store _ _ Hp) as Hr.
  split; [|split; [|split; [|split; [|split]]]].
  - intros e rect. unfold pageStep. cbn [dispatched reachesUpdateButtonsState].
    cbn [step]. rewrite canvasMouseDown_isPredicting.
    + by destruct p.
    + by apply (outstanding_isPredicting _ Hr).
  - intros k index Hk. unfold pageStep. cbn [dispatched store step].
    rewrite Hk. unfold setActiveImage.
    by rewrite (proj1 (proj2 (sameVars_updateAllUI _))).
  - intros k name Hk. unfold pageStep. cbn [dispatched store step].
    by rewrite Hk.
  - intros i st Ha Hi p'. subst p'. unfold pageStep. cbn [dispatched].
    destruct (clearPointsDisabled (buttons p)); [done|].
    cbn [negb store step]. by apply clearPointsClick_entry.
  - destruct initialButtons as [[] [] []]; by vm_compute.
  - destruct initialButtons as [[] [] []]; by vm_compute.
Qed.

Lemma interactions_while_outstanding_witness :
  let p :=
    pageRun (opened ++ [leftClick 0 0; FetchSettled 0 (FetchOk oracleMask);
                        ColoredMaskResolved 0; leftClick 1 0])
            (initialPage allDisabled) in
  pageStep (CanvasMouseDown (MouseEvent.mk 1 0 0) photoRect) p = p
  /\ activeImageId (store (pageStep (ThumbnailClick 0) p)) = Some 0%nat
  /\ clearPointsDisabled (buttons p) = false
  /\ points <$> entryOf (store (pageStep ClearPointsClick p)) 0 = Some [].
Proof.
  intros p.
  assert (Hp : pageReachable allDisabled p) by (eexists; reflexivity).
  assert (Hout : pendingFetches (store p) <> []) by (vm_compute; discriminate).
  destruct (interactions_while_outstanding allDisabled p Hp Hout)
    as (H1 & H2 & _ & H4 & _).
  split; [apply H1|]. split; [by apply H2|]. split; [reflexivity|].
  destruct (entryOf (store p) 0) as [st|] eqn:Hst; [|by vm_compute in Hst].
  pose proof (H4 0%nat st eq_refl Hst) as H.
  change (clearPointsDisabled (buttons p)) with false in H.
  destruct H as [H _]. by rewrite H.
Defined.

(** C9, the claim as written fails: a mask is shown for a first point, a
    second point is placed and its request fails; the entry keeps the mask of
    the first point as its pending mask, and the failure is a console
    message. *)
Lemma failed_request_keeps_old_mask :
  let s := run (opened ++ [leftClick 0 0; FetchSettled 0 (FetchOk oracleMask);
                           ColoredMaskResolved 0; leftClick 1 0]) initialApp in
  let final := step (FetchSettled 0 FetchFailed) s in
  pendingFetches s = [0%nat]
  /\ points <$> entryOf final 0 = Some [Point.mk 0 0 1; Point.mk 1 0 1]
  /\ currentMask <$> entryOf final 0 = Some (Some redMask)
  /\ currentMask <$> entryOf final 0 <> Some None
  /\ console final = ["Mask request failed:"].
Proof. vm_compute. repeat split. discriminate. Qed.

(** C9, amended.  When the request of a suspended [generateMask] fails, the
    failure is caught and written to the console; every entry is left as it
    is, points and pending mask included (a mask shown before stays), no
    colored mask is scheduled and [isPredicting] is reset. *)
Theorem failed_request_leaves_entries (s : App) (k i : nat) :
  pendingFetches s !! k = Some i ->
  let s' := step (FetchSettled k FetchFailed) s in
  imagesState s' = imagesState s
  /\ pendingMasks s' = pendingMasks s
  /\ pendingFetches s' = delete k (pendingFetches s)
  /\ isPredicting s' = false
  /\ console s' = console s ++ ["Mask request failed:"].
Proof.
  intros Hk. cbn. unfold generateMaskResume. rewrite Hk. cbn. done.
Qed.

Lemma failed_request_leaves_entries_witness :
  let s := run (opened ++ [leftClick 0 0]) initialApp in
  let s' := step (FetchSettled 0 FetchFailed) s in
  imagesState s' = imagesState s
  /\ pendingMasks s' = pendingMasks s
  /\ pendingFetches s' = delete 0%nat (pendingFetches s)
  /\ isPredicting s' = false
  /\ console s' = console s ++ ["Mask request failed:"].
Proof.
  exact (failed_request_leaves_entries
           (run (opened ++ [leftClick 0 0]) initialApp) 0 0 eq_refl).
Defined.

(** ** Saving a mask *)

(** C2, the claim as written fails: a mask predicted while no class was
    active is red; saving it under a class whose color is #00ff00 stores the
    red image, not a recolored one. *)
Lemma saved_mask_not_recolored :
  let s := run (opened ++ [leftClick 0 0; FetchSettled 0 (FetchOk oracleMask);
                           ColoredMaskResolved 0;
                           AddClassClick "cat" "#00ff00"]) initialApp in
  let saved := step SaveMaskClick s in
  currentMask <$> entryOf s 0 = Some (Some redMask)
  /\ findClassByName "cat" s = Some (ClassInfo.mk "cat" "#00ff00")
  /\ savedMasks <$> entryOf saved 0
     = Some [mkSavedMask redMask redMask "cat" "#00ff00"]
  /\ redMask <> createColoredMask redMask "#00ff00".
Proof. vm_compute. repeat split. discriminate. Qed.

(** C2, amended.  In every reachable store whose active entry has a pending
    mask and whose active class is set, the save handler returns normally
    and, in that one step, appends exactly one saved mask that holds the
    pending mask as it is (it is not recolored), the name of the active class
    and a copy of its color, and leaves the entry with no points and no
    pending mask; the other fields of the entry and all other entries are
    untouched. *)
Theorem saveMaskClick_appends (s : App) (i : nat) (st : ImageState)
    (mask : Img.t) (name : string) :
  reachable s ->
  activeImageId s = Some i -> entryOf s i = Some st ->
  currentMask st = Some mask -> activeClass s = Some name ->
  exists classInfo s',
    findClassByName name s = Some classInfo
    /\ ClassInfo.name classInfo = name
    /\ saveMaskClick s = Returned s'
    /\ imagesState s'
       = <[ i := mkImageState (imageElement st) (imageDataUrl st) [] None
                   (savedMasks st
                      ++ [mkSavedMask mask mask name
                                      (ClassInfo.color classInfo)])
                   (highlightedMaskIndex st) ]> (imagesState s)
    /\ exists st',
         entryOf s' i = Some st' /\ points st' = []
         /\ currentMask st' = None
         /\ length (savedMasks st') = S (length (savedMasks st)).
Proof.
  intros Hr Ha Hi Hm Hn. destruct (Inv_reachable s Hr) as [HC _].
  destruct (core_activeClass s HC name Hn) as [classInfo Hc].
  destruct (findClassByName_name name s classInfo Hc) as [Hname Hin].
  assert (Ht : truthy (activeClass s) = Some name).
  { apply truthy_Some. split; [done|]. rewrite <- Hname.
    by apply (core_names s HC). }
  destruct (saveMaskClick_success s i st mask name classInfo Ha Hi Hm Ht Hc)
    as (s' & Hs' & Himgs).
  exists classInfo, s'. rewrite Hname in Himgs.
  repeat (split; [done|]).
  eexists. unfold entryOf. rewrite Himgs. split.
  - apply list_lookup_insert_eq. by eapply lookup_lt_Some.
  - cbn. rewrite length_app. cbn. repeat split. lia.
Qed.

Lemma saveMaskClick_appends_witness :
  let s := run (opened ++ [leftClick 0 0; FetchSettled 0 (FetchOk oracleMask);
                           ColoredMaskResolved 0;
                           AddClassClick "cat" "#00ff00"]) initialApp in
  exists classInfo s',
    findClassByName "cat" s = Some classInfo
    /\ ClassInfo.name classInfo = "cat"
    /\ saveMaskClick s = Returned s'
    /\ imagesState s'
       = <[ 0%nat := mkImageState photo "data:photo" [] None
                   ([] ++ [mkSavedMask redMask redMask "cat"
                                      (ClassInfo.color classInfo)])
                   None ]> (imagesState s)
    /\ exists st',
         entryOf s' 0 = Some st' /\ points st' = []
         /\ currentMask st' = None
         /\ length (savedMasks st') = 1%nat.
Proof.
  intros s.
  exact (saveMaskClick_appends s 0
           (mkImageState photo "data:photo" [Point.mk 0 0 1] (Some redMask)
                         [] None)
           redMask "cat"
           (ex_intro _ _ eq_refl) eq_refl eq_refl eq_refl eq_refl).
Defined.

(** C3, the claim as written fails: with an image open and no pending mask,
    and again with a pending mask and no class chosen, the save handler
    returns normally; no error is raised. *)
Lemma save_without_mask_or_class_returns :
  let noMask := run opened initialApp in
  let noClass :=
    run (opened ++ [leftClick 0 0; FetchSettled 0 (FetchOk oracleMask);
                    ColoredMaskResolved 0]) initialApp in
  (currentMask <$> entryOf noMask 0 = Some None
   /\ saveMaskClick noMask = Returned noMask)
  /\ (currentMask <$> entryOf noClass 0 = Some (Some redMask)
      /\ activeClass noClass = None /\ classes noClass = []
      /\ saveMaskClick noClass = Returned noClass).
Proof. vm_compute. repeat split. Qed.

(** C3, amended.  When no image is active, or the active entry has no
    pending mask, or no class is active, the save handler returns silently,
    raising and reporting nothing, and the whole store is unchanged.  The
    handler takes the class from [activeClass]; in a reachable store that is
    always a registered class, and the handler never throws. *)
Theorem saveMaskClick_guard (s : App) :
  ((getActiveImageState s = None
    \/ (exists st, getActiveImageState s = Some st /\ currentMask st = None)
    \/ truthy (activeClass s) = None) ->
   saveMaskClick s = Returned s)
  /\ (reachable s -> exists s', saveMaskClick s = Returned s').
Proof.
  split.
  - intros H. unfold saveMaskClick.
    destruct (activeImageId s) as [i|] eqn:Ea; [|done].
    destruct (getActiveImageState s) as [st|] eqn:Es; [|done].
    destruct (currentMask st) as [mask|] eqn:Em.
    + destruct H as [H|[(st0 & [= <-] & H)|H]]; [done|congruence|].
      by rewrite H.
    + done.
  - intros Hr. destruct (Inv_reachable s Hr) as [HC _].
    unfold saveMaskClick.
    destruct (activeImageId s) as [i|] eqn:Ea; [|by eexists].
    destruct (getActiveImageState s) as [st|] eqn:Es; [|by eexists].
    destruct (currentMask st) as [mask|]; [|by eexists].
    destruct (truthy (activeClass s)) as [name|] eqn:Et; [|by eexists].
    apply truthy_Some in Et as [Et _].
    destruct (core_activeClass s HC name Et) as [c ->]. by eexists.
Qed.

Lemma saveMaskClick_guard_witness :
  let s := run opened initialApp in
  saveMaskClick s = Returned s /\ exists s', saveMaskClick s = Returned s'.
Proof.
  intros s. destruct (saveMaskClick_guard s) as [H1 H2]. split.
  - apply H1. right. left. eexists. split; reflexivity.
  - apply H2. eexists. reflexivity.
Defined.

(** ** Highlighting a saved mask *)

Lemma masksListClick_entry s i st maskIndex :
  activeImageId s = Some i -> entryOf s i = Some st ->
  entryOf (masksListClick (Some maskIndex) s) i
  = Some (withHighlightedMaskIndex
            (toggled (highlightedMaskIndex st) maskIndex) st)
  /\ activeImageId (masksListClick (Some maskIndex) s) = Some i.
Proof.
  intros Ha Hi. unfold masksListClick, entryOf in *.
  rewrite Ha, (getActiveImageState_Some s i st Ha Hi). cbn. split; [|done].
  apply list_lookup_insert_eq. by eapply lookup_lt_Some.
Qed.

(** C6, the claim as written fails: with two saved masks and the first one
    highlighted, two clicks on the second one leave no mask highlighted. *)
Lemma toggle_twice_from_other_index :
  let s := run (twoSaved ++ [MasksListClick 0]) initialApp in
  let final := run [MasksListClick 1; MasksListClick 1] s in
  length <$> (savedMasks <$> entryOf s 0) = Some 2%nat
  /\ highlightedMaskIndex <$> entryOf s 0 = Some (Some 0%nat)
  /\ highlightedMaskIndex <$> entryOf final 0 = Some None.
Proof. vm_compute. repeat split. Qed.

(** C6, amended.  Two clicks in a row on the same saved mask bring the
    highlight of the active entry back to what it was when no mask or that
    very mask was highlighted before; when another mask was highlighted, the
    two clicks leave no mask highlighted. *)
Theorem toggle_twice (s : App) (i : nat) (st : ImageState) (maskIndex : nat) :
  activeImageId s = Some i -> entryOf s i = Some st ->
  let twice := masksListClick (Some maskIndex)
                 (masksListClick (Some maskIndex) s) in
  let after := highlightedMaskIndex <$> entryOf twice i in
  (highlightedMaskIndex st = None \/ highlightedMaskIndex st = Some maskIndex
   -> after = Some (highlightedMaskIndex st))
  /\ (forall j, highlightedMaskIndex st = Some j -> j <> maskIndex ->
      after = Some None).
Proof.
  intros Ha Hi twice after.
  destruct (masksListClick_entry s i st maskIndex Ha Hi) as [H1 Ha1].
  destruct (masksListClick_entry _ i _ maskIndex Ha1 H1) as [H2 _].
  subst after twice. rewrite H2. cbn. unfold toggled. split.
  - intros [E|E]; rewrite E; repeat case_bool_decide; congruence.
  - intros j E Hne. rewrite E. repeat case_bool_decide; congruence.
Qed.

Lemma toggle_twice_witness :
  let s := run (twoSaved ++ [MasksListClick 1]) initialApp in
  let twice := masksListClick (Some 1%nat) (masksListClick (Some 1%nat) s) in
  highlightedMaskIndex <$> entryOf twice 0 = Some (Some 1%nat).
Proof.
  intros s twice.
  set (greenMask := Img.mk 2 1 [0; 255; 0; 128; 0; 0; 0; 0]).
  set (saved := mkSavedMask greenMask greenMask "cat" "#00ff00").
  set (st := mkImageState photo "data:photo" [] None [saved; saved]
                          (Some 1%nat)).
  exact (proj1 (toggle_twice s 0 st 1 eq_refl eq_refl) (or_intror eq_refl)).
Defined.

(** C7, the claim as written fails: the handler run for an [li] of index 0
    on an entry that has no saved mask (an [li] the script never renders)
    raises nothing and stores the index. *)
Lemma masksListClick_has_no_range_check :
  let s := run opened initialApp in
  let s' := masksListClick (Some 0%nat) s in
  savedMasks <$> entryOf s 0 = Some []
  /\ highlightedMaskIndex <$> entryOf s' 0 = Some (Some 0%nat).
Proof. vm_compute. repeat split. Qed.

(** C7, amended.  In every reachable store the highlighted index of every
    entry, if present, is a valid index into the saved masks of that entry;
    every event keeps it so.  The click handler of the masks list makes no
    range check and raises no error: the rendered list only holds the indices
    of the saved masks of the active entry, and a click on one of them sets
    the highlight to that index, or clears it when it was already that
    index. *)
Theorem highlight_in_range (s : App) :
  reachable s ->
  (forall i st h,
     entryOf s i = Some st -> highlightedMaskIndex st = Some h ->
     (h < length (savedMasks st))%nat)
  /\ (forall ev, reachable (step ev s))
  /\ (forall k maskIndex,
        masksListContainer s !! k = Some maskIndex ->
        exists i st,
          activeImageId s = Some i /\ entryOf s i = Some st
          /\ (maskIndex < length (savedMasks st))%nat
          /\ entryOf (step (MasksListClick k) s) i
             = Some (withHighlightedMaskIndex
                       (toggled (highlightedMaskIndex st) maskIndex) st)).
Proof.
  intros Hr. destruct (Inv_reachable s Hr) as [HC HD]. split; [|split].
  - intros i st h. apply (core_highlight s HC).
  - intros ev. destruct Hr as [evs ->]. exists (evs ++ [ev]).
    unfold run. by rewrite fold_left_app.
  - intros k maskIndex Hk.
    destruct (dom_masks s HD k maskIndex Hk) as (st & Hst & Hm).
    destruct (getActiveImageState_lt s st Hst) as (i & Ha & Hi).
    exists i, st. repeat (split; [done|]). cbn. rewrite Hk.
    by apply masksListClick_entry.
Qed.

Lemma highlight_in_range_witness :
  let s := run (twoSaved ++ [MasksListClick 1]) initialApp in
  highlightedMaskIndex <$> entryOf s 0 = Some (Some 1%nat)
  /\ (1 < 2)%nat.
Proof.
  intros s. split; [reflexivity|].
  set (greenMask := Img.mk 2 1 [0; 255; 0; 128; 0; 0; 0; 0]).
  set (saved := mkSavedMask greenMask greenMask "cat" "#00ff00").
  set (st := mkImageState photo "data:photo" [] None [saved; saved]
                          (Some 1%nat)).
  exact (proj1 (highlight_in_range s (ex_intro _ _ eq_refl))
               0%nat st 1%nat eq_refl eq_refl).
Defined.

(** ** The color of a mask *)

(** The pixel [m] of a colored mask, read off the source alpha of that
    pixel. *)
Lemma createColoredMask_pixel (mask : Img.t) (hexColor : string) (m : nat)
    (a : Z) :
  Img.data mask !! (4 * m + 3)%nat = Some a ->
  let r := parseInt16 (slice hexColor 1 3) in
  let g := parseInt16 (slice hexColor 3 5) in
  let b := parseInt16 (slice hexColor 5 7) in
  let out := Img.data (createColoredMask mask hexColor) in
  if 0 <? a then pixelWritten r g b out (4 * m)
  else pixelKept (Img.data mask) out (4 * m).
Proof.
  intros Ha r g b out. subst out. unfold createColoredMask. cbn [Img.data].
  fold r g b. unfold recolorPixels.
  pose proof (lookup_lt_Some _ _ _ Ha) as Hlt.
  pose proof (recolorLoop_pixel r g b (length (Img.data mask)) 0
                (Img.data mask) m ltac:(lia) ltac:(lia)) as Hpx.
  cbv zeta in Hpx. rewrite !Nat.add_0_l in Hpx.
  unfold positiveAt in Hpx. by rewrite Ha in Hpx.
Qed.

Lemma classEvent_keeps ev s :
  isClassEvent ev = true ->
  imagesState (step ev s) = imagesState s
  /\ activeImageId (step ev s) = activeImageId s.
Proof.
  destruct ev; try done; intros _; cbn [step].
  - unfold addClassClick. by destruct (_ && _).
  - by destruct (classListContainer s !! k).
Qed.

Lemma classEvents_keep evs s :
  forallb isClassEvent evs = true ->
  imagesState (run evs s) = imagesState s
  /\ activeImageId (run evs s) = activeImageId s.
Proof.
  induction evs as [|ev evs IH] using rev_ind; [done|].
  rewrite forallb_app. cbn [forallb]. rewrite andb_true_r.
  intros [Hevs Hev]%andb_true_iff. rewrite run_snoc.
  destruct (classEvent_keeps ev (run evs s) Hev) as [-> ->]. by apply IH.
Qed.

Lemma reachable_run evs s : reachable s -> reachable (run evs s).
Proof.
  intros Hr. induction evs as [|ev evs IH] using rev_ind; [done|].
  rewrite run_snoc. by apply reachable_step.
Qed.

(** C10.  In every reachable store, when the response of a mask request is
    processed the mask is colored with the color of the class active at that
    moment, or with #FF0000 when no class is active, and the colored image
    becomes the pending mask of the entry the request was made for: it has
    the size of the mask, every pixel whose source alpha is positive is
    (r, g, b, 128) for the three channels read from that color, (255, 0, 0,
    128) when no class is active, and every other pixel is as it was.
    Saving stores the pending image as it is, as the saved image and as its
    source, under the name and color of the class active when the mask is
    saved, whatever classes were added or selected since the prediction: the
    saved pixels are those colored at prediction time. *)
Theorem mask_colored_at_prediction (s : App) (k i : nat) (mask : Img.t) :
  reachable s -> pendingFetches s !! k = Some i ->
  (exists color st pending,
     (activeClass s = None -> color = "#FF0000")
     /\ (forall name, activeClass s = Some name ->
         ClassInfo.color <$> findClassByName name s = Some color)
     /\ (let s1 := step (FetchSettled k (FetchOk mask)) s in
         let s2 := step (ColoredMaskResolved (length (pendingMasks s))) s1 in
         pendingMasks s1 = pendingMasks s ++ [(i, pending)]
         /\ entryOf s i = Some st
         /\ entryOf s2 i = Some (withCurrentMask (Some pending) st))
     /\ Img.width pending = Img.width mask
     /\ Img.height pending = Img.height mask
     /\ length (Img.data pending) = length (Img.data mask)
     /\ (forall m a,
           Img.data mask !! (4 * m + 3)%nat = Some a ->
           if 0 <? a
           then pixelWritten (parseInt16 (slice color 1 3))
                             (parseInt16 (slice color 3 5))
                             (parseInt16 (slice color 5 7))
                             (Img.data pending) (4 * m)
           else pixelKept (Img.data mask) (Img.data pending) (4 * m))
     /\ (activeClass s = None ->
         forall m a,
           Img.data mask !! (4 * m + 3)%nat = Some a -> 0 < a ->
           Img.data pending !! (4 * m)%nat = Some 255
           /\ Img.data pending !! (4 * m + 1)%nat = Some 0
           /\ Img.data pending !! (4 * m + 2)%nat = Some 0
           /\ Img.data pending !! (4 * m + 3)%nat = Some 128))
  /\ (forall s' j st' pending evs name,
        reachable s' ->
        activeImageId s' = Some j -> entryOf s' j = Some st' ->
        currentMask st' = Some pending ->
        forallb isClassEvent evs = true ->
        activeClass (run evs s') = Some name ->
        exists saved classInfo,
          findClassByName name (run evs s') = Some classInfo
          /\ savedMasks <$> entryOf (step SaveMaskClick (run evs s')) j
             = Some (savedMasks st' ++ [saved])
          /\ maskImageObject saved = pending
          /\ maskImageSrc saved = pending
          /\ className saved = name
          /\ classColor saved = ClassInfo.color classInfo).
Proof.
  intros Hr Hk. destruct (Inv_reachable s Hr) as [HC _]. split.
  - assert (Hlt : (i < length (imagesState s))%nat).
    { apply (proj1 (Forall_lookup _ _) (core_fetchTarget s HC) k _ Hk). }
    apply lookup_lt_is_Some in Hlt as [st Hst].
    destruct (generateMaskResume_queues s k i mask Hr Hk)
      as (color & Hcolor & Hq & Hi).
    exists color, st, (createColoredMask mask color).
    assert (Hnone : activeClass s = None -> color = "#FF0000"%string).
    { intros Ea. rewrite Ea in Hcolor. exact Hcolor. }
    split; [exact Hnone|]. split.
    { intros name Ea.
      destruct (core_activeClass s HC name Ea) as [c Hc].
      destruct (findClassByName_name name s c Hc) as [Hname Hin].
      assert (Ht : truthy (activeClass s) = Some name).
      { apply truthy_Some. split; [done|]. rewrite <- Hname.
        by apply (core_names s HC). }
      by rewrite Ht in Hcolor. }
    split.
    { cbn zeta. split; [exact Hq|]. split; [exact Hst|].
      apply coloredMaskResolved_entry.
      - cbn [step]. rewrite Hq. by apply list_lookup_middle.
      - cbn [step]. by rewrite Hi. }
    split; [done|]. split; [done|]. split.
    { unfold createColoredMask. cbn [Img.data]. apply recolorLoop_length. }
    split.
    { intros m a Ha. by apply createColoredMask_pixel. }
    intros Ea m a Ha Hpos. rewrite (Hnone Ea).
    pose proof (createColoredMask_pixel mask "#FF0000" m a Ha) as Hpx.
    cbv zeta in Hpx. destruct (Z.ltb_spec 0 a) as [_|?]; [|lia].
    exact Hpx.
  - intros s' j st' pending evs name Hr' Ha Hi Hm Hevs Hn.
    destruct (classEvents_keep evs s' Hevs) as [Eimgs Eact].
    set (t := run evs s') in *.
    assert (Ht : reachable t) by (by apply reachable_run).
    destruct (Inv_reachable t Ht) as [HC' _].
    destruct (core_activeClass t HC' name Hn) as [c Hc].
    destruct (findClassByName_name name t c Hc) as [Hname Hin].
    assert (Htr : truthy (activeClass t) = Some name).
    { apply truthy_Some. split; [done|]. rewrite <- Hname.
      by apply (core_names t HC'). }
    assert (Ha' : activeImageId t = Some j) by (by rewrite Eact).
    assert (Hi' : imagesState t !! j = Some st').
    { rewrite Eimgs. exact Hi. }
    destruct (saveMaskClick_success t j st' pending name c Ha' Hi' Hm Htr Hc)
      as (t' & Ht' & Himgs).
    eexists _, c. split; [exact Hc|]. cbn [step]. rewrite Ht'. cbn [stateOf].
    unfold entryOf.
    rewrite Himgs, list_lookup_insert_eq by (by eapply lookup_lt_Some).
    cbn. done.
Qed.

Lemma mask_colored_at_prediction_witness :
  let s := run (opened ++ [leftClick 0 0]) initialApp in
  let s1 := step (FetchSettled 0 (FetchOk oracleMask)) s in
  let s2 := step (ColoredMaskResolved 0) s1 in
  exists pending,
    currentMask <$> entryOf s2 0 = Some (Some pending)
    /\ Img.data pending !! 0%nat = Some 255
    /\ Img.data pending !! 1%nat = Some 0
    /\ Img.data pending !! 2%nat = Some 0
    /\ Img.data pending !! 3%nat = Some 128.
Proof.
  intros s s1 s2.
  destruct (mask_colored_at_prediction s 0 0 oracleMask
              (ex_intro _ _ eq_refl) eq_refl)
    as [(color & st & pending & _ & _ & (_ & _ & Hentry) & _ & _ & _ & _ & Hred)
        _].
  exists pending. split.
  - change (entryOf s2 0 = Some (withCurrentMask (Some pending) st)) in Hentry.
    by rewrite Hentry.
  - exact (Hred eq_refl 0%nat 255 eq_refl ltac:(lia)).
Defined.

(** * Further properties *)

(** ** Recoloring, cell by cell *)

Section RecolorCells.
Variables r g b : JsNum.

Lemma recolorLoop_cell fuel : forall i data m c,
  (m < fuel)%nat -> (c < 4)%nat ->
  recolorLoop fuel i r g b data !! (i + 4 * m + c)%nat
  = if positiveAt data (i + 4 * m + 3)
    then Some (paintedCell r g b c)
    else data !! (i + 4 * m + c)%nat.
Proof.
  induction fuel as [|fuel IH]; intros i data m c Hm Hc; [lia|].
  cbn [recolorLoop].
  destruct (Nat.ltb_spec i (length data)) as [Hi|Hi].
  - destruct m as [|m].
    + replace (i + 4 * 0)%nat with i by lia.
      rewrite recolorLoop_below by lia.
      destruct (positiveAt data (i + 3)) eqn:Hpos; [|done].
      assert (Hlen : (i + 3 < length data)%nat).
      { unfold positiveAt in Hpos.
        destruct (data !! (i + 3)%nat) eqn:E; [|done].
        by apply lookup_lt_Some in E. }
      change (toUint8Clamped (Some 128)) with 128.
      destruct c as [|[|[|[|c]]]]; [| | | |lia]; cbn [paintedCell].
      * rewrite Nat.add_0_r, !list_lookup_insert_ne by lia.
        apply list_lookup_insert_eq. lia.
      * rewrite !list_lookup_insert_ne by lia.
        apply list_lookup_insert_eq. rewrite length_insert. lia.
      * rewrite !list_lookup_insert_ne by lia.
        apply list_lookup_insert_eq. rewrite !length_insert. lia.
      * apply list_lookup_insert_eq. rewrite !length_insert. lia.
    + replace (i + 4 * S m)%nat with (i + 4 + 4 * m)%nat by lia.
      set (data' := if positiveAt data (i + 3) then _ else data).
      assert (Hsame : forall j, (i + 4 <= j)%nat -> data' !! j = data !! j).
      { intros j Hj. subst data'. destruct (positiveAt data (i + 3)); [|done].
        rewrite !list_lookup_insert_ne by lia. done. }
      rewrite IH by lia. unfold positiveAt. rewrite !Hsame by lia. done.
  - assert (Hnone : forall j, (i <= j)%nat -> data !! j = None).
    { intros j Hj. apply lookup_ge_None. lia. }
    unfold positiveAt. rewrite !Hnone by lia. done.
Qed.

Lemma recolorPixels_cell data m c :
  (c < 4)%nat ->
  recolorPixels r g b data !! (4 * m + c)%nat
  = if positiveAt data (4 * m + 3)
    then Some (paintedCell r g b c)
    else data !! (4 * m + c)%nat.
Proof.
  intros Hc. unfold recolorPixels.
  destruct (Nat.lt_ge_cases m (length data)) as [Hm|Hm].
  - apply (recolorLoop_cell (length data) 0 data m c Hm Hc).
  - assert (Hnone : forall j, (4 * m <= j)%nat -> data !! j = None).
    { intros j Hj. apply lookup_ge_None. lia. }
    unfold positiveAt. rewrite !Hnone by lia.
    apply lookup_ge_None. rewrite recolorLoop_length. lia.
Qed.
End RecolorCells.

Lemma positiveAt_recolorPixels r g b data m :
  positiveAt (recolorPixels r g b data) (4 * m + 3)
  = positiveAt data (4 * m + 3).
Proof.
  pose proof (recolorPixels_cell r g b data m 3 ltac:(lia)) as H.
  unfold positiveAt at 1. rewrite H.
  destruct (positiveAt data (4 * m + 3)) eqn:E; [done|].
  exact E.
Qed.

(** X1.  Coloring an already colored mask gives exactly what coloring the
    raw mask with the second color gives, for any two color strings; in
    particular coloring twice with one color changes nothing more. *)
Theorem createColoredMask_twice (maskImage : Img.t) (c1 c2 : string) :
  createColoredMask (createColoredMask maskImage c1) c2
  = createColoredMask maskImage c2.
Proof.
  unfold createColoredMask. cbn [Img.width Img.height Img.data]. f_equal.
  apply list_eq. intros j.
  rewrite (Nat.div_mod_eq j 4).
  pose proof (Nat.mod_upper_bound j 4 ltac:(lia)) as Hc.
  set (m := (j / 4)%nat). set (c := (j mod 4)%nat) in *.
  rewrite !recolorPixels_cell by done.
  rewrite positiveAt_recolorPixels.
  by destruct (positiveAt (Img.data maskImage) (4 * m + 3)).
Qed.

Lemma toUint8Clamped_isByte v : isByte (toUint8Clamped v).
Proof. unfold isByte, toUint8Clamped. destruct v; lia. Qed.

Lemma paintedCell_isByte r g b c : isByte (paintedCell r g b c).
Proof.
  destruct c as [|[|[|c]]]; cbn; try apply toUint8Clamped_isByte.
  unfold isByte. lia.
Qed.

(** X2.  [createColoredMask] keeps the width, the height and the
    buffer length of the mask, keeps for every pixel whether its alpha is
    positive (the shape of the mask), and turns a buffer of bytes into a
    buffer of bytes. *)
Theorem createColoredMask_shape (maskImage : Img.t) (hexColor : string) :
  let out := createColoredMask maskImage hexColor in
  Img.width out = Img.width maskImage
  /\ Img.height out = Img.height maskImage
  /\ length (Img.data out) = length (Img.data maskImage)
  /\ (forall m, positiveAt (Img.data out) (4 * m + 3)
                = positiveAt (Img.data maskImage) (4 * m + 3))
  /\ (Forall isByte (Img.data maskImage) -> Forall isByte (Img.data out)).
Proof.
  cbn. repeat split.
  - apply recolorLoop_length.
  - intros m. apply positiveAt_recolorPixels.
  - intros Hbytes. apply Forall_lookup. intros j v Hj.
    rewrite (Nat.div_mod_eq j 4) in Hj.
    rewrite recolorPixels_cell in Hj by (apply Nat.mod_upper_bound; lia).
    destruct (positiveAt _ _).
    + injection Hj as <-. apply paintedCell_isByte.
    + by apply (proj1 (Forall_lookup _ _) Hbytes _ _ Hj).
Qed.

Lemma createColoredMask_shape_witness :
  Forall isByte (Img.data (createColoredMask oracleMask "#FF0000")).
Proof.
  apply (createColoredMask_shape oracleMask "#FF0000").
  repeat constructor; unfold isByte; lia.
Defined.

(** ** What an event does to the entries *)

Lemma imagesState_generateMask s : imagesState (generateMask s) = imagesState s.
Proof.
  unfold generateMask. destruct (activeImageId s); [|done].
  destruct (getActiveImageState s); [|done].
  by destruct (length (points _) =? 0)%nat.
Qed.

Lemma imagesState_generateMaskResume k r s :
  imagesState (generateMaskResume k r s) = imagesState s.
Proof.
  unfold generateMaskResume. destruct (pendingFetches s !! k); [|done].
  destruct r as [|mask]; [done|]. cbn.
  destruct (truthy (activeClass s)); [|done].
  by destruct (List.find _ _).
Qed.

(** The entries after one event: the same array, one entry written, or one
    fresh entry pushed. *)
Lemma imagesState_step (ev : Event) (s : App) :
  imagesState (step ev s) = imagesState s
  \/ (exists a sta st1,
        imagesState s !! a = Some sta
        /\ imagesState (step ev s) = <[ a := st1 ]> (imagesState s)
        /\ EntryChange s a sta ev st1)
  \/ (exists img url,
        ev = ImageLoaded img url
        /\ imagesState (step ev s)
           = imagesState s ++ [mkImageState img url [] None [] None]).
Proof.
  assert (Hactive : forall a sta,
            activeImageId s = Some a -> getActiveImageState s = Some sta ->
            imagesState s !! a = Some sta).
  { intros a sta Ea Es. unfold getActiveImageState in Es. by rewrite Ea in Es. }
  destruct ev; cbn [step].
  - right. right. by exists img, dataUrl.
  - left. unfold imagesAllLoaded. destruct (_ && _); [|done].
    unfold setActiveImage. by rewrite imagesState_updateAllUI.
  - left. destruct (imageThumbnailList s !! k); [|done].
    unfold setActiveImage. by rewrite imagesState_updateAllUI.
  - unfold canvasMouseDown.
    destruct (activeImageId s) as [a|] eqn:Ea; [|by left].
    destruct (getActiveImageState s) as [sta|] eqn:Es; [|by left].
    destruct (isPredicting s) eqn:Hp; [by left|].
    right. left. eexists a, sta, _. rewrite imagesState_generateMask.
    split; [by apply Hactive|]. split; [reflexivity|]. by constructor.
  - unfold saveMaskClick.
    destruct (activeImageId s) as [a|] eqn:Ea; [|by left].
    destruct (getActiveImageState s) as [sta|] eqn:Es; [|by left].
    destruct (currentMask sta) as [mask|] eqn:Em; [|by left].
    destruct (truthy (activeClass s)) as [name|] eqn:Et; [|by left].
    destruct (findClassByName name s) as [classInfo|] eqn:Ec; [|by left].
    right. left. eexists a, sta, _. cbn [stateOf].
    rewrite imagesState_updateAllUI.
    split; [by apply Hactive|]. split; [reflexivity|].
    apply truthy_Some in Et as [Et _].
    by apply (EntryMaskSaved s a sta mask name classInfo).
  - unfold clearPointsClick.
    destruct (activeImageId s) as [a|] eqn:Ea; [|by left].
    destruct (getActiveImageState s) as [sta|] eqn:Es; [|by left].
    destruct (_ || _); [|by left].
    right. left. eexists a, sta, _. rewrite imagesState_updateAllUI.
    split; [by apply Hactive|]. split; [reflexivity|]. by constructor.
  - left. unfold addClassClick. by destruct (_ && _).
  - left. by destruct (classListContainer s !! k).
  - unfold masksListClick.
    destruct (masksListContainer s !! k) as [maskIndex|] eqn:Ek; [|by left].
    destruct (activeImageId s) as [a|] eqn:Ea; [|by left].
    destruct (getActiveImageState s) as [sta|] eqn:Es; [|by left].
    right. left. eexists a, sta, _.
    split; [by apply Hactive|]. split; [reflexivity|].
    by apply (EntryHighlighted s a sta k maskIndex).
  - left. apply imagesState_generateMaskResume.
  - unfold coloredMaskResolved.
    destruct (pendingMasks s !! k) as [[a coloredMask]|] eqn:Ek; [|by left].
    cbn. destruct (imagesState s !! a) as [sta|] eqn:Ha; [|by left].
    right. left. eexists a, sta, _. rewrite imagesState_updateAllUI.
    split; [done|]. split; [reflexivity|]. by constructor.
  - left. apply imagesState_updateAllUI.
Qed.

Lemma step_entry (ev : Event) (s : App) (i : nat) (st : ImageState) :
  entryOf s i = Some st ->
  exists st', entryOf (step ev s) i = Some st' /\ EntryChange s i st ev st'.
Proof.
  unfold entryOf. intros Hi.
  destruct (imagesState_step ev s)
    as [->|[(a & sta & st1 & Ha & -> & Hch)|(img & url & _ & ->)]].
  - exists st. split; [done|constructor].
  - destruct (decide (a = i)) as [->|Hne].
    + rewrite list_lookup_insert_eq by (by eapply lookup_lt_Some).
      exists st1. split; [done|]. by assert (sta = st) as <- by congruence.
    + rewrite list_lookup_insert_ne by done.
      exists st. split; [done|constructor].
  - exists st. split; [|constructor]. by apply lookup_app_l_Some.
Qed.

(** An entry that appears was pushed by the loader. *)
Lemma step_entry_new (ev : Event) (s : App) (i : nat) (st' : ImageState) :
  entryOf s i = None -> entryOf (step ev s) i = Some st' ->
  exists img url, st' = mkImageState img url [] None [] None.
Proof.
  unfold entryOf. intros Hnone Hi.
  destruct (imagesState_step ev s)
    as [E|[(a & sta & st1 & Ha & E & Hch)|(img & url & _ & E)]];
    rewrite E in Hi.
  - congruence.
  - apply lookup_ge_None in Hnone. apply lookup_lt_Some in Hi.
    rewrite length_insert in Hi. lia.
  - apply lookup_app_Some in Hi as [Hi|[_ Hi]]; [congruence|].
    apply list_lookup_singleton_Some in Hi as [_ <-]. eauto.
Qed.

(** A property of entries holds in every reachable store when fresh entries
    have it and every change of an entry keeps it. *)
Lemma reachable_entries (P : App -> ImageState -> Prop) :
  (forall s img url, P s (mkImageState img url [] None [] None)) ->
  (forall ev s i st st',
     reachable s -> entryOf s i = Some st -> P s st ->
     EntryChange s i st ev st' -> P (step ev s) st') ->
  forall s, reachable s -> forall i st, entryOf s i = Some st -> P s st.
Proof.
  intros Hfresh Hchange s [evs ->].
  induction evs as [|ev evs IH] using rev_ind; intros i st Hi.
  - unfold entryOf in Hi. cbn in Hi. by rewrite lookup_nil in Hi.
  - rewrite run_snoc in *. set (s := run evs initialApp) in *.
    assert (Hr : reachable s) by (by exists evs).
    destruct (entryOf s i) as [st0|] eqn:E0.
    + destruct (step_entry ev s i st0 E0) as (st' & Hi' & Hch).
      assert (st' = st) as -> by congruence. eauto.
    + destruct (step_entry_new ev s i st E0 Hi) as (img & url & ->).
      apply Hfresh.
Qed.

(** ** The class registry over time *)

Lemma classes_generateMask s : classes (generateMask s) = classes s.
Proof.
  unfold generateMask. destruct (activeImageId s); [|done].
  destruct (getActiveImageState s); [|done].
  by destruct (length (points _) =? 0)%nat.
Qed.

Lemma classes_step ev s :
  classes (step ev s) = classes s
  \/ exists name color,
       ev = AddClassClick name color /\ name <> ""
       /\ findClassByName name s = None
       /\ classes (step ev s) = classes s ++ [ClassInfo.mk name color].
Proof.
  pose proof (fun s0 => proj1 (proj2 (proj2 (sameVars_updateAllUI s0)))) as Hc.
  destruct ev; cbn [step].
  - by left.
  - left. unfold imagesAllLoaded, setActiveImage. destruct (_ && _); [|done].
    by rewrite Hc.
  - left. destruct (imageThumbnailList s !! k); [|done].
    unfold setActiveImage. by rewrite Hc.
  - left. unfold canvasMouseDown. destruct (activeImageId s); [|done].
    destruct (getActiveImageState s); [|done]. destruct (isPredicting s); [done|].
    by rewrite classes_generateMask.
  - left. unfold saveMaskClick. destruct (activeImageId s); [|done].
    destruct (getActiveImageState s); [|done]. destruct (currentMask _); [|done].
    destruct (truthy _); [|done]. destruct (findClassByName _ _); [|done].
    cbn [stateOf]. by rewrite Hc.
  - left. unfold clearPointsClick. destruct (activeImageId s); [|done].
    destruct (getActiveImageState s); [|done]. destruct (_ || _); [|done].
    by rewrite Hc.
  - unfold addClassClick. destruct (_ && _) eqn:E; [|by left].
    right. exists name, color. apply andb_true_iff in E as [E1 E2].
    apply negb_true_iff in E1, E2. apply String.eqb_neq in E1.
    apply bool_decide_eq_false in E2. repeat split; try done.
    destruct (findClassByName name s); [|done]. exfalso. apply E2. by eexists.
  - left. by destruct (classListContainer s !! k).
  - left. unfold masksListClick. destruct (masksListContainer s !! k); [|done].
    destruct (activeImageId s); [|done]. by destruct (getActiveImageState s).
  - left. unfold generateMaskResume. destruct (pendingFetches s !! k); [|done].
    destruct r as [|mask]; [done|]. cbn. destruct (truthy _); [|done].
    by destruct (List.find _ _).
  - left. unfold coloredMaskResolved.
    destruct (pendingMasks s !! k) as [[a m]|]; [|done]. cbn.
    destruct (imagesState s !! a); [|done]. by rewrite Hc.
  - left. apply Hc.
Qed.


Lemma findClassByName_None n s :
  findClassByName n s = None -> n ∉ (ClassInfo.name <$> classes s).
Proof.
  intros H Hin. apply list_elem_of_fmap in Hin as (c & -> & Hc).
  destruct (findClassByName_of_name s c Hc) as [c' Hc']. congruence.
Qed.

Lemma uniqueNames_step ev s : uniqueNames s -> uniqueNames (step ev s).
Proof.
  unfold uniqueNames. intros H.
  destruct (classes_step ev s) as [->|(name & color & _ & _ & Hnone & ->)];
    [done|].
  rewrite fmap_app. apply NoDup_app. split; [done|]. split.
  - intros n Hn Hn'. cbn in Hn'. apply list_elem_of_singleton in Hn' as ->.
    by apply (findClassByName_None name s).
  - cbn. apply NoDup_singleton.
Qed.

Lemma uniqueNames_reachable s : reachable s -> uniqueNames s.
Proof.
  intros [evs ->]. unfold run.
  assert (H : uniqueNames initialApp) by (unfold uniqueNames; cbn; constructor).
  revert H. generalize initialApp. induction evs as [|ev evs IH]; intros s H; [done|].
  cbn. apply IH. by apply uniqueNames_step.
Qed.

Lemma find_NoDup_name l c :
  NoDup (ClassInfo.name <$> l) -> c ∈ l ->
  List.find (fun c0 => String.eqb (ClassInfo.name c0) (ClassInfo.name c)) l
  = Some c.
Proof.
  induction l as [|a l IH]; intros Hnd Hin; [by apply elem_of_nil in Hin|].
  cbn in *. apply NoDup_cons in Hnd as [Hna Hnd].
  destruct (String.eqb_spec (ClassInfo.name a) (ClassInfo.name c)) as [E|E].
  - apply elem_of_cons in Hin as [->|Hin]; [done|].
    exfalso. apply Hna. rewrite E. apply list_elem_of_fmap. eauto.
  - apply elem_of_cons in Hin as [->|Hin]; [done|]. by apply IH.
Qed.

(** X3.  In every reachable store the class names are pairwise distinct
    and non-empty, looking a class up by its name finds that very class, no
    event removes or reorders classes, and adding a class whose name is
    already registered changes nothing. *)
Theorem class_registry (s : App) :
  reachable s ->
  NoDup (ClassInfo.name <$> classes s)
  /\ (forall c, c ∈ classes s ->
        ClassInfo.name c <> ""
        /\ findClassByName (ClassInfo.name c) s = Some c)
  /\ (forall ev, classes s `prefix_of` classes (step ev s))
  /\ (forall name color,
        is_Some (findClassByName name s) ->
        step (AddClassClick name color) s = s).
Proof.
  intros Hr. pose proof (uniqueNames_reachable s Hr) as Hnd.
  destruct (Inv_reachable s Hr) as [HC _]. repeat split.
  - done.
  - by apply (core_names s HC).
  - by apply find_NoDup_name.
  - intros ev.
    destruct (classes_step ev s) as [->|(name & color & _ & _ & _ & ->)];
      [done|]. by apply prefix_app_r.
  - intros name color Hsome. cbn. unfold addClassClick.
    rewrite (bool_decide_eq_true_2 _ Hsome). by rewrite andb_false_r.
Qed.

Lemma class_registry_witness :
  let s := run (opened ++ [AddClassClick "cat" "#00ff00"]) initialApp in
  step (AddClassClick "cat" "#123456") s = s.
Proof.
  intros s.
  apply (class_registry s (ex_intro _ _ eq_refl)).
  by exists (ClassInfo.mk "cat" "#00ff00").
Defined.

(** ** Entries over time *)

Lemma EntryChange_keeps s i st ev st' :
  EntryChange s i st ev st' ->
  imageElement st' = imageElement st
  /\ imageDataUrl st' = imageDataUrl st
  /\ (savedMasks st' = savedMasks st
      \/ ev = SaveMaskClick /\ activeImageId s = Some i
         /\ exists saved, savedMasks st' = savedMasks st ++ [saved]
                          /\ Some (maskImageObject saved) = currentMask st).
Proof.
  intros [ | | | | | ]; cbn; repeat split; try (by left).
  right. repeat split; try done. eexists. split; [reflexivity|]. done.
Qed.

(** X4.  An event changes no entry other than the active one, except
    that the delivery of a colored mask writes the entry captured when the
    mask was requested: every other entry is left exactly as it is. *)
Theorem other_entries_untouched (ev : Event) (s : App) (j : nat)
    (st : ImageState) :
  entryOf s j = Some st ->
  activeImageId s <> Some j ->
  (forall k coloredMask,
     ev = ColoredMaskResolved k -> pendingMasks s !! k <> Some (j, coloredMask)) ->
  entryOf (step ev s) j = Some st.
Proof.
  intros Hj Hna Hnd. destruct (step_entry ev s j st Hj) as (st' & Hj' & Hch).
  rewrite Hj'. f_equal.
  inversion Hch; subst; try done. by edestruct Hnd.
Qed.

Lemma other_entries_untouched_witness :
  let s := run twoPhotos initialApp in
  entryOf (step (leftClick 1 0) s) 1 = Some (freshEntry "data:b").
Proof.
  intros s.
  apply (other_entries_untouched (leftClick 1 0) s 1 (freshEntry "data:b")).
  - reflexivity.
  - vm_compute. discriminate.
  - intros k coloredMask E. discriminate E.
Defined.

(** X5.  Over any sequence of events an entry stays at its index with
    the same image and data URL, and its earlier list of saved masks is a
    prefix of the later one: saved masks are never removed, reordered or
    edited. *)
Theorem saved_masks_append_only (evs : list Event) :
  forall s i st,
    entryOf s i = Some st ->
    exists st',
      entryOf (run evs s) i = Some st'
      /\ imageElement st' = imageElement st
      /\ imageDataUrl st' = imageDataUrl st
      /\ savedMasks st `prefix_of` savedMasks st'.
Proof.
  induction evs as [|ev evs IH]; intros s i st Hi.
  - exists st. by repeat split.
  - destruct (step_entry ev s i st Hi) as (st1 & Hi1 & Hch).
    destruct (EntryChange_keeps _ _ _ _ _ Hch) as (He & Hu & Hs).
    destruct (IH (step ev s) i st1 Hi1) as (st' & Hi' & He' & Hu' & Hs').
    exists st'. cbn. split; [done|]. split; [congruence|].
    split; [congruence|]. etrans; [|exact Hs'].
    destruct Hs as [->|(_ & _ & saved & -> & _)]; [done|]. by apply prefix_app_r.
Qed.

Lemma saved_masks_append_only_witness :
  exists st',
    entryOf (run [SaveMaskClick; leftClick 1 0] (run maskReady initialApp)) 0
    = Some st'
    /\ imageElement st' = photo
    /\ imageDataUrl st' = "data:photo"
    /\ [] `prefix_of` savedMasks st'.
Proof.
  exact (saved_masks_append_only [SaveMaskClick; leftClick 1 0]
           (run maskReady initialApp) 0
           (mkImageState photo "data:photo" [Point.mk 0 0 1] (Some redMask)
                         [] None)
           eq_refl).
Defined.

(** X6.  The saved masks of an entry change only by a click on the save
    button while that entry is active; the click appends exactly one saved
    mask, whose image is the pending mask, and leaves the entry without
    points and without pending mask. *)
Theorem saved_masks_change_by_save (ev : Event) (s : App) (i : nat)
    (st st' : ImageState) :
  entryOf s i = Some st -> entryOf (step ev s) i = Some st' ->
  savedMasks st' <> savedMasks st ->
  ev = SaveMaskClick /\ activeImageId s = Some i
  /\ exists saved,
       savedMasks st' = savedMasks st ++ [saved]
       /\ currentMask st = Some (maskImageObject saved)
       /\ points st' = [] /\ currentMask st' = None.
Proof.
  intros Hi Hi' Hne. destruct (step_entry ev s i st Hi) as (st1 & Hi1 & Hch).
  assert (st1 = st') as -> by congruence.
  inversion Hch; subst; cbn in *; try done.
  repeat split; try done. eexists. repeat split. done.
Qed.

Lemma saved_masks_change_by_save_witness :
  let s := run maskReady initialApp in
  activeImageId s = Some 0%nat
  /\ exists saved,
       [mkSavedMask redMask redMask "cat" "#00ff00"] = [] ++ [saved]
       /\ Some redMask = Some (maskImageObject saved)
       /\ @nil Point.t = [] /\ @None Img.t = None.
Proof.
  intros s.
  apply (saved_masks_change_by_save SaveMaskClick s 0
           (mkImageState photo "data:photo" [Point.mk 0 0 1] (Some redMask)
                         [] None)
           (mkImageState photo "data:photo" [] None
                         [mkSavedMask redMask redMask "cat" "#00ff00"] None)
           eq_refl eq_refl).
  cbn. discriminate.
Defined.

(** X8.  In every reachable store every point of every entry has label
    0 or 1. *)
Theorem point_labels_binary (s : App) (i : nat) (st : ImageState) (p : Point.t) :
  reachable s -> entryOf s i = Some st -> p ∈ points st ->
  Point.label p = 0 \/ Point.label p = 1.
Proof.
  intros Hr Hi Hp.
  assert (H : binaryLabels st).
  { apply (reachable_entries (fun _ st => binaryLabels st)) with s i;
      try done.
    - intros. constructor.
    - intros ev s0 i0 st0 st0' _ _ H0 Hch. unfold binaryLabels in *.
      inversion Hch; subst; cbn; try done; try constructor.
      apply Forall_app. split; [done|]. constructor; [|constructor].
      cbn. destruct (_ =? _); auto. }
  by apply (proj1 (Forall_forall _ _) H).
Qed.

Lemma point_labels_binary_witness : (1 = 0 \/ 1 = 1)%Z.
Proof.
  apply (point_labels_binary (run (opened ++ [leftClick 0 0]) initialApp) 0
           (mkImageState photo "data:photo" [Point.mk 0 0 1] None [] None)
           (Point.mk 0 0 1) (ex_intro _ _ eq_refl) eq_refl).
  apply list_elem_of_here.
Defined.

(** ** The export request and the buttons *)




(** X10.  In every reachable store [updateButtonsState] does not
    throw, and the flags it assigns agree with the handlers: when it disables
    the save (clear) button a click on it would change nothing, when it
    enables the save button a click appends one saved mask to the active
    entry, when it enables the clear button the active entry has points or a
    pending mask and a click removes them; the export button is disabled
    exactly when the export handler would send nothing. *)
Theorem buttons_agree_with_handlers (s : App) :
  reachable s ->
  exists b,
    updateButtonsState s = Some b
    /\ (saveMaskDisabled b = true -> step SaveMaskClick s = s)
    /\ (saveMaskDisabled b = false ->
        exists i st st',
          activeImageId s = Some i /\ entryOf s i = Some st
          /\ entryOf (step SaveMaskClick s) i = Some st'
          /\ length (savedMasks st') = S (length (savedMasks st)))
    /\ (clearPointsDisabled b = true -> step ClearPointsClick s = s)
    /\ (clearPointsDisabled b = false ->
        exists i st,
          activeImageId s = Some i /\ entryOf s i = Some st
          /\ (points st <> [] \/ currentMask st <> None)
          /\ entryOf (step ClearPointsClick s) i
             = Some (withCurrentMask None (withPoints [] st)))
    /\ (exportDisabled b = true <-> exportPayload s = None).
Proof.
  intros Hr. destruct (Inv_reachable s Hr) as [HC _].
  unfold updateButtonsState, exportPayload. cbn [step].
  unfold saveMaskClick, clearPointsClick, getActiveImageState, entryOf.
  destruct (activeImageId s) as [i|] eqn:Ea.
  - pose proof (core_active s HC i Ea) as Hlt.
    apply lookup_lt_is_Some in Hlt as [st Hst]. rewrite Hst.
    eexists. split; [reflexivity|]. cbn [saveMaskDisabled clearPointsDisabled exportDisabled].
    split; [|split; [|split; [|split]]].
    + intros Hd. apply negb_true_iff, andb_false_iff in Hd as [Hd|Hd];
        apply bool_decide_eq_false in Hd.
      * destruct (currentMask st); [|done]. exfalso. apply Hd. by eexists.
      * destruct (currentMask st); [|done].
        destruct (truthy (activeClass s)); [|done]. exfalso. apply Hd. by eexists.
    + intros Hd. apply negb_false_iff, andb_true_iff in Hd as [Hm Hc].
      apply bool_decide_eq_true in Hm as [mask Hm], Hc as [name Hn].
      rewrite Hm, Hn. apply truthy_Some in Hn as [Hn _].
      destruct (core_activeClass s HC name Hn) as [c Hc]. rewrite Hc.
      cbn [stateOf]. rewrite imagesState_updateAllUI. cbn.
      eexists i, st, _. split; [done|]. split; [done|]. split.
      * apply list_lookup_insert_eq. by eapply lookup_lt_Some.
      * cbn. rewrite length_app. cbn. lia.
    + intros Hd. apply negb_true_iff in Hd. by rewrite Hd.
    + intros Hd. apply negb_false_iff in Hd. rewrite Hd.
      rewrite imagesState_updateAllUI. cbn.
      exists i, st. split; [done|]. split; [done|]. split.
      * apply orb_true_iff in Hd as [Hd|Hd].
        -- left. apply Nat.ltb_lt in Hd. destruct (points st); [cbn in Hd; lia|done].
        -- right. apply bool_decide_eq_true in Hd as [m ->]. done.
      * apply list_lookup_insert_eq. by eapply lookup_lt_Some.
    + destruct (length (imagesState s) =? 0)%nat; split; done.
  - eexists. split; [reflexivity|]. cbn. repeat split; try done.
    all: destruct (length (imagesState s) =? 0)%nat; done.
Qed.

Lemma buttons_agree_with_handlers_witness :
  let s := run maskReady initialApp in
  exists b, updateButtonsState s = Some b.
Proof.
  intros s.
  destruct (buttons_agree_with_handlers s (ex_intro _ _ eq_refl)) as (b & Hb & _).
  by exists b.
Defined.

(** ** The canvas and accepted clicks *)

Lemma canvasFitsActiveImage_updateAllUI s : canvasFitsActiveImage (updateAllUI s).
Proof.
  intros st. unfold updateAllUI.
  destruct (getActiveImageState s) as [st0|] eqn:E;
    unfold getActiveImageState in *; cbn; rewrite E; [|done].
  by intros [= <-].
Qed.

(** An event either ends in [updateAllUI], or leaves the canvas size and
    the active image as they are. *)
Lemma step_canvas ev s :
  (exists s0, step ev s = updateAllUI s0)
  \/ (canvasWidth (step ev s) = canvasWidth s
      /\ canvasHeight (step ev s) = canvasHeight s
      /\ activeImageId (step ev s) = activeImageId s).
Proof.
  assert (Hgen : forall s0, canvasWidth (generateMask s0) = canvasWidth s0
                   /\ canvasHeight (generateMask s0) = canvasHeight s0
                   /\ activeImageId (generateMask s0) = activeImageId s0).
  { intros s0. unfold generateMask.
    destruct (activeImageId s0) eqn:E; [|by rewrite E].
    destruct (getActiveImageState s0); [|by rewrite E].
    destruct (length _ =? 0)%nat; cbn; by rewrite E. }
  destruct ev; cbn [step].
  - by right.
  - unfold imagesAllLoaded, setActiveImage.
    destruct (_ && _); [left; eauto|by right].
  - destruct (imageThumbnailList s !! k);
      [left; unfold setActiveImage; eauto|by right].
  - right. unfold canvasMouseDown.
    destruct (activeImageId s) as [a|] eqn:Ea; [|by rewrite Ea].
    destruct (getActiveImageState s) as [sta|]; [|by rewrite Ea].
    destruct (isPredicting s); [by rewrite Ea|].
    destruct (Hgen (writeEntry a (withPoints (points sta ++
      [mousedownPoint e rect (canvasWidth s) (canvasHeight s)]) sta) s))
      as (-> & -> & ->). cbn. by rewrite Ea.
  - unfold saveMaskClick.
    destruct (activeImageId s) as [a|] eqn:Ea; [|right; cbn; by rewrite Ea].
    destruct (getActiveImageState s); [|right; cbn; by rewrite Ea].
    destruct (currentMask _); [|right; cbn; by rewrite Ea].
    destruct (truthy _); [|right; cbn; by rewrite Ea].
    destruct (findClassByName _ _); [left; cbn; eauto|right; cbn; by rewrite Ea].
  - unfold clearPointsClick.
    destruct (activeImageId s) as [a|] eqn:Ea; [|right; by rewrite Ea].
    destruct (getActiveImageState s); [|right; by rewrite Ea].
    destruct (_ || _); [left; eauto|right; by rewrite Ea].
  - right. unfold addClassClick. by destruct (_ && _).
  - right. by destruct (classListContainer s !! k).
  - right. unfold masksListClick. destruct (masksListContainer s !! k); [|done].
    destruct (activeImageId s) as [a|] eqn:Ea; [|by rewrite Ea].
    destruct (getActiveImageState s); cbn; by rewrite Ea.
  - right. unfold generateMaskResume. destruct (pendingFetches s !! k); [|done].
    destruct r as [|mask]; [done|]. cbn. destruct (truthy _); [|done].
    by destruct (List.find _ _).
  - unfold coloredMaskResolved.
    destruct (pendingMasks s !! k) as [[a m]|]; [|by right]. cbn.
    destruct (imagesState s !! a); [left; eauto|by right].
  - left. eauto.
Qed.

Lemma canvasFitsActiveImage_step ev s :
  reachable s -> canvasFitsActiveImage s -> canvasFitsActiveImage (step ev s).
Proof.
  intros Hr Hfit.
  destruct (step_canvas ev s) as [[s0 ->]|(Hw & Hh & Ha)];
    [apply canvasFitsActiveImage_updateAllUI|].
  intros st' Hst'. rewrite Hw, Hh.
  destruct (getActiveImageState_lt _ _ Hst') as (i & Hi & Hst). rewrite Ha in Hi.
  destruct (Inv_reachable s Hr) as [HC _].
  pose proof (core_active s HC i Hi) as Hlt.
  apply lookup_lt_is_Some in Hlt as [st Hs].
  destruct (step_entry ev s i st Hs) as (st1 & Hs1 & Hch).
  assert (st1 = st') as -> by (unfold entryOf in Hs1; congruence).
  destruct (EntryChange_keeps _ _ _ _ _ Hch) as (-> & _ & _).
  apply Hfit. by apply getActiveImageState_Some with i.
Qed.

Lemma canvasFitsActiveImage_reachable s :
  reachable s -> canvasFitsActiveImage s.
Proof.
  intros [evs ->].
  induction evs as [|ev evs IH] using rev_ind; [done|].
  rewrite run_snoc. apply canvasFitsActiveImage_step; [by exists evs|exact IH].
Qed.

(** X11.  In every reachable store with an active image the canvas
    has the pixel size of that image. *)
Theorem canvas_has_active_image_size (s : App) (st : ImageState) :
  reachable s -> getActiveImageState s = Some st ->
  canvasWidth s = Img.width (imageElement st)
  /\ canvasHeight s = Img.height (imageElement st).
Proof.
  intros Hr. revert st. by apply canvasFitsActiveImage_reachable.
Qed.

Lemma canvas_has_active_image_size_witness :
  let s := run opened initialApp in
  canvasWidth s = 2 /\ canvasHeight s = 1.
Proof.
  intros s.
  exact (canvas_has_active_image_size s (freshEntry "data:photo")
           (ex_intro _ _ eq_refl) eq_refl).
Defined.

(** X12.  In every reachable store with an active image and no request
    outstanding, a mousedown appends one point to the active entry, leaves
    its other fields as they are, and leaves exactly one request
    outstanding, for that entry.  The point has label 1 for button 0 and 0
    otherwise; for a pointer inside the displayed canvas (displayed size
    between [2^(-250)] and [2^250], image size up to [2^32]) its x lies
    between the roundings of
    [(clientX - left) * imageWidth / displayedWidth] minus and plus
    [2^(-18)] and in [0, imageWidth], and its y likewise. *)
Theorem mousedown_accepted (s : App) (i : nat) (st : ImageState)
    (e : MouseEvent.t) (rect : DOMRect.t) :
  reachable s ->
  activeImageId s = Some i -> entryOf s i = Some st ->
  pendingFetches s = [] ->
  let s' := step (CanvasMouseDown e rect) s in
  let imageWidth := Img.width (imageElement st) in
  let imageHeight := Img.height (imageElement st) in
  let p := mousedownPoint e rect imageWidth imageHeight in
  let dx := (MouseEvent.clientX e - DOMRect.left rect)%Q in
  let dy := (MouseEvent.clientY e - DOMRect.top rect)%Q in
  let exactX := (dx * (inject_Z imageWidth / DOMRect.width rect))%Q in
  let exactY := (dy * (inject_Z imageHeight / DOMRect.height rect))%Q in
  entryOf s' i = Some (withPoints (points st ++ [p]) st)
  /\ pendingFetches s' = [i]
  /\ isPredicting s' = true
  /\ Point.label p = (if MouseEvent.button e =? 0 then 1 else 0)
  /\ ((0 <= dx)%Q -> (dx <= DOMRect.width rect)%Q ->
      (pow2 (-250) <= DOMRect.width rect)%Q ->
      (DOMRect.width rect <= pow2 250)%Q ->
      0 <= imageWidth <= 2 ^ 32 ->
      (Math_round (exactX - pow2 (-18)) <= Point.x p
       <= Math_round (exactX + pow2 (-18)))
      /\ 0 <= Point.x p <= imageWidth)
  /\ ((0 <= dy)%Q -> (dy <= DOMRect.height rect)%Q ->
      (pow2 (-250) <= DOMRect.height rect)%Q ->
      (DOMRect.height rect <= pow2 250)%Q ->
      0 <= imageHeight <= 2 ^ 32 ->
      (Math_round (exactY - pow2 (-18)) <= Point.y p
       <= Math_round (exactY + pow2 (-18)))
      /\ 0 <= Point.y p <= imageHeight).
Proof.
  intros Hr Ha Hi Hnone s' imageWidth imageHeight p dx dy exactX exactY.
  assert (Hstore : entryOf s' i = Some (withPoints (points st ++ [p]) st)
                   /\ pendingFetches s' = [i] /\ isPredicting s' = true).
  { subst s' p imageWidth imageHeight.
    pose proof (getActiveImageState_Some s i st Ha Hi) as Hs.
    destruct (canvasFitsActiveImage_reachable s Hr st Hs) as [<- <-].
    assert (Hp : isPredicting s = false).
    { destruct (isPredicting s) eqn:E; [|done].
      by apply (outstanding_isPredicting s Hr) in E. }
    cbn [step]. unfold canvasMouseDown. rewrite Ha, Hs, Hp.
    set (st' := withPoints _ st).
    assert (Hs' : getActiveImageState (writeEntry i st' s) = Some st').
    { unfold getActiveImageState. cbn. rewrite Ha.
      apply list_lookup_insert_eq. by eapply lookup_lt_Some. }
    unfold generateMask. rewrite Hs'.
    cbn [activeImageId writeEntry setImagesState]. rewrite Ha.
    assert (Hlen : (length (points st') =? 0)%nat = false).
    { apply Nat.eqb_neq. subst st'. cbn. rewrite length_app. cbn. lia. }
    rewrite Hlen. unfold entryOf. cbn. rewrite Hnone. split; [|done].
    apply list_lookup_insert_eq. by eapply lookup_lt_Some. }
  destruct Hstore as (H1 & H2 & H3).
  split; [done|]. split; [done|]. split; [done|]. split; [done|].
  subst p. unfold mousedownPoint. cbn [Point.x Point.y].
  split; apply coordinate_accuracy.
Qed.

Lemma mousedown_accepted_witness :
  let s := run opened initialApp in
  let s' := step (leftClick 1 0) s in
  entryOf s' 0
  = Some (withPoints ([] ++ [Point.mk 1 0 1]) (freshEntry "data:photo"))
  /\ pendingFetches s' = [0%nat] /\ isPredicting s' = true.
Proof.
  intros s.
  destruct (mousedown_accepted s 0 (freshEntry "data:photo")
              (MouseEvent.mk 1 0 0) photoRect
              (ex_intro _ _ eq_refl) eq_refl eq_refl eq_refl)
    as (H1 & H2 & H3 & _).
  split; [exact H1|]. split; [exact H2|exact H3].
Defined.

(** ** Repeating and ordering clicks *)

Lemma getActiveImageState_updateAllUI s :
  getActiveImageState (updateAllUI s) = getActiveImageState s.
Proof.
  unfold getActiveImageState.
  destruct (sameVars_updateAllUI s) as (-> & -> & _). done.
Qed.

(** A save or a clear that changes the store leaves the active entry with no
    points and no pending mask. *)
Lemma save_clear_result ev s :
  ev = SaveMaskClick \/ ev = ClearPointsClick ->
  step ev s = s
  \/ exists i st',
       step ev s = updateAllUI (writeEntry i st' s)
       /\ activeImageId s = Some i /\ is_Some (imagesState s !! i)
       /\ points st' = [] /\ currentMask st' = None.
Proof.
  intros [->| ->]; cbn [step].
  - unfold saveMaskClick.
    destruct (activeImageId s) as [i|] eqn:Ea; [|by left].
    destruct (getActiveImageState s) as [st|] eqn:Es; [|by left].
    destruct (currentMask st) as [mask|] eqn:Em; [|by left].
    destruct (truthy (activeClass s)) as [name|] eqn:Et; [|by left].
    destruct (findClassByName name s) as [c|] eqn:Ec; [|by left].
    right. eexists i, _. split; [reflexivity|]. repeat split.
    unfold getActiveImageState in Es. rewrite Ea in Es. by eexists.
  - unfold clearPointsClick.
    destruct (activeImageId s) as [i|] eqn:Ea; [|by left].
    destruct (getActiveImageState s) as [st|] eqn:Es; [|by left].
    destruct (_ || _) eqn:E; [|by left].
    right. eexists i, _. split; [reflexivity|]. repeat split.
    unfold getActiveImageState in Es. rewrite Ea in Es. by eexists.
Qed.

(** X13.  A second click on the save button right after a first one
    changes nothing, so a mask is never saved twice; the same holds for the
    clear button, and a save right after a clear changes nothing. *)
Theorem save_and_clear_idempotent (s : App) :
  step SaveMaskClick (step SaveMaskClick s) = step SaveMaskClick s
  /\ step ClearPointsClick (step ClearPointsClick s) = step ClearPointsClick s
  /\ step SaveMaskClick (step ClearPointsClick s) = step ClearPointsClick s.
Proof.
  assert (Hdone : forall i st' s0,
            activeImageId s0 = Some i -> is_Some (imagesState s0 !! i) ->
            points st' = [] -> currentMask st' = None ->
            let s1 := updateAllUI (writeEntry i st' s0) in
            step SaveMaskClick s1 = s1 /\ step ClearPointsClick s1 = s1).
  { intros i st' s0 Ha [st0 Hi] Hp Hm s1.
    assert (Hs1 : getActiveImageState s1 = Some st').
    { subst s1. rewrite getActiveImageState_updateAllUI.
      unfold getActiveImageState. cbn. rewrite Ha.
      apply list_lookup_insert_eq. by eapply lookup_lt_Some. }
    assert (Ha1 : activeImageId s1 = Some i).
    { subst s1. by destruct (sameVars_updateAllUI (writeEntry i st' s0))
        as (_ & -> & _). }
    cbn [step]. unfold saveMaskClick, clearPointsClick.
    rewrite Ha1, Hs1, Hm, Hp. done. }
  assert (Hboth : forall ev,
            ev = SaveMaskClick \/ ev = ClearPointsClick ->
            (step ev s = s
             \/ (step SaveMaskClick (step ev s) = step ev s
                 /\ step ClearPointsClick (step ev s) = step ev s))).
  { intros ev Hev.
    destruct (save_clear_result ev s Hev)
      as [E|(i & st' & E & Ha & Hi & Hp & Hm)]; [by left|right].
    rewrite E. by apply Hdone. }
  split; [|split].
  - destruct (Hboth SaveMaskClick (or_introl eq_refl)) as [Es|[Es1 _]];
      [by rewrite !Es|done].
  - destruct (Hboth ClearPointsClick (or_intror eq_refl)) as [Ec|[_ Ec2]];
      [by rewrite !Ec|done].
  - cbn [step]. unfold clearPointsClick.
    destruct (activeImageId s) as [i|] eqn:Ea;
      [|unfold saveMaskClick; by rewrite Ea].
    destruct (getActiveImageState s) as [st|] eqn:Es;
      [|unfold saveMaskClick; by rewrite Ea, Es].
    destruct (_ || _) eqn:E.
    + apply Hdone; try done.
      unfold getActiveImageState in Es. rewrite Ea in Es. by eexists.
    + apply orb_false_iff in E as [_ E]. apply bool_decide_eq_false in E.
      unfold saveMaskClick. rewrite Ea, Es.
      destruct (currentMask st); [|done]. exfalso. apply E. by eexists.
Qed.

Lemma activeImageId_updateAllUI s :
  activeImageId (updateAllUI s) = activeImageId s.
Proof. by destruct (sameVars_updateAllUI s) as (_ & -> & _). Qed.

Lemma activeImageId_generateMask s :
  activeImageId (generateMask s) = activeImageId s.
Proof.
  unfold generateMask. destruct (activeImageId s) eqn:E; [|by rewrite E].
  destruct (getActiveImageState s); [|by rewrite E].
  destruct (length _ =? 0)%nat; cbn; by rewrite E.
Qed.

Lemma activeImageId_step ev s :
  activeImageId (step ev s) = activeImageId s
  \/ (ev = ImagesAllLoaded /\ activeImageId s = None
      /\ imagesState s <> [] /\ activeImageId (step ev s) = Some 0%nat)
  \/ (exists k index,
        ev = ThumbnailClick k /\ imageThumbnailList s !! k = Some index
        /\ activeImageId (step ev s) = Some index).
Proof.
  destruct ev; cbn [step].
  - by left.
  - unfold imagesAllLoaded. destruct (_ && _) eqn:E; [|by left].
    right. left. apply andb_true_iff in E as [E1 E2].
    apply bool_decide_eq_true in E1. apply Nat.ltb_lt in E2.
    repeat split; try done.
    + destruct (imagesState s); [cbn in E2; lia|done].
    + unfold setActiveImage. by rewrite activeImageId_updateAllUI.
  - destruct (imageThumbnailList s !! k) as [index|] eqn:Ek; [|by left].
    right. right. exists k, index. repeat split; try done.
    unfold setActiveImage. by rewrite activeImageId_updateAllUI.
  - left. unfold canvasMouseDown.
    destruct (activeImageId s) as [a|] eqn:Ea; [|by rewrite Ea].
    destruct (getActiveImageState s) as [sta|]; [|by rewrite Ea].
    destruct (isPredicting s); [by rewrite Ea|].
    rewrite activeImageId_generateMask. cbn. by rewrite Ea.
  - left. unfold saveMaskClick.
    destruct (activeImageId s) as [a|] eqn:Ea; [|cbn; by rewrite Ea].
    destruct (getActiveImageState s); [|cbn; by rewrite Ea].
    destruct (currentMask _); [|cbn; by rewrite Ea].
    destruct (truthy _); [|cbn; by rewrite Ea].
    destruct (findClassByName _ _); [|cbn; by rewrite Ea].
    cbn [stateOf]. rewrite activeImageId_updateAllUI. cbn. by rewrite Ea.
  - left. unfold clearPointsClick.
    destruct (activeImageId s) as [a|] eqn:Ea; [|by rewrite Ea].
    destruct (getActiveImageState s) as [sta|]; [|by rewrite Ea].
    destruct (_ || _); [|by rewrite Ea].
    rewrite activeImageId_updateAllUI. cbn. by rewrite Ea.
  - left. unfold addClassClick. by destruct (_ && _).
  - left. by destruct (classListContainer s !! k).
  - left. unfold masksListClick. destruct (masksListContainer s !! k); [|done].
    destruct (activeImageId s) as [a|] eqn:Ea; [|by rewrite Ea].
    destruct (getActiveImageState s); cbn; by rewrite Ea.
  - left. unfold generateMaskResume. destruct (pendingFetches s !! k); [|done].
    destruct r as [|mask]; [done|]. cbn. destruct (truthy _); [|done].
    by destruct (List.find _ _).
  - left. unfold coloredMaskResolved.
    destruct (pendingMasks s !! k) as [[a m]|]; [|done]. cbn.
    destruct (imagesState s !! a) as [sta|]; [|done].
    by rewrite activeImageId_updateAllUI.
  - left. apply activeImageId_updateAllUI.
Qed.

(** X14.  The active image changes only when the first batch of loaded
    images activates image 0 or when a thumbnail is clicked; no event
    deactivates an active image, and in a reachable store the active entry
    exists after every event. *)
Theorem active_image_changes (ev : Event) (s : App) :
  (activeImageId (step ev s) <> activeImageId s ->
   (ev = ImagesAllLoaded /\ activeImageId s = None
    /\ activeImageId (step ev s) = Some 0%nat)
   \/ (exists k index,
         ev = ThumbnailClick k /\ imageThumbnailList s !! k = Some index
         /\ activeImageId (step ev s) = Some index))
  /\ (is_Some (activeImageId s) -> is_Some (activeImageId (step ev s)))
  /\ (reachable s -> is_Some (activeImageId s) ->
      is_Some (getActiveImageState (step ev s))).
Proof.
  assert (Hsome : is_Some (activeImageId s) ->
                  is_Some (activeImageId (step ev s))).
  { intros Hs.
    destruct (activeImageId_step ev s)
      as [->|[(_ & _ & _ & ->)|(k & index & _ & _ & ->)]]; by eauto. }
  split; [|split; [done|]].
  - intros Hne.
    destruct (activeImageId_step ev s)
      as [E|[(-> & Hn & _ & E)|(k & index & -> & Hk & E)]].
    + done.
    + by left.
    + right. by exists k, index.
  - intros Hr Hs. destruct (Hsome Hs) as [i Hi].
    destruct (Inv_reachable _ (reachable_step ev s Hr)) as [HC _].
    pose proof (core_active _ HC i Hi) as Hlt.
    apply lookup_lt_is_Some in Hlt as [st Hst]. exists st.
    by apply getActiveImageState_Some with i.
Qed.

Lemma active_image_changes_witness :
  let s := run twoPhotos initialApp in
  (ThumbnailClick 1 = ImagesAllLoaded /\ activeImageId s = None
   /\ activeImageId (step (ThumbnailClick 1) s) = Some 0%nat)
  \/ (exists k index,
        ThumbnailClick 1 = ThumbnailClick k
        /\ imageThumbnailList s !! k = Some index
        /\ activeImageId (step (ThumbnailClick 1) s) = Some index).
Proof.
  intros s. apply (active_image_changes (ThumbnailClick 1) s).
  vm_compute. discriminate.
Defined.

(** X15.  In every reachable store at most one mask request is
    outstanding, [isPredicting] is set exactly while one is, its entry
    exists, and a mousedown while it is outstanding issues no further
    request. *)
Theorem one_request_at_a_time (s : App) :
  reachable s ->
  (length (pendingFetches s) <= 1)%nat
  /\ (isPredicting s = true <-> pendingFetches s <> [])
  /\ (forall i, i ∈ pendingFetches s -> is_Some (entryOf s i))
  /\ (pendingFetches s <> [] ->
      forall e rect,
        pendingFetches (step (CanvasMouseDown e rect) s) = pendingFetches s).
Proof.
  intros Hr. destruct (outstanding_isPredicting s Hr) as [Hiff Hlen].
  destruct (Inv_reachable s Hr) as [HC _]. repeat split; try done.
  - apply Hiff.
  - apply Hiff.
  - intros i Hi. apply lookup_lt_is_Some.
    by apply (proj1 (Forall_forall _ _) (core_fetchTarget s HC)).
  - intros Hne e rect. cbn. by rewrite canvasMouseDown_isPredicting by by apply Hiff.
Qed.

Lemma one_request_at_a_time_witness :
  let s := run (opened ++ [leftClick 0 0]) initialApp in
  (length (pendingFetches s) <= 1)%nat.
Proof.
  intros s. exact (proj1 (one_request_at_a_time s (ex_intro _ _ eq_refl))).
Defined.

(** ** Drawing *)

Lemma lookup_after_two {A} (a b : A) (l : list A) (k : nat) :
  ([a; b] ++ l) !! (2 + k)%nat = l !! k.
Proof. reflexivity. Qed.

(** X16.  In every reachable store with an active image,
    [redrawCanvas] on a context with [globalAlpha] 1 shows the canvas, leaves
    [globalAlpha] at 1 and draws, in this order and nothing else: the
    clearing of the whole image rectangle, the image at alpha 1, the saved
    masks, the pending mask at alpha 1 if there is one, and one marker per
    point; when a mask is highlighted it exists and is drawn at alpha 0.9,
    nothing else is drawn at 0.9, the other saved masks are drawn at 0.5,
    and the marker of a point is a circle of radius 5 at the point, green
    for label 1 and red otherwise. *)
Theorem redraw_emphasis (s : App) (st : ImageState) :
  reachable s -> getActiveImageState s = Some st ->
  let d := redrawCanvas s 1 in
  let pending := match currentMask st with Some _ => 1%nat | None => 0%nat end in
  canvasShown d = true /\ globalAlphaAfter d = 1%Q
  /\ length (drawOps d)
     = (2 + length (savedMasks st) + pending + length (points st))%nat
  /\ drawOps d !! 0%nat
     = Some (ClearRect (Img.width (imageElement st))
                       (Img.height (imageElement st)))
  /\ drawOps d !! 1%nat = Some (DrawImage (imageElement st) 1)
  /\ (forall mask,
        currentMask st = Some mask ->
        drawOps d !! (2 + length (savedMasks st))%nat
        = Some (DrawImage mask 1))
  /\ (forall h,
        highlightedMaskIndex st = Some h ->
        exists m,
          savedMasks st !! h = Some m
          /\ drawOps d !! (2 + h)%nat
             = Some (DrawImage (maskImageObject m) (9 # 10)))
  /\ (forall k img,
        drawOps d !! k = Some (DrawImage img (9 # 10)) ->
        exists h, k = (2 + h)%nat /\ highlightedMaskIndex st = Some h)
  /\ (forall k m,
        savedMasks st !! k = Some m -> highlightedMaskIndex st <> Some k ->
        drawOps d !! (2 + k)%nat
        = Some (DrawImage (maskImageObject m) (1 # 2)))
  /\ (forall k p,
        points st !! k = Some p ->
        drawOps d !! (2 + length (savedMasks st) + pending + k)%nat
        = Some (FillCircle (Point.x p) (Point.y p) 5
                  (if Point.label p =? 1 then "green" else "red"))).
Proof.
  intros Hr Hs d pending. subst d. unfold redrawCanvas. rewrite Hs.
  cbn [canvasShown globalAlphaAfter drawOps].
  set (masks := imap _ (savedMasks st)).
  set (pend := match currentMask st with Some mask => [DrawImage mask 1] | None => [] end).
  set (markers := _ <$> points st).
  assert (Hlm : length masks = length (savedMasks st)) by apply length_imap.
  assert (Hlp : length pend = pending).
  { subst pend pending. by destruct (currentMask st). }
  assert (Hmask : forall k m, savedMasks st !! k = Some m ->
            ([ClearRect (canvasWidth s) (canvasHeight s); DrawImage (imageElement st) 1]
               ++ masks ++ pend ++ markers) !! (2 + k)%nat
            = Some (DrawImage (maskImageObject m)
                      (if bool_decide (highlightedMaskIndex st = Some k)
                       then 9 # 10 else 1 # 2))).
  { intros k m Hk. rewrite lookup_after_two, lookup_app_l
      by (rewrite Hlm; by eapply lookup_lt_Some).
    subst masks. rewrite list_lookup_imap, Hk. done. }
  split; [done|]. split; [done|].
  split; [|split; [|split; [|split; [|split; [|split; [|split]]]]]].
  - rewrite !length_app, Hlm, Hlp. subst markers. rewrite length_fmap. cbn. lia.
  - by destruct (canvasFitsActiveImage_reachable s Hr st Hs) as [-> ->].
  - done.
  - intros mask Hm.
    replace (2 + length (savedMasks st))%nat
      with (2 + (length masks + 0))%nat by lia.
    rewrite lookup_after_two, lookup_app_r by lia.
    replace (length masks + 0 - length masks)%nat with 0%nat by lia.
    subst pend. by rewrite Hm.
  - intros h Hh. destruct (getActiveImageState_lt s st Hs) as (i & _ & Hi).
    destruct (Inv_reachable s Hr) as [HC _].
    pose proof (core_highlight s HC i st h Hi Hh) as Hlt.
    apply lookup_lt_is_Some in Hlt as [m Hm]. exists m. split; [done|].
    rewrite (Hmask h m Hm). by rewrite bool_decide_eq_true_2.
  - intros k img Hk. destruct k as [|[|k]]; [done|done|].
    exists k. split; [done|].
    change (S (S k)) with (2 + k)%nat in Hk. rewrite lookup_after_two in Hk.
    apply lookup_app_Some in Hk as [Hk|[_ Hk]].
    + subst masks. rewrite list_lookup_imap in Hk.
      destruct (savedMasks st !! k); [|done]. cbn in Hk.
      case_bool_decide; [done|]. by injection Hk.
    + apply lookup_app_Some in Hk as [Hk|[_ Hk]].
      * subst pend. destruct (currentMask st); [|by rewrite lookup_nil in Hk].
        apply list_lookup_singleton_Some in Hk as [_ Hk]. by injection Hk.
      * subst markers. rewrite list_lookup_fmap in Hk.
        by destruct (points st !! _).
  - intros k m Hk Hne. rewrite (Hmask k m Hk). by rewrite bool_decide_eq_false_2.
  - intros k p Hk.
    replace (2 + length (savedMasks st) + pending + k)%nat
      with (2 + (length masks + (length pend + k)))%nat by lia.
    rewrite lookup_after_two.
    rewrite lookup_app_r by lia. rewrite lookup_app_r by lia.
    replace (length masks + (length pend + k) - length masks - length pend)%nat
      with k by lia.
    subst markers. by rewrite list_lookup_fmap, Hk.
Qed.

Lemma redraw_emphasis_witness :
  let s := run (twoSaved ++ [MasksListClick 1]) initialApp in
  canvasShown (redrawCanvas s 1) = true.
Proof.
  intros s.
  set (saved := mkSavedMask greenMask greenMask "cat" "#00ff00").
  exact (proj1 (redraw_emphasis s
                  (mkImageState photo "data:photo" [] None [saved; saved]
                                (Some 1%nat))
                  (ex_intro _ _ eq_refl) eq_refl)).
Defined.

(** ** More on the pointer position *)

(** X17.  When the canvas is laid out at its own pixel size and the
    pointer offset is integral and below [2^53] in magnitude, the recorded
    point is that offset, with label 1 for the left button and 0 for any
    other. *)
Theorem mousedownPoint_natural_size (e : MouseEvent.t) (rect : DOMRect.t)
    (canvasW canvasH a b : Z) :
  (DOMRect.width rect == inject_Z canvasW)%Q -> 0 < canvasW ->
  (DOMRect.height rect == inject_Z canvasH)%Q -> 0 < canvasH ->
  (MouseEvent.clientX e - DOMRect.left rect == inject_Z a)%Q ->
  (MouseEvent.clientY e - DOMRect.top rect == inject_Z b)%Q ->
  Z.abs a < 2 ^ 53 -> Z.abs b < 2 ^ 53 ->
  mousedownPoint e rect canvasW canvasH
  = Point.mk a b (if MouseEvent.button e =? 0 then 1 else 0).
Proof.
  intros Hw HW Hh HH Hx Hy Ha Hb. unfold mousedownPoint.
  assert (Hround : forall (d w : Q) (n W : Z),
            (w == inject_Z W)%Q -> 0 < W -> (d == inject_Z n)%Q ->
            Z.abs n < 2 ^ 53 ->
            Math_round (js_mul (roundToDouble d) (js_div (inject_Z W) w)) = n).
  { intros d w n W Ew HWpos Ed Hn. unfold js_mul, js_div.
    assert (HWq : ~ (inject_Z W == 0)%Q).
    { intros E. unfold Qeq in E. cbn in E. lia. }
    assert (E0 : forall q, (q == inject_Z n)%Q -> (roundToDouble q == q)%Q).
    { intros q Eq. apply (roundToDouble_exact q n 0); [|done|lia].
      rewrite Eq. unfold pow2. ring. }
    assert (E1 : (roundToDouble d == inject_Z n)%Q) by (by rewrite E0).
    assert (E2 : (roundToDouble (inject_Z W / w) == 1)%Q).
    { assert (E : (inject_Z W / w == 1)%Q) by (rewrite Ew; by field).
      rewrite E. by vm_compute. }
    assert (E3 : (roundToDouble d * roundToDouble (inject_Z W / w)
                  == inject_Z n)%Q) by (rewrite E1, E2; ring).
    transitivity (Math_round (inject_Z n)); [|apply Math_round_inject].
    unfold Math_round. apply Qfloor_comp. by rewrite (E0 _ E3), E3. }
  unfold js_sub.
  by rewrite (Hround _ _ a canvasW Hw HW Hx Ha),
             (Hround _ _ b canvasH Hh HH Hy Hb).
Qed.

(** Without the bound the offset is not always recorded: at natural size,
    [clientX = 2^53 + 2] and [left = 1] give the offset [2^53 + 1], which is
    not a double, and the handler stores [2^53]. *)
Lemma mousedownPoint_natural_size_bound :
  let e := MouseEvent.mk (inject_Z (2 ^ 53 + 2)) 0 0 in
  let rect := DOMRect.mk 1 0 2 1 in
  (MouseEvent.clientX e - DOMRect.left rect == inject_Z (2 ^ 53 + 1))%Q
  /\ DOMRect.width rect = inject_Z 2
  /\ Point.x (mousedownPoint e rect 2 1) = 2 ^ 53.
Proof. by vm_compute. Qed.

Lemma mousedownPoint_natural_size_witness :
  mousedownPoint (MouseEvent.mk 1 0 2) photoRect 2 1 = Point.mk 1 0 0.
Proof.
  apply (mousedownPoint_natural_size (MouseEvent.mk 1 0 2) photoRect 2 1 1 0);
    first [reflexivity | lia].
Defined.

(** X7.  The pending mask of an entry changes only when a colored mask
    requested for it is delivered, or when it is removed by a save or a clear
    on the active entry; its points change only by an accepted mousedown,
    which appends one point, or by a save or a clear, which empty them; its
    highlight changes only by a click in the masks list. *)
Theorem pending_mask_changes (ev : Event) (s : App) (i : nat)
    (st st' : ImageState) :
  entryOf s i = Some st -> entryOf (step ev s) i = Some st' ->
  (currentMask st' <> currentMask st ->
   (exists k coloredMask,
      ev = ColoredMaskResolved k /\ pendingMasks s !! k = Some (i, coloredMask)
      /\ currentMask st' = Some coloredMask)
   \/ ((ev = SaveMaskClick \/ ev = ClearPointsClick)
       /\ activeImageId s = Some i /\ currentMask st' = None /\ points st' = []))
  /\ (points st' <> points st ->
      (exists e rect,
         ev = CanvasMouseDown e rect /\ activeImageId s = Some i
         /\ isPredicting s = false
         /\ points st'
            = points st
                ++ [mousedownPoint e rect (canvasWidth s) (canvasHeight s)])
      \/ ((ev = SaveMaskClick \/ ev = ClearPointsClick)
          /\ activeImageId s = Some i /\ points st' = []))
  /\ (highlightedMaskIndex st' <> highlightedMaskIndex st ->
      exists k maskIndex,
        ev = MasksListClick k /\ activeImageId s = Some i
        /\ masksListContainer s !! k = Some maskIndex
        /\ highlightedMaskIndex st'
           = toggled (highlightedMaskIndex st) maskIndex).
Proof.
  intros Hi Hi'. destruct (step_entry ev s i st Hi) as (st1 & Hi1 & Hch).
  assert (st1 = st') as -> by congruence.
  inversion Hch; subst; cbn; repeat split; intros Hne; try done.
  - left. by exists e, rect.
  - right. repeat split; auto.
  - right. repeat split; auto.
  - right. repeat split; auto.
  - right. repeat split; auto.
  - by exists k, maskIndex.
  - left. by exists k, coloredMask.
Qed.

Lemma pending_mask_changes_witness :
  let s := run (opened ++ [leftClick 0 0; FetchSettled 0 (FetchOk oracleMask)])
               initialApp in
  (exists k coloredMask,
     ColoredMaskResolved 0 = ColoredMaskResolved k
     /\ pendingMasks s !! k = Some (0%nat, coloredMask)
     /\ Some redMask = Some coloredMask)
  \/ ((ColoredMaskResolved 0 = SaveMaskClick
       \/ ColoredMaskResolved 0 = ClearPointsClick)
      /\ activeImageId s = Some 0%nat /\ Some redMask = None
      /\ [Point.mk 0 0 1] = []).
Proof.
  intros s.
  apply (pending_mask_changes (ColoredMaskResolved 0) s 0
           (mkImageState photo "data:photo" [Point.mk 0 0 1] None [] None)
           (mkImageState photo "data:photo" [Point.mk 0 0 1] (Some redMask)
                         [] None)
           eq_refl eq_refl).
  cbn. discriminate.
Defined.

(** ** The page and the store *)

Lemma pageInSync_updateAllUI s : pageInSync (updateAllUI s).
Proof.
  unfold updateAllUI.
  set (s1 := match getActiveImageState s with Some _ => _ | None => s end).
  split; cbn; try done.
  exists (length (imagesState s1)). done.
Qed.

Lemma pageInSync_generateMask s : pageInSync s -> pageInSync (generateMask s).
Proof.
  intros H. unfold generateMask. destruct (activeImageId s) eqn:Ea; [|done].
  destruct (getActiveImageState s) eqn:Es; [|done].
  destruct (length _ =? 0)%nat; [done|].
  destruct H as [H1 H2 H3]. split; cbn; try done.
Qed.

Lemma pageInSync_step ev s :
  reachable s -> pageInSync s -> pageInSync (step ev s).
Proof.
  intros Hr Hsync. destruct (Inv_reachable s Hr) as [HC _].
  destruct (step_canvas ev s) as [[s0 ->]|_];
    [apply pageInSync_updateAllUI|].
  pose proof Hsync as [H1 H2 H3].
  destruct ev; cbn [step].
  - (* ImageLoaded *)
    split; cbn; try done.
    + rewrite H2. unfold getActiveImageState. cbn.
      destruct (activeImageId s) as [a|] eqn:Ea; [|done].
      pose proof (core_active s HC a Ea) as Hlt.
      by rewrite lookup_app_l.
    + destruct H3 as (n & Hn & ->). exists n. rewrite length_app. split; [lia|done].
  - (* ImagesAllLoaded *)
    unfold imagesAllLoaded. destruct (_ && _);
      [apply pageInSync_updateAllUI|].
    split; cbn; try done. by exists (length (imagesState s)).
  - destruct (imageThumbnailList s !! k); [apply pageInSync_updateAllUI|done].
  - (* CanvasMouseDown *)
    unfold canvasMouseDown.
    destruct (activeImageId s) as [a|] eqn:Ea; [|done].
    destruct (getActiveImageState s) as [sta|] eqn:Es; [|done].
    destruct (isPredicting s); [done|].
    apply pageInSync_generateMask. split; cbn; try done.
    + rewrite H2. unfold getActiveImageState in *. cbn. rewrite ?Ea in *.
      rewrite list_lookup_insert_eq by (by eapply lookup_lt_Some). done.
    + by rewrite length_insert.
  - (* SaveMaskClick *)
    unfold saveMaskClick.
    destruct (activeImageId s) as [a|]; [|done].
    destruct (getActiveImageState s); [|done].
    destruct (currentMask _); [|done]. destruct (truthy _); [|done].
    destruct (findClassByName _ _); [apply pageInSync_updateAllUI|done].
  - (* ClearPointsClick *)
    unfold clearPointsClick.
    destruct (activeImageId s) as [a|]; [|done].
    destruct (getActiveImageState s); [|done].
    destruct (_ || _); [apply pageInSync_updateAllUI|done].
  - (* AddClassClick *)
    unfold addClassClick. destruct (_ && _); [|done]. by split.
  - (* ClassClick *)
    destruct (classListContainer s !! k); [|done]. by split.
  - (* MasksListClick *)
    unfold masksListClick.
    destruct (masksListContainer s !! k); [|done].
    destruct (activeImageId s) as [a|]; [|done].
    destruct (getActiveImageState s); [|done].
    split; cbn; try done. by rewrite length_insert.
  - (* FetchSettled *)
    unfold generateMaskResume. destruct (pendingFetches s !! k); [|done].
    destruct r as [|mask]; [by split|]. cbn.
    destruct (truthy _); [|by split]. destruct (List.find _ _); by split.
  - (* ColoredMaskResolved *)
    unfold coloredMaskResolved.
    destruct (pendingMasks s !! k) as [[a m]|]; [|done]. cbn.
    destruct (imagesState s !! a); [apply pageInSync_updateAllUI|by split].
  - apply pageInSync_updateAllUI.
Qed.

(** X19.  In every reachable store the rendered class list is the list of
    the registered class names, the rendered masks list enumerates the saved
    masks of the active image, and the thumbnails enumerate a prefix of the
    loaded images; so a click on the k-th item of the masks list toggles the
    highlight of the k-th saved mask of the active image. *)
Theorem page_in_sync (s : App) :
  reachable s ->
  classListContainer s = ClassInfo.name <$> classes s
  /\ masksListContainer s
     = match getActiveImageState s with
       | Some st => seq 0 (length (savedMasks st))
       | None => []
       end
  /\ (exists n, (n <= length (imagesState s))%nat
                /\ imageThumbnailList s = seq 0 n)
  /\ (forall st k,
        getActiveImageState s = Some st ->
        (k < length (savedMasks st))%nat ->
        getActiveImageState (step (MasksListClick k) s)
        = Some (withHighlightedMaskIndex
                  (toggled (highlightedMaskIndex st) k) st)).
Proof.
  intros Hr.
  assert (H : pageInSync s).
  { destruct Hr as [evs ->].
    induction evs as [|ev evs IH] using rev_ind.
    - split; cbn; try done. by exists 0%nat.
    - rewrite run_snoc. apply pageInSync_step; [by exists evs|done]. }
  destruct H as [H1 H2 H3]. repeat split; try done.
  intros st k Hs Hk. cbn [step]. rewrite H2, Hs, lookup_seq_lt by done.
  destruct (getActiveImageState_lt s st Hs) as (i & Ha & Hi).
  destruct (masksListClick_entry s i st k Ha Hi) as [He Ha'].
  by apply getActiveImageState_Some with i.
Qed.

Lemma page_in_sync_witness :
  let s := run (twoSaved ++ [MasksListClick 1]) initialApp in
  classListContainer s = ["cat"] /\ masksListContainer s = [0%nat; 1%nat].
Proof.
  intros s.
  destruct (page_in_sync s (ex_intro _ _ eq_refl)) as (H1 & H2 & _).
  split; [exact H1|exact H2].
Defined.

(** ** The buttons and the clicks they let through *)

Lemma buttonsSound_refreshed s b :
  updateButtonsState s = Some b -> buttonsSound (mkPage s b).
Proof.
  unfold updateButtonsState, buttonsSound, getActiveImageState. cbn [store buttons].
  destruct (activeImageId s) as [i|]; [|by intros [= <-]].
  destruct (imagesState s !! i) as [st|]; [|done]. intros [= <-].
  cbn [saveMaskDisabled clearPointsDisabled]. split.
  - intros H. apply negb_false_iff, andb_true_iff in H as [H1 H2].
    apply bool_decide_eq_true in H1 as [mask Hm].
    apply bool_decide_eq_true in H2 as [name Hn].
    by exists st, mask, name.
  - intros H. apply negb_false_iff in H. by exists st.
Qed.

Lemma activeClass_generateMask s :
  activeClass (generateMask s) = activeClass s.
Proof.
  unfold generateMask. destruct (activeImageId s); [|done].
  destruct (getActiveImageState s); [|done].
  by destruct (length (points _) =? 0)%nat.
Qed.

(** A handler that does not reach [updateButtonsState] keeps the pending
    mask of the active entry and the active class, and removes no point. *)
Lemma step_without_refresh ev s st :
  reachesUpdateButtonsState ev s = false ->
  getActiveImageState s = Some st ->
  exists st',
    getActiveImageState (step ev s) = Some st'
    /\ currentMask st' = currentMask st
    /\ (length (points st) <= length (points st'))%nat
    /\ activeClass (step ev s) = activeClass s.
Proof.
  intros Hno Hs.
  destruct (getActiveImageState_lt s st Hs) as (i & Ha & Hi).
  assert (Hwritten : forall st1 s1,
            imagesState s1 = <[ i := st1 ]> (imagesState s) ->
            activeImageId s1 = Some i ->
            getActiveImageState s1 = Some st1).
  { intros st1 s1 E1 E2. unfold getActiveImageState. rewrite E2, E1.
    apply list_lookup_insert_eq. by eapply lookup_lt_Some. }
  destruct ev; cbn [step reachesUpdateButtonsState] in *.
  - exists st. unfold getActiveImageState, imageLoaded. cbn. rewrite Ha.
    by rewrite (lookup_app_l_Some _ _ _ _ Hi).
  - unfold imagesAllLoaded. rewrite Hno. exists st.
    unfold getActiveImageState. cbn. by rewrite Ha.
  - apply bool_decide_eq_false in Hno.
    destruct (imageThumbnailList s !! k); [|by exists st].
    exfalso. apply Hno. by eexists.
  - unfold canvasMouseDown. rewrite Ha, Hs.
    destruct (isPredicting s); [by exists st|].
    eexists. split; [|split; [|split]].
    + apply Hwritten.
      * by rewrite imagesState_generateMask.
      * by rewrite activeImageId_generateMask.
    + done.
    + cbn. rewrite length_app. lia.
    + by rewrite activeClass_generateMask.
  - unfold saveMaskClick. rewrite Ha, Hs in Hno |- *.
    destruct (currentMask st) eqn:Em; [|by exists st]. cbn in Hno.
    destruct (truthy (activeClass s)) as [name|]; [|by exists st].
    apply bool_decide_eq_false in Hno.
    destruct (findClassByName name s); [|by exists st].
    exfalso. apply Hno. by eexists.
  - unfold clearPointsClick. rewrite Ha, Hs in Hno |- *. rewrite Hno.
    by exists st.
  - unfold addClassClick. rewrite Hno. by exists st.
  - apply bool_decide_eq_false in Hno.
    destruct (classListContainer s !! k); [|by exists st].
    exfalso. apply Hno. by eexists.
  - unfold masksListClick. destruct (masksListContainer s !! k); [|by exists st].
    rewrite Ha, Hs. eexists. split; [by apply Hwritten|].
    cbn. split; [done|]. split; [lia|done].
  - exists st. unfold getActiveImageState.
    rewrite imagesState_generateMaskResume.
    unfold generateMaskResume. destruct (pendingFetches s !! k); [|by rewrite Ha].
    destruct r as [|mask]; cbn; [by rewrite Ha|].
    destruct (truthy (activeClass s));
      [destruct (List.find _ _)|]; cbn; by rewrite Ha.
  - unfold coloredMaskResolved.
    destruct (pendingMasks s !! k) as [[j m]|]; [|by exists st]. cbn.
    apply bool_decide_eq_false in Hno.
    destruct (imagesState s !! j); [exfalso; apply Hno; by eexists|].
    exists st. unfold getActiveImageState. cbn. by rewrite Ha.
  - done.
Qed.

Lemma updateButtonsState_reachable s :
  reachable s -> is_Some (updateButtonsState s).
Proof.
  intros Hr. destruct (Inv_reachable s Hr) as [HC _].
  unfold updateButtonsState.
  destruct (activeImageId s) as [i|] eqn:Ea; [|by eexists].
  destruct (lookup_lt_is_Some_2 _ _ (core_active s HC i Ea)) as [st ->].
  by eexists.
Qed.

Lemma buttonsSound_pageStep ev p :
  reachable (store p) -> buttonsSound p -> buttonsSound (pageStep ev p).
Proof.
  intros Hr [Hsave Hclear]. unfold pageStep.
  destruct (dispatched ev (buttons p)); [|done].
  destruct (reachesUpdateButtonsState ev (store p)) eqn:E.
  - destruct (updateButtonsState_reachable (step ev (store p))
                (reachable_step ev _ Hr)) as [b Hb].
    rewrite Hb. by apply buttonsSound_refreshed.
  - split; cbn [store buttons].
    + intros H. destruct (Hsave H) as (st & mask & name & Hs & Hm & Hn).
      destruct (step_without_refresh ev _ st E Hs) as (st' & Hs' & E1 & _ & E2).
      exists st', mask, name. by rewrite E1, E2.
    + intros H. destruct (Hclear H) as (st & Hs & Hw).
      destruct (step_without_refresh ev _ st E Hs) as (st' & Hs' & E1 & E2 & _).
      exists st'. split; [done|]. rewrite E1.
      apply orb_true_iff in Hw as [Hw|Hw]; apply orb_true_iff; [left|by right].
      apply Nat.ltb_lt in Hw. apply Nat.ltb_lt. lia.
Qed.

Lemma buttonsSound_reachable initialButtons p :
  saveMaskDisabled initialButtons = true ->
  clearPointsDisabled initialButtons = true ->
  pageReachable initialButtons p -> buttonsSound p.
Proof.
  intros H1 H2 [evs ->].
  induction evs as [|ev evs IH] using rev_ind.
  - split; cbn; intros H; congruence.
  - unfold pageRun. rewrite fold_left_app. cbn [fold_left].
    fold (pageRun evs (initialPage initialButtons)).
    apply buttonsSound_pageStep; [|exact IH].
    apply (pageReachable_store initialButtons). by exists evs.
Qed.

(** X20.  On every page reached from an initial page whose save and clear
    buttons are disabled, the store is a reachable store, and an enabled
    button has work to do: while the save button is enabled the active
    entry has a pending mask and a registered class is active, so that a
    click on it appends that mask to the saved masks of the entry, empties
    its points and pending mask, and leaves both buttons disabled; while
    the clear button is enabled the active entry has a point or a pending
    mask, and a click on it empties both and leaves both buttons
    disabled. *)
Theorem enabled_buttons_act (initialButtons : Buttons) (p : Page) :
  saveMaskDisabled initialButtons = true ->
  clearPointsDisabled initialButtons = true ->
  pageReachable initialButtons p ->
  reachable (store p)
  /\ (saveMaskDisabled (buttons p) = false ->
      exists i st mask classInfo,
        activeImageId (store p) = Some i /\ entryOf (store p) i = Some st
        /\ currentMask st = Some mask
        /\ activeClass (store p) = Some (ClassInfo.name classInfo)
        /\ classInfo ∈ classes (store p)
        /\ let p' := pageStep SaveMaskClick p in
           entryOf (store p') i
           = Some (withPoints []
                     (withCurrentMask None
                        (withSavedMasks
                           (savedMasks st
                              ++ [mkSavedMask mask mask
                                    (ClassInfo.name classInfo)
                                    (ClassInfo.color classInfo)]) st)))
           /\ saveMaskDisabled (buttons p') = true
           /\ clearPointsDisabled (buttons p') = true)
  /\ (clearPointsDisabled (buttons p) = false ->
      exists i st,
        activeImageId (store p) = Some i /\ entryOf (store p) i = Some st
        /\ (points st <> [] \/ is_Some (currentMask st))
        /\ let p' := pageStep ClearPointsClick p in
           entryOf (store p') i
           = Some (withCurrentMask None (withPoints [] st))
           /\ saveMaskDisabled (buttons p') = true
           /\ clearPointsDisabled (buttons p') = true).
Proof.
  intros H1 H2 Hp. pose proof (pageReachable_store _ _ Hp) as Hr.
  destruct (buttonsSound_reachable _ _ H1 H2 Hp) as [Hsave Hclear].
  destruct (Inv_reachable _ Hr) as [HC _].
  assert (Hflags : forall i st1 s1,
            activeImageId s1 = Some i -> imagesState s1 !! i = Some st1 ->
            points st1 = [] -> currentMask st1 = None ->
            forall b, exists b',
              default b (updateButtonsState s1) = b'
              /\ saveMaskDisabled b' = true /\ clearPointsDisabled b' = true).
  { intros i st1 s1 Ea Ei Ept Ecm b. unfold updateButtonsState.
    rewrite Ea, Ei, Ept, Ecm. cbn. eexists. split; [reflexivity|]. done. }
  split; [done|]. split.
  - intros Hen. destruct (Hsave Hen) as (st & mask & name & Hs & Hm & Hn).
    destruct (getActiveImageState_lt _ st Hs) as (i & Ha & Hi).
    pose proof Hn as Hn'. apply truthy_Some in Hn' as [Hac Hne].
    destruct (core_activeClass _ HC name Hac) as [c Hc].
    destruct (findClassByName_name name _ c Hc) as [Hname Hin].
    exists i, st, mask, c. split; [done|]. split; [done|]. split; [done|].
    split; [by rewrite Hac, Hname|]. split; [done|].
    cbn zeta. unfold pageStep. cbn [dispatched]. rewrite Hen. cbn [negb].
    cbn [reachesUpdateButtonsState step]. unfold saveMaskClick.
    rewrite Ha, Hs, Hm, Hn, Hc. cbn [stateOf bool_decide]. cbn [store buttons].
    set (st2 := withPoints [] (withCurrentMask None (withSavedMasks _ st))).
    assert (Ei : imagesState (updateAllUI (writeEntry i st2 (store p))) !! i
                 = Some st2).
    { rewrite imagesState_updateAllUI. cbn.
      apply list_lookup_insert_eq. by eapply lookup_lt_Some. }
    assert (Ea : activeImageId (updateAllUI (writeEntry i st2 (store p)))
                 = Some i) by (by rewrite activeImageId_updateAllUI).
    split; [exact Ei|].
    assert (Hb : bool_decide (is_Some (Some mask)) = true)
      by (apply bool_decide_eq_true; by eexists).
    assert (Hb' : bool_decide (is_Some (Some c)) = true)
      by (apply bool_decide_eq_true; by eexists).
    rewrite Hb, Hb'. cbn [andb].
    destruct (Hflags i st2 _ Ea Ei eq_refl eq_refl (buttons p))
      as (b' & -> & Hb1 & Hb2). done.
  - intros Hen. destruct (Hclear Hen) as (st & Hs & Hw).
    destruct (getActiveImageState_lt _ st Hs) as (i & Ha & Hi).
    exists i, st. split; [done|]. split; [done|]. split.
    { apply orb_true_iff in Hw as [Hw|Hw].
      - left. apply Nat.ltb_lt in Hw. destruct (points st); [cbn in Hw; lia|done].
      - right. by apply bool_decide_eq_true in Hw. }
    cbn zeta. unfold pageStep. cbn [dispatched]. rewrite Hen. cbn [negb].
    cbn [reachesUpdateButtonsState step]. unfold clearPointsClick.
    rewrite Ha, Hs, Hw. cbn [store buttons].
    set (st2 := withCurrentMask None (withPoints [] st)).
    assert (Ei : imagesState (updateAllUI (writeEntry i st2 (store p))) !! i
                 = Some st2).
    { rewrite imagesState_updateAllUI. cbn.
      apply list_lookup_insert_eq. by eapply lookup_lt_Some. }
    assert (Ea : activeImageId (updateAllUI (writeEntry i st2 (store p)))
                 = Some i) by (by rewrite activeImageId_updateAllUI).
    split; [exact Ei|].
    destruct (Hflags i st2 _ Ea Ei eq_refl eq_refl (buttons p))
      as (b' & -> & Hb1 & Hb2). done.
Qed.

Lemma enabled_buttons_act_witness :
  let p :=
    pageRun (opened ++ [AddClassClick "cat" "#00ff00"; leftClick 0 0;
                        FetchSettled 0 (FetchOk oracleMask);
                        ColoredMaskResolved 0])
            (initialPage allDisabled) in
  saveMaskDisabled (buttons p) = false
  /\ savedMasks <$> entryOf (store (pageStep SaveMaskClick p)) 0
     = Some [mkSavedMask greenMask greenMask "cat" "#00ff00"]
  /\ saveMaskDisabled (buttons (pageStep SaveMaskClick p)) = true.
Proof.
  intros p.
  destruct (enabled_buttons_act allDisabled p eq_refl eq_refl
              (ex_intro _ _ eq_refl)) as (_ & Hsave & _).
  split; [reflexivity|].
  destruct (Hsave eq_refl) as (i & st & mask & c & Ha & Hi & Hm & Hn & Hc & He & Hb & _).
  split; [|exact Hb].
  assert (i = 0%nat) as -> by (vm_compute in Ha; congruence).
  rewrite He. vm_compute in Hi. injection Hi as <-.
  vm_compute in Hm. injection Hm as <-.
  vm_compute in Hn. injection Hn as Hn.
  destruct c as [cn cc]. cbn in Hn. subst cn.
  assert (cc = "#00ff00"%string) as ->.
  { vm_compute in Hc. apply list_elem_of_singleton in Hc. congruence. }
  reflexivity.
Defined.

(** ** The React front end *)

Module ViteFacts.
Import Vite.

Lemma hooks_consistent_initial : Consistent initial.
Proof.
  split; cbn; try done; try constructor; compute_done.
Qed.

Lemma hooks_consistent_step ev s : Consistent s -> Consistent (step ev s).
Proof.
  intros [H1 H2 H3 H4 H5].
  assert (Hsel : forall A (u : A), is_Some (Some u)) by (intros; by eexists).
  destruct ev; cbn [step].
  - split; cbn; try done; constructor.
  - destruct (uploadedFiles s !! k); [|by split].
    split; cbn; try done; constructor.
  - destruct (selectedImage s) eqn:E; [|split; by rewrite ?E].
    split; cbn; rewrite ?E; try done.
    apply Forall_app. split; [done|]. constructor; [by right|constructor].
  - destruct (selectedImage s) eqn:E; [|split; by rewrite ?E].
    split; cbn; rewrite ?E; try done.
    apply Forall_app. split; [done|]. constructor; [by left|constructor].
  - destruct (selectedImage s) eqn:E; [|split; by rewrite ?E].
    destruct (proposedMasks s !! k); [|split; by rewrite ?E].
    split; cbn; rewrite ?E; try done.
    + apply Forall_app. split; [done|]. by repeat constructor.
    + apply Forall_app. split; [done|]. constructor; [by right|constructor].
  - unfold handlePredict. destruct (selectedImage s) eqn:E;
      [|split; by rewrite ?E].
    destruct (length _ =? 0)%nat; split; cbn; by rewrite ?E.
  - unfold handlePredictResume. destruct (pendingPredicts s); [by split|].
    destruct r; by split.
  - by split.
  - by split.
  - unfold handleAddClass. destruct (_ && _) eqn:E; [|by split].
    apply andb_true_iff in E as [_ E]. apply negb_true_iff in E.
    apply bool_decide_eq_false in E.
    split; cbn; try done.
    + apply NoDup_app. split; [done|]. split; [|apply NoDup_singleton].
      intros x Hx Hx'. apply list_elem_of_singleton in Hx' as ->. done.
    + apply elem_of_app. by left.
    + eapply Forall_impl; [exact H3|]. intros a Ha. apply elem_of_app. by left.
  - destruct (classes s !! k) as [c|] eqn:E; [|by split].
    split; cbn; try done. apply list_elem_of_lookup. eauto.
Qed.

End ViteFacts.


(** X18.  In the React front end, after any sequence of events the class
    list has no duplicates, the active class is in it, every annotation
    carries a class of it, annotations exist only while an image is selected,
    and every point has label 0 or 1.  A click on a proposed mask adds the
    annotation under the active class and empties the proposals; as the
    click also reaches the stage, the points are not emptied: they are those
    of before the click and the clicked position, with label 1. *)
Theorem vite_class_invariants (evs : list Vite.Event) :
  let s := Vite.run evs Vite.initial in
  NoDup (Vite.classes s)
  /\ Vite.activeClass s ∈ Vite.classes s
  /\ (forall a, a ∈ Vite.annotations s -> Vite.className a ∈ Vite.classes s)
  /\ (Vite.annotations s <> [] -> is_Some (Vite.selectedImage s))
  /\ (forall p, p ∈ Vite.points s -> Point.label p = 0 \/ Point.label p = 1)
  /\ (forall k now x y mask,
        is_Some (Vite.selectedImage s) ->
        Vite.proposedMasks s !! k = Some mask ->
        let s' := Vite.step (Vite.ProposedMaskClick k now x y) s in
        Vite.annotations s'
        = Vite.annotations s
            ++ [Vite.mkAnnotation now mask (Vite.activeClass s)]
        /\ Vite.proposedMasks s' = []
        /\ Vite.points s'
           = Vite.points s ++ [Point.mk (Math_round x) (Math_round y) 1]).
Proof.
  cbn zeta. assert (H : Vite.Consistent (Vite.run evs Vite.initial)).
  { unfold Vite.run. generalize ViteFacts.hooks_consistent_initial. generalize Vite.initial.
    induction evs as [|ev evs IH]; intros s Hs; [done|].
    cbn. apply IH. by apply ViteFacts.hooks_consistent_step. }
  destruct H as [H1 H2 H3 H4 H5].
  split; [done|]. split; [done|]. split; [|split; [done|split]].
  - intros a. by apply (proj1 (Forall_forall _ _) H3).
  - intros p. by apply (proj1 (Forall_forall _ _) H5).
  - intros k now x y mask [image Hsel] Hk. cbn [Vite.step].
    by rewrite Hsel, Hk.
Qed.

Lemma vite_class_invariants_witness :
  let s :=
    Vite.run [Vite.FileChange [Vite.mkFile "a.png" "blob:a"];
              Vite.GalleryClick 0; Vite.StageClick 1 1; Vite.PredictClick;
              Vite.PredictSettled (Some ["m"])] Vite.initial in
  let s' := Vite.step (Vite.ProposedMaskClick 0 5 2 3) s in
  Vite.annotations s' = [Vite.mkAnnotation 5 "m" "car"]
  /\ Vite.proposedMasks s' = []
  /\ Vite.points s' = [Point.mk 1 1 1; Point.mk 2 3 1].
Proof.
  intros s.
  destruct (vite_class_invariants
              [Vite.FileChange [Vite.mkFile "a.png" "blob:a"];
               Vite.GalleryClick 0; Vite.StageClick 1 1; Vite.PredictClick;
               Vite.PredictSettled (Some ["m"])])
    as (_ & _ & _ & _ & _ & H).
  apply (H 0%nat 5 2%Q 3%Q "m"%string).
  - eexists. reflexivity.
  - reflexivity.
Defined.
